(** * Contrast: rules engine, move table, N-tuple evaluator, state array

    A shallow embedding of the parts of the Contrast engine whose specified
    behaviour is verified below:

    - [Rules::legal_moves] (ray walk over the precomputed move table and the
      tile-placement expansion),
    - [kMoveTable] (precomputed_move_table.hpp),
    - [NTuple::to_index], [NTupleNetwork::evaluate], [td_update], [load]
      (engine/src/ntuple.cpp),
    - [GameSession::board_to_array] / [array_to_board]
      (apps/web_server/game_session.cpp),
    - the game-claiming loop of the self-play trainer, the result queue and
      the statistics of its updater (apps/train_ntuple/train_selfplay.cpp),
      and the game-claiming loop of the older parallel trainer
      ([play_training_game], [worker_thread]),
    - [NTupleNetwork::save], the text coordinates of the web session, the
      move lookup of the game server (server/main.cpp), the tile scan of the
      playing GUI (apps/gui_play/renderer.cpp) and the terminal test,
      simulation and backpropagation of the tree search (engine/src/mcts.cpp).

    C++ [int] and [long long] values are integers in [Z]; where a value is
    narrowed the two's-complement wrap is written out.  [float] arithmetic is
    behind the class [FloatOps], whose instance is IEEE binary32 (round to
    nearest even). *)

From Stdlib Require Import ZArith List Bool Lia Arith Permutation.
From Stdlib Require Import SpecFloat.
Import ListNotations.

Local Open Scope Z_scope.

(* ------------------------------------------------------------------------- *)
(** ** Geometry and types (contrast/types.hpp, board.hpp, game_state.hpp)     *)
(* ------------------------------------------------------------------------- *)

(** Modelled from the spec: contrast/types.hpp is not part of the sources at
    hand.  "Board width W=5, height H=5". *)
Definition BOARD_W : Z := 5.
Definition BOARD_H : Z := 5.

(** Modelled from the spec: "Player: sum type {None, Black, White}; integer
    encoding 0/1/2". *)
Inductive Player : Type := Player_None | Player_Black | Player_White.

(** Modelled from the spec: "TileType: sum type {None, Black, Gray}; integer
    encoding 0/1/2". *)
Inductive TileType : Type := Tile_None | Tile_Black | Tile_Gray.

Definition Player_to_int (p : Player) : Z :=
  match p with Player_None => 0 | Player_Black => 1 | Player_White => 2 end.

Definition TileType_to_int (t : TileType) : Z :=
  match t with Tile_None => 0 | Tile_Black => 1 | Tile_Gray => 2 end.

(** [static_cast<Player>(occ)] for the values 0..2 the callers pass. *)
Definition Player_of_int (z : Z) : Player :=
  if z =? 1 then Player_Black else if z =? 2 then Player_White else Player_None.

Definition TileType_of_int (z : Z) : TileType :=
  if z =? 1 then Tile_Black else if z =? 2 then Tile_Gray else Tile_None.

Definition Player_eqb (p q : Player) : bool :=
  match p, q with
  | Player_None, Player_None | Player_Black, Player_Black
  | Player_White, Player_White => true
  | _, _ => false
  end.

Definition TileType_eqb (s t : TileType) : bool :=
  match s, t with
  | Tile_None, Tile_None | Tile_Black, Tile_Black | Tile_Gray, Tile_Gray => true
  | _, _ => false
  end.

(** Modelled from the spec: "Cell: pair (occupant: Player, tile: TileType)". *)
Record Cell : Type := mkCell { occupant : Player; tile : TileType }.

Definition empty_cell : Cell := mkCell Player_None Tile_None.

(** Modelled from the spec: "TileInventory (per player): (black, gray)";
    the fields are read and written as [int]. *)
Record TileInventory : Type := mkInv { black : Z; gray : Z }.

(** Modelled from the spec: board.hpp is not part of the sources at hand.  The
    board is "a W·H array of Cell" whose linearised index is [i = y·W + x];
    it is kept here as the list of its 25 cells in that order. *)
Definition Board : Type := list Cell.

Definition Board_index (x y : Z) : nat := Z.to_nat (y * BOARD_W + x).

Definition Board_at (b : Board) (x y : Z) : Cell := nth (Board_index x y) b empty_cell.

Fixpoint list_set {A : Type} (l : list A) (i : nat) (v : A) : list A :=
  match l, i with
  | [], _ => []
  | _ :: r, O => v :: r
  | a :: r, S j => a :: list_set r j v
  end.

(** [b.at(x,y) = c] *)
Definition Board_set (b : Board) (x y : Z) (c : Cell) : Board :=
  list_set b (Board_index x y) c.

Definition Board_wf (b : Board) : Prop := length b = 25%nat.

(** Modelled from the spec: game_state.hpp is not part of the sources at hand.
    "GameState: (board, to_move, inventory[Black], inventory[White])". *)
Record GameState : Type := mkState {
  board : Board;
  to_move_ : Player;
  inv_black : TileInventory;
  inv_white : TileInventory
}.

Definition current_player (s : GameState) : Player := to_move_ s.

(** [s.inventory(p)]; the spec attaches one inventory to Black and one to
    White, and callers only pass those two players. *)
Definition inventory (s : GameState) (p : Player) : TileInventory :=
  match p with Player_White => inv_white s | _ => inv_black s end.

Definition set_board (s : GameState) (b : Board) : GameState :=
  mkState b (to_move_ s) (inv_black s) (inv_white s).

Definition set_to_move (s : GameState) (p : Player) : GameState :=
  mkState (board s) p (inv_black s) (inv_white s).

(** Modelled from the spec: [GameState::reset].  "Row 0 holds {Black, None};
    row H−1 holds {White, None}; all interior cells are {None, None}";
    inventories (3,1); Black to move. *)
Definition initial_board : Board :=
  repeat (mkCell Player_Black Tile_None) 5 ++ repeat empty_cell 15
  ++ repeat (mkCell Player_White Tile_None) 5.

Definition reset : GameState :=
  mkState initial_board Player_Black (mkInv 3 1) (mkInv 3 1).

(** Modelled from the spec: contrast/move.hpp is not part of the sources at
    hand.  "Move: (sx,sy)→(dx,dy), an optional tile placement with target
    (tx,ty) and tile kind"; these are the fields the rules engine writes.  A
    default-constructed move is taken to be all zero. *)
Record Move : Type := mkMove {
  sx : Z; sy : Z; dx : Z; dy : Z;
  place_tile : bool;
  tx : Z; ty : Z;
  tile_kind : TileType
}.

Definition Move_default : Move := mkMove 0 0 0 0 false 0 0 Tile_None.

Definition coord_range : list Z := [0; 1; 2; 3; 4].

(** The cells in the order of [for y ... for x ...]. *)
Definition cells_xy : list (Z * Z) :=
  flat_map (fun y => map (fun x => (x, y)) coord_range) coord_range.

(* ------------------------------------------------------------------------- *)
(** ** Precomputed move table (contrast/precomputed_move_table.hpp)           *)
(* ------------------------------------------------------------------------- *)

Definition kMaxRayLength : Z := (if BOARD_W >? BOARD_H then BOARD_W else BOARD_H) - 1.
Definition kMaxDirections : Z := 8.
Definition kTileTypeCount : Z := 3.
Definition kBoardSize : Z := BOARD_W * BOARD_H.

Record PrecomputedDirection : Type := Dir {
  step_count : nat;
  rel_index : list Z
}.

Record MoveTableEntry : Type := Entry {
  dir_count : nat;
  dirs : list PrecomputedDirection
}.

Definition kMoveTable_None : list MoveTableEntry :=
  [
    (* origin  0 *) Entry 4
      [Dir 4 [1; 2; 3; 4]; Dir 0 [0; 0; 0; 0]; Dir 4 [5; 10; 15; 20]; Dir 0 [0; 0; 0; 0];
       Dir 0 [0; 0; 0; 0]; Dir 0 [0; 0; 0; 0]; Dir 0 [0; 0; 0; 0]; Dir 0 [0; 0; 0; 0]];
    (* origin  1 *) Entry 4
      [Dir 3 [1; 2; 3; 0]; Dir 1 [(-1); 0; 0; 0]; Dir 4 [5; 10; 15; 20]; Dir 0 [0; 0; 0; 0];
       Dir 0 [0; 0; 0; 0]; Dir 0 [0; 0; 0; 0]; Dir 0 [0; 0; 0; 0]; Dir 0 [0; 0; 0; 0]];
    (* origin  2 *) Entry 4
      [Dir 2 [1; 2; 0; 0]; Dir 2 [(-1); (-2); 0; 0]; Dir 4 [5; 10; 15; 20]; Dir 0 [0; 0; 0; 0];
       Dir 0 [0; 0; 0; 0]; Dir 0 [0; 0; 0; 0]; Dir 0 [0; 0; 0; 0]; Dir 0 [0; 0; 0; 0]];
    (* origin  3 *) Entry 4
      [Dir 1 [1; 0; 0; 0]; Dir 3 [(-1); (-2); (-3); 0]; Dir 4 [5; 10; 15; 20]; Dir 0 [0; 0; 0; 0];
       Dir 0 [0; 0; 0; 0]; Dir 0 [0; 0; 0; 0]; Dir 0 [0; 0; 0; 0]; Dir 0 [0; 0; 0; 0]];
    (* origin  4 *) Entry 4
      [Dir 0 [0; 0; 0; 0]; Dir 4 [(-1); (-2); (-3); (-4)]; Dir 4 [5; 10; 15; 20]; Dir 0 [0; 0; 0; 0];
       Dir 0 [0; 0; 0; 0]; Dir 0 [0; 0; 0; 0]; Dir 0 [0; 0; 0; 0]; Dir 0 [0; 0; 0; 0]];
    (* origin  5 *) Entry 4
      [Dir 4 [1; 2; 3; 4]; Dir 0 [0; 0; 0; 0]; Dir 3 [5; 10; 15; 0]; Dir 1 [(-5); 0; 0; 0];
       Dir 0 [0; 0; 0; 0]; Dir 0 [0; 0; 0; 0]; Dir 0 [0; 0; 0; 0]; Dir 0 [0; 0; 0; 0]];
    (* origin  6 *) Entry 4
      [Dir 3 [1; 2; 3; 0]; Dir 1 [(-1); 0; 0; 0]; Dir 3 [5; 10; 15; 0]; Dir 1 [(-5); 0; 0; 0];
       Dir 0 [0; 0; 0; 0]; Dir 0 [0; 0; 0; 0]; Dir 0 [0; 0; 0; 0]; Dir 0 [0; 0; 0; 0]];
    (* origin  7 *) Entry 4
      [Dir 2 [1; 2; 0; 0]; Dir 2 [(-1); (-2); 0; 0]; Dir 3 [5; 10; 15; 0]; Dir 1 [(-5); 0; 0; 0];
       Dir 0 [0; 0; 0; 0]; Dir 0 [0; 0; 0; 0]; Dir 0 [0; 0; 0; 0]; Dir 0 [0; 0; 0; 0]];
    (* origin  8 *) Entry 4
      [Dir 1 [1; 0; 0; 0]; Dir 3 [(-1); (-2); (-3); 0]; Dir 3 [5; 10; 15; 0]; Dir 1 [(-5); 0; 0; 0];
       Dir 0 [0; 0; 0; 0]; Dir 0 [0; 0; 0; 0]; Dir 0 [0; 0; 0; 0]; Dir 0 [0; 0; 0; 0]];
    (* origin  9 *) Entry 4
      [Dir 0 [0; 0; 0; 0]; Dir 4 [(-1); (-2); (-3); (-4)]; Dir 3 [5; 10; 15; 0]; Dir 1 [(-5); 0; 0; 0];
       Dir 0 [0; 0; 0; 0]; Dir 0 [0; 0; 0; 0]; Dir 0 [0; 0; 0; 0]; Dir 0 [0; 0; 0; 0]];
    (* origin 10 *) Entry 4
      [Dir 4 [1; 2; 3; 4]; Dir 0 [0; 0; 0; 0]; Dir 2 [5; 10; 0; 0]; Dir 2 [(-5); (-10); 0; 0];
       Dir 0 [0; 0; 0; 0]; Dir 0 [0; 0; 0; 0]; Dir 0 [0; 0; 0; 0]; Dir 0 [0; 0; 0; 0]];
    (* origin 11 *) Entry 4
      [Dir 3 [1; 2; 3; 0]; Dir 1 [(-1); 0; 0; 0]; Dir 2 [5; 10; 0; 0]; Dir 2 [(-5); (-10); 0; 0];
       Dir 0 [0; 0; 0; 0]; Dir 0 [0; 0; 0; 0]; Dir 0 [0; 0; 0; 0]; Dir 0 [0; 0; 0; 0]];
    (* origin 12 *) Entry 4
      [Dir 2 [1; 2; 0; 0]; Dir 2 [(-1); (-2); 0; 0]; Dir 2 [5; 10; 0; 0]; Dir 2 [(-5); (-10); 0; 0];
       Dir 0 [0; 0; 0; 0]; Dir 0 [0; 0; 0; 0]; Dir 0 [0; 0; 0; 0]; Dir 0 [0; 0; 0; 0]];
    (* origin 13 *) Entry 4
      [Dir 1 [1; 0; 0; 0]; Dir 3 [(-1); (-2); (-3); 0]; Dir 2 [5; 10; 0; 0]; Dir 2 [(-5); (-10); 0; 0];
       Dir 0 [0; 0; 0; 0]; Dir 0 [0; 0; 0; 0]; Dir 0 [0; 0; 0; 0]; Dir 0 [0; 0; 0; 0]];
    (* origin 14 *) Entry 4
      [Dir 0 [0; 0; 0; 0]; Dir 4 [(-1); (-2); (-3); (-4)]; Dir 2 [5; 10; 0; 0]; Dir 2 [(-5); (-10); 0; 0];
       Dir 0 [0; 0; 0; 0]; Dir 0 [0; 0; 0; 0]; Dir 0 [0; 0; 0; 0]; Dir 0 [0; 0; 0; 0]];
    (* origin 15 *) Entry 4
      [Dir 4 [1; 2; 3; 4]; Dir 0 [0; 0; 0; 0]; Dir 1 [5; 0; 0; 0]; Dir 3 [(-5); (-10); (-15); 0];
       Dir 0 [0; 0; 0; 0]; Dir 0 [0; 0; 0; 0]; Dir 0 [0; 0; 0; 0]; Dir 0 [0; 0; 0; 0]];
    (* origin 16 *) Entry 4
      [Dir 3 [1; 2; 3; 0]; Dir 1 [(-1); 0; 0; 0]; Dir 1 [5; 0; 0; 0]; Dir 3 [(-5); (-10); (-15); 0];
       Dir 0 [0; 0; 0; 0]; Dir 0 [0; 0; 0; 0]; Dir 0 [0; 0; 0; 0]; Dir 0 [0; 0; 0; 0]];
    (* origin 17 *) Entry 4
      [Dir 2 [1; 2; 0; 0]; Dir 2 [(-1); (-2); 0; 0]; Dir 1 [5; 0; 0; 0]; Dir 3 [(-5); (-10); (-15); 0];
       Dir 0 [0; 0; 0; 0]; Dir 0 [0; 0; 0; 0]; Dir 0 [0; 0; 0; 0]; Dir 0 [0; 0; 0; 0]];
    (* origin 18 *) Entry 4
      [Dir 1 [1; 0; 0; 0]; Dir 3 [(-1); (-2); (-3); 0]; Dir 1 [5; 0; 0; 0]; Dir 3 [(-5); (-10); (-15); 0];
       Dir 0 [0; 0; 0; 0]; Dir 0 [0; 0; 0; 0]; Dir 0 [0; 0; 0; 0]; Dir 0 [0; 0; 0; 0]];
    (* origin 19 *) Entry 4
      [Dir 0 [0; 0; 0; 0]; Dir 4 [(-1); (-2); (-3); (-4)]; Dir 1 [5; 0; 0; 0]; Dir 3 [(-5); (-10); (-15); 0];
       Dir 0 [0; 0; 0; 0]; Dir 0 [0; 0; 0; 0]; Dir 0 [0; 0; 0; 0]; Dir 0 [0; 0; 0; 0]];
    (* origin 20 *) Entry 4
      [Dir 4 [1; 2; 3; 4]; Dir 0 [0; 0; 0; 0]; Dir 0 [0; 0; 0; 0]; Dir 4 [(-5); (-10); (-15); (-20)];
       Dir 0 [0; 0; 0; 0]; Dir 0 [0; 0; 0; 0]; Dir 0 [0; 0; 0; 0]; Dir 0 [0; 0; 0; 0]];
    (* origin 21 *) Entry 4
      [Dir 3 [1; 2; 3; 0]; Dir 1 [(-1); 0; 0; 0]; Dir 0 [0; 0; 0; 0]; Dir 4 [(-5); (-10); (-15); (-20)];
       Dir 0 [0; 0; 0; 0]; Dir 0 [0; 0; 0; 0]; Dir 0 [0; 0; 0; 0]; Dir 0 [0; 0; 0; 0]];
    (* origin 22 *) Entry 4
      [Dir 2 [1; 2; 0; 0]; Dir 2 [(-1); (-2); 0; 0]; Dir 0 [0; 0; 0; 0]; Dir 4 [(-5); (-10); (-15); (-20)];
       Dir 0 [0; 0; 0; 0]; Dir 0 [0; 0; 0; 0]; Dir 0 [0; 0; 0; 0]; Dir 0 [0; 0; 0; 0]];
    (* origin 23 *) Entry 4
      [Dir 1 [1; 0; 0; 0]; Dir 3 [(-1); (-2); (-3); 0]; Dir 0 [0; 0; 0; 0]; Dir 4 [(-5); (-10); (-15); (-20)];
       Dir 0 [0; 0; 0; 0]; Dir 0 [0; 0; 0; 0]; Dir 0 [0; 0; 0; 0]; Dir 0 [0; 0; 0; 0]];
    (* origin 24 *) Entry 4
      [Dir 0 [0; 0; 0; 0]; Dir 4 [(-1); (-2); (-3); (-4)]; Dir 0 [0; 0; 0; 0]; Dir 4 [(-5); (-10); (-15); (-20)];
       Dir 0 [0; 0; 0; 0]; Dir 0 [0; 0; 0; 0]; Dir 0 [0; 0; 0; 0]; Dir 0 [0; 0; 0; 0]]
  ].

Definition kMoveTable_Black : list MoveTableEntry :=
  [
    (* origin  0 *) Entry 4
      [Dir 4 [6; 12; 18; 24]; Dir 0 [0; 0; 0; 0]; Dir 0 [0; 0; 0; 0]; Dir 0 [0; 0; 0; 0];
       Dir 0 [0; 0; 0; 0]; Dir 0 [0; 0; 0; 0]; Dir 0 [0; 0; 0; 0]; Dir 0 [0; 0; 0; 0]];
    (* origin  1 *) Entry 4
      [Dir 3 [6; 12; 18; 0]; Dir 0 [0; 0; 0; 0]; Dir 1 [4; 0; 0; 0]; Dir 0 [0; 0; 0; 0];
       Dir 0 [0; 0; 0; 0]; Dir 0 [0; 0; 0; 0]; Dir 0 [0; 0; 0; 0]; Dir 0 [0; 0; 0; 0]];
    (* origin  2 *) Entry 4
      [Dir 2 [6; 12; 0; 0]; Dir 0 [0; 0; 0; 0]; Dir 2 [4; 8; 0; 0]; Dir 0 [0; 0; 0; 0];
       Dir 0 [0; 0; 0; 0]; Dir 0 [0; 0; 0; 0]; Dir 0 [0; 0; 0; 0]; Dir 0 [0; 0; 0; 0]];
    (* origin  3 *) Entry 4
      [Dir 1 [6; 0; 0; 0]; Dir 0 [0; 0; 0; 0]; Dir 3 [4; 8; 12; 0]; Dir 0 [0; 0; 0; 0];
       Dir 0 [0; 0; 0; 0]; Dir 0 [0; 0; 0; 0]; Dir 0 [0; 0; 0; 0]; Dir 0 [0; 0; 0; 0]];
    (* origin  4 *) Entry 4
      [Dir 0 [0; 0; 0; 0]; Dir 0 [0; 0; 0; 0]; Dir 4 [4; 8; 12; 16]; Dir 0 [0; 0; 0; 0];
       Dir 0 [0; 0; 0; 0]; Dir 0 [0; 0; 0; 0]; Dir 0 [0; 0; 0; 0]; Dir 0 [0; 0; 0; 0]];
    (* origin  5 *) Entry 4
      [Dir 3 [6; 12; 18; 0]; Dir 1 [(-4); 0; 0; 0]; Dir 0 [0; 0; 0; 0]; Dir 0 [0; 0; 0; 0];
       Dir 0 [0; 0; 0; 0]; Dir 0 [0; 0; 0; 0]; Dir 0 [0; 0; 0; 0]; Dir 0 [0; 0; 0; 0]];
    (* origin  6 *) Entry 4
      [Dir 3 [6; 12; 18; 0]; Dir 1 [(-4); 0; 0; 0]; Dir 1 [4; 0; 0; 0]; Dir 1 [(-6); 0; 0; 0];
       Dir 0 [0; 0; 0; 0]; Dir 0 [0; 0; 0; 0]; Dir 0 [0; 0; 0; 0]; Dir 0 [0; 0; 0; 0]];
    (* origin  7 *) Entry 4
      [Dir 2 [6; 12; 0; 0]; Dir 1 [(-4); 0; 0; 0]; Dir 2 [4; 8; 0; 0]; Dir 1 [(-6); 0; 0; 0];
       Dir 0 [0; 0; 0; 0]; Dir 0 [0; 0; 0; 0]; Dir 0 [0; 0; 0; 0]; Dir 0 [0; 0; 0; 0]];
    (* origin  8 *) Entry 4
      [Dir 1 [6; 0; 0; 0]; Dir 1 [(-4); 0; 0; 0]; Dir 3 [4; 8; 12; 0]; Dir 1 [(-6); 0; 0; 0];
       Dir 0 [0; 0; 0; 0]; Dir 0 [0; 0; 0; 0]; Dir 0 [0; 0; 0; 0]; Dir 0 [0; 0; 0; 0]];
    (* origin  9 *) Entry 4
      [Dir 0 [0; 0; 0; 0]; Dir 0 [0; 0; 0; 0]; Dir 3 [4; 8; 12; 0]; Dir 1 [(-6); 0; 0; 0];
       Dir 0 [0; 0; 0; 0]; Dir 0 [0; 0; 0; 0]; Dir 0 [0; 0; 0; 0]; Dir 0 [0; 0; 0; 0]];
    (* origin 10 *) Entry 4
      [Dir 2 [6; 12; 0; 0]; Dir 2 [(-4); (-8); 0; 0]; Dir 0 [0; 0; 0; 0]; Dir 0 [0; 0; 0; 0];
       Dir 0 [0; 0; 0; 0]; Dir 0 [0; 0; 0; 0]; Dir 0 [0; 0; 0; 0]; Dir 0 [0; 0; 0; 0]];
    (* origin 11 *) Entry 4
      [Dir 2 [6; 12; 0; 0]; Dir 2 [(-4); (-8); 0; 0]; Dir 1 [4; 0; 0; 0]; Dir 1 [(-6); 0; 0; 0];
       Dir 0 [0; 0; 0; 0]; Dir 0 [0; 0; 0; 0]; Dir 0 [0; 0; 0; 0]; Dir 0 [0; 0; 0; 0]];
    (* origin 12 *) Entry 4
      [Dir 2 [6; 12; 0; 0]; Dir 2 [(-4); (-8); 0; 0]; Dir 2 [4; 8; 0; 0]; Dir 2 [(-6); (-12); 0; 0];
       Dir 0 [0; 0; 0; 0]; Dir 0 [0; 0; 0; 0]; Dir 0 [0; 0; 0; 0]; Dir 0 [0; 0; 0; 0]];
    (* origin 13 *) Entry 4
      [Dir 1 [6; 0; 0; 0]; Dir 1 [(-4); 0; 0; 0]; Dir 2 [4; 8; 0; 0]; Dir 2 [(-6); (-12); 0; 0];
       Dir 0 [0; 0; 0; 0]; Dir 0 [0; 0; 0; 0]; Dir 0 [0; 0; 0; 0]; Dir 0 [0; 0; 0; 0]];
    (* origin 14 *) Entry 4
      [Dir 0 [0; 0; 0; 0]; Dir 0 [0; 0; 0; 0]; Dir 2 [4; 8; 0; 0]; Dir 2 [(-6); (-12); 0; 0];
       Dir 0 [0; 0; 0; 0]; Dir 0 [0; 0; 0; 0]; Dir 0 [0; 0; 0; 0]; Dir 0 [0; 0; 0; 0]];
    (* origin 15 *) Entry 4
      [Dir 1 [6; 0; 0; 0]; Dir 3 [(-4); (-8); (-12); 0]; Dir 0 [0; 0; 0; 0]; Dir 0 [0; 0; 0; 0];
       Dir 0 [0; 0; 0; 0]; Dir 0 [0; 0; 0; 0]; Dir 0 [0; 0; 0; 0]; Dir 0 [0; 0; 0; 0]];
    (* origin 16 *) Entry 4
      [Dir 1 [6; 0; 0; 0]; Dir 3 [(-4); (-8); (-12); 0]; Dir 1 [4; 0; 0; 0]; Dir 1 [(-6); 0; 0; 0];
       Dir 0 [0; 0; 0; 0]; Dir 0 [0; 0; 0; 0]; Dir 0 [0; 0; 0; 0]; Dir 0 [0; 0; 0; 0]];
    (* origin 17 *) Entry 4
      [Dir 1 [6; 0; 0; 0]; Dir 2 [(-4); (-8); 0; 0]; Dir 1 [4; 0; 0; 0]; Dir 2 [(-6); (-12); 0; 0];
       Dir 0 [0; 0; 0; 0]; Dir 0 [0; 0; 0; 0]; Dir 0 [0; 0; 0; 0]; Dir 0 [0; 0; 0; 0]];
    (* origin 18 *) Entry 4
      [Dir 1 [6; 0; 0; 0]; Dir 1 [(-4); 0; 0; 0]; Dir 1 [4; 0; 0; 0]; Dir 3 [(-6); (-12); (-18); 0];
       Dir 0 [0; 0; 0; 0]; Dir 0 [0; 0; 0; 0]; Dir 0 [0; 0; 0; 0]; Dir 0 [0; 0; 0; 0]];
    (* origin 19 *) Entry 4
      [Dir 0 [0; 0; 0; 0]; Dir 0 [0; 0; 0; 0]; Dir 1 [4; 0; 0; 0]; Dir 3 [(-6); (-12); (-18); 0];
       Dir 0 [0; 0; 0; 0]; Dir 0 [0; 0; 0; 0]; Dir 0 [0; 0; 0; 0]; Dir 0 [0; 0; 0; 0]];
    (* origin 20 *) Entry 4
      [Dir 0 [0; 0; 0; 0]; Dir 4 [(-4); (-8); (-12); (-16)]; Dir 0 [0; 0; 0; 0]; Dir 0 [0; 0; 0; 0];
       Dir 0 [0; 0; 0; 0]; Dir 0 [0; 0; 0; 0]; Dir 0 [0; 0; 0; 0]; Dir 0 [0; 0; 0; 0]];
    (* origin 21 *) Entry 4
      [Dir 0 [0; 0; 0; 0]; Dir 3 [(-4); (-8); (-12); 0]; Dir 0 [0; 0; 0; 0]; Dir 1 [(-6); 0; 0; 0];
       Dir 0 [0; 0; 0; 0]; Dir 0 [0; 0; 0; 0]; Dir 0 [0; 0; 0; 0]; Dir 0 [0; 0; 0; 0]];
    (* origin 22 *) Entry 4
      [Dir 0 [0; 0; 0; 0]; Dir 2 [(-4); (-8); 0; 0]; Dir 0 [0; 0; 0; 0]; Dir 2 [(-6); (-12); 0; 0];
       Dir 0 [0; 0; 0; 0]; Dir 0 [0; 0; 0; 0]; Dir 0 [0; 0; 0; 0]; Dir 0 [0; 0; 0; 0]];
    (* origin 23 *) Entry 4
      [Dir 0 [0; 0; 0; 0]; Dir 1 [(-4); 0; 0; 0]; Dir 0 [0; 0; 0; 0]; Dir 3 [(-6); (-12); (-18); 0];
       Dir 0 [0; 0; 0; 0]; Dir 0 [0; 0; 0; 0]; Dir 0 [0; 0; 0; 0]; Dir 0 [0; 0; 0; 0]];
    (* origin 24 *) Entry 4
      [Dir 0 [0; 0; 0; 0]; Dir 0 [0; 0; 0; 0]; Dir 0 [0; 0; 0; 0]; Dir 4 [(-6); (-12); (-18); (-24)];
       Dir 0 [0; 0; 0; 0]; Dir 0 [0; 0; 0; 0]; Dir 0 [0; 0; 0; 0]; Dir 0 [0; 0; 0; 0]]
  ].

Definition kMoveTable_Gray : list MoveTableEntry :=
  [
    (* origin  0 *) Entry 8
      [Dir 4 [1; 2; 3; 4]; Dir 0 [0; 0; 0; 0]; Dir 4 [5; 10; 15; 20]; Dir 0 [0; 0; 0; 0];
       Dir 4 [6; 12; 18; 24]; Dir 0 [0; 0; 0; 0]; Dir 0 [0; 0; 0; 0]; Dir 0 [0; 0; 0; 0]];
    (* origin  1 *) Entry 8
      [Dir 3 [1; 2; 3; 0]; Dir 1 [(-1); 0; 0; 0]; Dir 4 [5; 10; 15; 20]; Dir 0 [0; 0; 0; 0];
       Dir 3 [6; 12; 18; 0]; Dir 0 [0; 0; 0; 0]; Dir 1 [4; 0; 0; 0]; Dir 0 [0; 0; 0; 0]];
    (* origin  2 *) Entry 8
      [Dir 2 [1; 2; 0; 0]; Dir 2 [(-1); (-2); 0; 0]; Dir 4 [5; 10; 15; 20]; Dir 0 [0; 0; 0; 0];
       Dir 2 [6; 12; 0; 0]; Dir 0 [0; 0; 0; 0]; Dir 2 [4; 8; 0; 0]; Dir 0 [0; 0; 0; 0]];
    (* origin  3 *) Entry 8
      [Dir 1 [1; 0; 0; 0]; Dir 3 [(-1); (-2); (-3); 0]; Dir 4 [5; 10; 15; 20]; Dir 0 [0; 0; 0; 0];
       Dir 1 [6; 0; 0; 0]; Dir 0 [0; 0; 0; 0]; Dir 3 [4; 8; 12; 0]; Dir 0 [0; 0; 0; 0]];
    (* origin  4 *) Entry 8
      [Dir 0 [0; 0; 0; 0]; Dir 4 [(-1); (-2); (-3); (-4)]; Dir 4 [5; 10; 15; 20]; Dir 0 [0; 0; 0; 0];
       Dir 0 [0; 0; 0; 0]; Dir 0 [0; 0; 0; 0]; Dir 4 [4; 8; 12; 16]; Dir 0 [0; 0; 0; 0]];
    (* origin  5 *) Entry 8
      [Dir 4 [1; 2; 3; 4]; Dir 0 [0; 0; 0; 0]; Dir 3 [5; 10; 15; 0]; Dir 1 [(-5); 0; 0; 0];
       Dir 3 [6; 12; 18; 0]; Dir 1 [(-4); 0; 0; 0]; Dir 0 [0; 0; 0; 0]; Dir 0 [0; 0; 0; 0]];
    (* origin  6 *) Entry 8
      [Dir 3 [1; 2; 3; 0]; Dir 1 [(-1); 0; 0; 0]; Dir 3 [5; 10; 15; 0]; Dir 1 [(-5); 0; 0; 0];
       Dir 3 [6; 12; 18; 0]; Dir 1 [(-4); 0; 0; 0]; Dir 1 [4; 0; 0; 0]; Dir 1 [(-6); 0; 0; 0]];
    (* origin  7 *) Entry 8
      [Dir 2 [1; 2; 0; 0]; Dir 2 [(-1); (-2); 0; 0]; Dir 3 [5; 10; 15; 0]; Dir 1 [(-5); 0; 0; 0];
       Dir 2 [6; 12; 0; 0]; Dir 1 [(-4); 0; 0; 0]; Dir 2 [4; 8; 0; 0]; Dir 1 [(-6); 0; 0; 0]];
    (* origin  8 *) Entry 8
      [Dir 1 [1; 0; 0; 0]; Dir 3 [(-1); (-2); (-3); 0]; Dir 3 [5; 10; 15; 0]; Dir 1 [(-5); 0; 0; 0];
       Dir 1 [6; 0; 0; 0]; Dir 1 [(-4); 0; 0; 0]; Dir 3 [4; 8; 12; 0]; Dir 1 [(-6); 0; 0; 0]];
    (* origin  9 *) Entry 8
      [Dir 0 [0; 0; 0; 0]; Dir 4 [(-1); (-2); (-3); (-4)]; Dir 3 [5; 10; 15; 0]; Dir 1 [(-5); 0; 0; 0];
       Dir 0 [0; 0; 0; 0]; Dir 0 [0; 0; 0; 0]; Dir 3 [4; 8; 12; 0]; Dir 1 [(-6); 0; 0; 0]];
    (* origin 10 *) Entry 8
      [Dir 4 [1; 2; 3; 4]; Dir 0 [0; 0; 0; 0]; Dir 2 [5; 10; 0; 0]; Dir 2 [(-5); (-10); 0; 0];
       Dir 2 [6; 12; 0; 0]; Dir 2 [(-4); (-8); 0; 0]; Dir 0 [0; 0; 0; 0]; Dir 0 [0; 0; 0; 0]];
    (* origin 11 *) Entry 8
      [Dir 3 [1; 2; 3; 0]; Dir 1 [(-1); 0; 0; 0]; Dir 2 [5; 10; 0; 0]; Dir 2 [(-5); (-10); 0; 0];
       Dir 2 [6; 12; 0; 0]; Dir 2 [(-4); (-8); 0; 0]; Dir 1 [4; 0; 0; 0]; Dir 1 [(-6); 0; 0; 0]];
    (* origin 12 *) Entry 8
      [Dir 2 [1; 2; 0; 0]; Dir 2 [(-1); (-2); 0; 0]; Dir 2 [5; 10; 0; 0]; Dir 2 [(-5); (-10); 0; 0];
       Dir 2 [6; 12; 0; 0]; Dir 2 [(-4); (-8); 0; 0]; Dir 2 [4; 8; 0; 0]; Dir 2 [(-6); (-12); 0; 0]];
    (* origin 13 *) Entry 8
      [Dir 1 [1; 0; 0; 0]; Dir 3 [(-1); (-2); (-3); 0]; Dir 2 [5; 10; 0; 0]; Dir 2 [(-5); (-10); 0; 0];
       Dir 1 [6; 0; 0; 0]; Dir 1 [(-4); 0; 0; 0]; Dir 2 [4; 8; 0; 0]; Dir 2 [(-6); (-12); 0; 0]];
    (* origin 14 *) Entry 8
      [Dir 0 [0; 0; 0; 0]; Dir 4 [(-1); (-2); (-3); (-4)]; Dir 2 [5; 10; 0; 0]; Dir 2 [(-5); (-10); 0; 0];
       Dir 0 [0; 0; 0; 0]; Dir 0 [0; 0; 0; 0]; Dir 2 [4; 8; 0; 0]; Dir 2 [(-6); (-12); 0; 0]];
    (* origin 15 *) Entry 8
      [Dir 4 [1; 2; 3; 4]; Dir 0 [0; 0; 0; 0]; Dir 1 [5; 0; 0; 0]; Dir 3 [(-5); (-10); (-15); 0];
       Dir 1 [6; 0; 0; 0]; Dir 3 [(-4); (-8); (-12); 0]; Dir 0 [0; 0; 0; 0]; Dir 0 [0; 0; 0; 0]];
    (* origin 16 *) Entry 8
      [Dir 3 [1; 2; 3; 0]; Dir 1 [(-1); 0; 0; 0]; Dir 1 [5; 0; 0; 0]; Dir 3 [(-5); (-10); (-15); 0];
       Dir 1 [6; 0; 0; 0]; Dir 3 [(-4); (-8); (-12); 0]; Dir 1 [4; 0; 0; 0]; Dir 1 [(-6); 0; 0; 0]];
    (* origin 17 *) Entry 8
      [Dir 2 [1; 2; 0; 0]; Dir 2 [(-1); (-2); 0; 0]; Dir 1 [5; 0; 0; 0]; Dir 3 [(-5); (-10); (-15); 0];
       Dir 1 [6; 0; 0; 0]; Dir 2 [(-4); (-8); 0; 0]; Dir 1 [4; 0; 0; 0]; Dir 2 [(-6); (-12); 0; 0]];
    (* origin 18 *) Entry 8
      [Dir 1 [1; 0; 0; 0]; Dir 3 [(-1); (-2); (-3); 0]; Dir 1 [5; 0; 0; 0]; Dir 3 [(-5); (-10); (-15); 0];
       Dir 1 [6; 0; 0; 0]; Dir 1 [(-4); 0; 0; 0]; Dir 1 [4; 0; 0; 0]; Dir 3 [(-6); (-12); (-18); 0]];
    (* origin 19 *) Entry 8
      [Dir 0 [0; 0; 0; 0]; Dir 4 [(-1); (-2); (-3); (-4)]; Dir 1 [5; 0; 0; 0]; Dir 3 [(-5); (-10); (-15); 0];
       Dir 0 [0; 0; 0; 0]; Dir 0 [0; 0; 0; 0]; Dir 1 [4; 0; 0; 0]; Dir 3 [(-6); (-12); (-18); 0]];
    (* origin 20 *) Entry 8
      [Dir 4 [1; 2; 3; 4]; Dir 0 [0; 0; 0; 0]; Dir 0 [0; 0; 0; 0]; Dir 4 [(-5); (-10); (-15); (-20)];
       Dir 0 [0; 0; 0; 0]; Dir 4 [(-4); (-8); (-12); (-16)]; Dir 0 [0; 0; 0; 0]; Dir 0 [0; 0; 0; 0]];
    (* origin 21 *) Entry 8
      [Dir 3 [1; 2; 3; 0]; Dir 1 [(-1); 0; 0; 0]; Dir 0 [0; 0; 0; 0]; Dir 4 [(-5); (-10); (-15); (-20)];
       Dir 0 [0; 0; 0; 0]; Dir 3 [(-4); (-8); (-12); 0]; Dir 0 [0; 0; 0; 0]; Dir 1 [(-6); 0; 0; 0]];
    (* origin 22 *) Entry 8
      [Dir 2 [1; 2; 0; 0]; Dir 2 [(-1); (-2); 0; 0]; Dir 0 [0; 0; 0; 0]; Dir 4 [(-5); (-10); (-15); (-20)];
       Dir 0 [0; 0; 0; 0]; Dir 2 [(-4); (-8); 0; 0]; Dir 0 [0; 0; 0; 0]; Dir 2 [(-6); (-12); 0; 0]];
    (* origin 23 *) Entry 8
      [Dir 1 [1; 0; 0; 0]; Dir 3 [(-1); (-2); (-3); 0]; Dir 0 [0; 0; 0; 0]; Dir 4 [(-5); (-10); (-15); (-20)];
       Dir 0 [0; 0; 0; 0]; Dir 1 [(-4); 0; 0; 0]; Dir 0 [0; 0; 0; 0]; Dir 3 [(-6); (-12); (-18); 0]];
    (* origin 24 *) Entry 8
      [Dir 0 [0; 0; 0; 0]; Dir 4 [(-1); (-2); (-3); (-4)]; Dir 0 [0; 0; 0; 0]; Dir 4 [(-5); (-10); (-15); (-20)];
       Dir 0 [0; 0; 0; 0]; Dir 0 [0; 0; 0; 0]; Dir 0 [0; 0; 0; 0]; Dir 4 [(-6); (-12); (-18); (-24)]]
  ].

(** [kMoveTable[kTileTypeCount][kBoardSize]] *)
Definition kMoveTable : list (list MoveTableEntry) :=
  [kMoveTable_None; kMoveTable_Black; kMoveTable_Gray].

Definition Dir_default : PrecomputedDirection := Dir 0 [0; 0; 0; 0].
Definition Entry_default : MoveTableEntry := Entry 0 (repeat Dir_default 8).

(** [kMoveTable[tile_index][origin_index]] *)
Definition kMoveTable_at (tile_index origin_index : Z) : MoveTableEntry :=
  nth (Z.to_nat origin_index) (nth (Z.to_nat tile_index) kMoveTable []) Entry_default.

(** The deltas a direction really lists: [rel_index[0 .. step_count-1]]. *)
Definition dir_steps (d : PrecomputedDirection) : list Z :=
  firstn (step_count d) (rel_index d).

(** The directions an entry really lists: [dirs[0 .. dir_count-1]]. *)
Definition entry_dirs (e : MoveTableEntry) : list PrecomputedDirection :=
  firstn (dir_count e) (dirs e).

(* ------------------------------------------------------------------------- *)
(** ** Rules engine (Rules::legal_moves, Rules::is_win, Rules::is_loss)       *)
(* ------------------------------------------------------------------------- *)

Module Rules.

(** [Move m; m.sx = x; m.sy = y; m.dx = tx; m.dy = ty; m.place_tile = false;] *)
Definition base_move (x y to_x to_y : Z) : Move :=
  mkMove x y to_x to_y false (tx Move_default) (ty Move_default) (tile_kind Move_default).

(** The cell the walk looks at for a delta: C++ [/] and [%] truncate. *)
Definition target_cell (b : Board) (origin_index rel : Z) : Cell :=
  let target_index := origin_index + rel in
  Board_at b (Z.rem target_index BOARD_W) (Z.quot target_index BOARD_W).

(** The inner loop [for (step = 0; step < dir.step_count; ++step)] over the
    remaining deltas, with the loop counter and the flag as arguments. *)
Fixpoint ray_walk (b : Board) (p : Player) (x y origin_index : Z)
         (rels : list Z) (step : nat) (encountered_friend : bool) : list Move :=
  match rels with
  | [] => []
  | rel :: rest =>
      let target_index := origin_index + rel in
      let ty := Z.quot target_index BOARD_W in
      let tx := Z.rem target_index BOARD_W in
      let cell := Board_at b tx ty in
      if Player_eqb (occupant cell) Player_None then
        if negb encountered_friend then
          if Nat.eqb step 0 then [base_move x y tx ty] else []
        else [base_move x y tx ty]
      else if Player_eqb (occupant cell) p then
        ray_walk b p x y origin_index rest (S step) true
      else []
  end.

(** One iteration of [for (dir_idx ...)]: directions without steps are skipped. *)
Definition walk_direction (b : Board) (p : Player) (x y origin_index : Z)
           (dir : PrecomputedDirection) : list Move :=
  if Nat.eqb (step_count dir) 0 then []
  else ray_walk b p x y origin_index (dir_steps dir) 0 false.

(** The body of the double loop over the board for one cell. *)
Definition moves_from (b : Board) (p : Player) (xy : Z * Z) : list Move :=
  let '(x, y) := xy in
  if negb (Player_eqb (occupant (Board_at b x y)) p) then []
  else
    let tile_index := TileType_to_int (tile (Board_at b x y)) in
    let origin_index := y * BOARD_W + x in
    let table_entry := kMoveTable_at tile_index origin_index in
    flat_map (walk_direction b p x y origin_index) (entry_dirs table_entry).

Definition base_moves (s : GameState) : list Move :=
  flat_map (moves_from (board s) (current_player s)) cells_xy.

(** [Move m = base; m.place_tile = true; m.tx = x; m.ty = y; m.tile = t;] *)
Definition with_tile (base : Move) (x y : Z) (t : TileType) : Move :=
  mkMove (sx base) (sy base) (dx base) (dy base) true x y t.

(** The scan of the board for one tile kind: the cells are tested on the
    board [b] of the state the moves are generated for. *)
Definition placements (b : Board) (base : Move) (t : TileType) : list Move :=
  flat_map (fun xy : Z * Z =>
              let '(x, y) := xy in
              if Player_eqb (occupant (Board_at b x y)) Player_None
                 && TileType_eqb (tile (Board_at b x y)) Tile_None
              then [with_tile base x y t] else [])
           cells_xy.

Definition expand (b : Board) (inv : TileInventory) (base : Move) : list Move :=
  base
  :: (if black inv >? 0 then placements b base Tile_Black else [])
  ++ (if gray inv >? 0 then placements b base Tile_Gray else []).

Definition legal_moves (s : GameState) : list Move :=
  flat_map (expand (board s) (inventory s (current_player s))) (base_moves s).

Definition is_win (s : GameState) (p : Player) : bool :=
  let target_row := if Player_eqb p Player_Black then BOARD_H - 1 else 0 in
  existsb (fun x => Player_eqb (occupant (Board_at (board s) x target_row)) p) coord_range.

Definition is_loss (s : GameState) (p : Player) : bool :=
  match legal_moves s with [] => true | _ => false end.

End Rules.

(* ------------------------------------------------------------------------- *)
(** ** Machine integers                                                       *)
(* ------------------------------------------------------------------------- *)

(** Two's-complement wrap of a value stored into a C++ [int] (32 bits) or a
    [long long] (64 bits). *)
Definition wrap_int32 (z : Z) : Z := (z + 2 ^ 31) mod 2 ^ 32 - 2 ^ 31.
Definition wrap_int64 (z : Z) : Z := (z + 2 ^ 63) mod 2 ^ 64 - 2 ^ 63.

Definition i32_add (a b : Z) : Z := wrap_int32 (a + b).
Definition i32_mul (a b : Z) : Z := wrap_int32 (a * b).
Definition i64_add (a b : Z) : Z := wrap_int64 (a + b).
Definition i64_mul (a b : Z) : Z := wrap_int64 (a * b).

(* ------------------------------------------------------------------------- *)
(** ** Symmetry (contrast/symmetry.hpp)                                       *)
(* ------------------------------------------------------------------------- *)

(** [NTuple::encode_cell] (the same body as [GameSession::encode_cell]). *)
Definition encode_cell (c : Cell) : Z :=
  let occ := Player_to_int (occupant c) in
  let tile := TileType_to_int (tile c) in
  occ * 3 + tile.

Module SymmetryOps.

Inductive Symmetry : Type := Identity | FlipH.

(** Modelled from the spec: symmetry.hpp is not part of the sources at hand.
    "The only symmetry the learner exploits is horizontal flip
    (x → W−1−x)"; the identity leaves the board as it is. *)
Definition transform_board (b : Board) (sym : Symmetry) : Board :=
  match sym with
  | Identity => b
  | FlipH => map (fun xy : Z * Z => let '(x, y) := xy in Board_at b (BOARD_W - 1 - x) y)
                 cells_xy
  end.

(** Modelled from the spec: the board "linearised as the sequence of cell
    codes occupant*3+tile". *)
Definition board_codes (b : Board) : list Z :=
  map (fun xy : Z * Z => let '(x, y) := xy in encode_cell (Board_at b x y)) cells_xy.

(** Modelled from the spec: "lexicographically smaller", as the strict
    lexicographic order on sequences of codes. *)
Fixpoint lex_ltb (l1 l2 : list Z) : bool :=
  match l1, l2 with
  | [], [] => false
  | [], _ :: _ => true
  | _ :: _, [] => false
  | a :: r1, c :: r2 => (a <? c) || ((a =? c) && lex_ltb r1 r2)
  end.

(** Modelled from the spec: [SymmetryOps::get_canonical_symmetry].
    "canonical(board) returns the lexicographically smaller of the two
    possible boards under {identity, flip} ... Tie-breaking chooses
    identity." *)
Definition get_canonical_symmetry (b : Board) : Symmetry :=
  if lex_ltb (board_codes (transform_board b FlipH)) (board_codes b)
  then FlipH else Identity.

(** Modelled from the spec: "canonical(board)", the board transformed by
    its canonical symmetry, as [evaluate] computes it. *)
Definition canonical (b : Board) : Board :=
  transform_board b (get_canonical_symmetry b).

End SymmetryOps.

(* ------------------------------------------------------------------------- *)
(** ** N-tuple patterns (NTuple in engine/src/ntuple.cpp)                     *)
(* ------------------------------------------------------------------------- *)

Record NTuple : Type := mkNTuple {
  num_cells : nat;
  cell_indices : list Z
}.

Module NTupleOps.

(** [NTuple::encode_tile_inventory], computed in [int]. *)
Definition encode_tile_inventory (black_tiles gray_tiles : Z) : Z :=
  i32_add black_tiles (i32_mul gray_tiles 4).

(** One iteration of the loop over the cells of the pattern. *)
Definition index_step (b : Board) (offset_x offset_y : Z) (idx cell_idx : Z) : Z :=
  let base := 9 in
  let dx := Z.rem cell_idx 5 in
  let dy := Z.quot cell_idx 5 in
  let x := i32_add offset_x dx in
  let y := i32_add offset_y dy in
  if (x <? 0) || (x >=? BOARD_W) || (y <? 0) || (y >=? BOARD_H)
  then i64_add (i64_mul idx base) 0
  else i64_add (i64_mul idx base) (encode_cell (Board_at b x y)).

(** [NTuple::to_index]: a [long long]. *)
Definition to_index (t : NTuple) (state : GameState) (offset_x offset_y : Z) : Z :=
  let b := board state in
  let idx := fold_left (index_step b offset_x offset_y)
                       (firstn (num_cells t) (cell_indices t)) 0 in
  let black_inv := inventory state Player_Black in
  let white_inv := inventory state Player_White in
  let black_tile_idx := encode_tile_inventory (black black_inv) (gray black_inv) in
  let white_tile_idx := encode_tile_inventory (black white_inv) (gray white_inv) in
  i64_add (i64_mul idx 64) (i32_add (i32_mul black_tile_idx 8) white_tile_idx).

(** [NTuple::num_states] *)
Definition num_states (t : NTuple) : Z :=
  i64_mul (fold_left (fun result _ => i64_mul result 9) (seq 0 (num_cells t)) 1) 64.

End NTupleOps.

(** The catalogue compiled into [NTupleNetwork::init_tuples]. *)
Definition base_patterns : list (list Z) :=
  [ [0; 1; 2; 3; 4; 5; 6; 7; 8];
    [5; 6; 7; 8; 9; 10; 11; 12; 13];
    [10; 11; 12; 13; 14; 15; 16; 17; 18];
    [15; 16; 17; 18; 19; 20; 21; 22; 23];
    [0; 1; 2; 5; 6; 7; 10; 11; 12];
    [1; 2; 3; 6; 7; 8; 11; 12; 13];
    [5; 6; 7; 10; 11; 12; 15; 16; 17];
    [6; 7; 8; 11; 12; 13; 16; 17; 18];
    [10; 11; 12; 15; 16; 17; 20; 21; 22];
    [11; 12; 13; 16; 17; 18; 21; 22; 23];
    [0; 1; 2; 3; 4; 5; 10; 15; 20];
    [0; 1; 2; 3; 4; 7; 12; 17; 22] ].

(** [init_tuples]: every base pattern is copied cell by cell. *)
Definition init_tuples : list NTuple :=
  map (fun base => mkNTuple (length base) base) base_patterns.

(* ------------------------------------------------------------------------- *)
(** ** Floating point                                                         *)
(* ------------------------------------------------------------------------- *)

(** The [float] operations the evaluator uses. *)
Class FloatOps (F : Type) : Type := {
  f_zero : F;                 (* 0.0f *)
  f_half : F;                 (* 0.5f *)
  f_add : F -> F -> F;
  f_sub : F -> F -> F;
  f_mul : F -> F -> F;
  f_div : F -> F -> F;
  f_neg : F -> F;
  f_of_size : Z -> F          (* conversion of a size_t operand to float *)
}.

(** IEEE 754 binary32: 24 bits of precision, emax = 128, every operation
    rounded to nearest even. *)
Definition b32_prec : Z := 24.
Definition b32_emax : Z := 128.

#[export] Instance binary32_ops : FloatOps spec_float := {
  f_zero := S754_zero false;
  f_half := S754_finite false 8388608 (-24);
  f_add := SFadd b32_prec b32_emax;
  f_sub := SFsub b32_prec b32_emax;
  f_mul := SFmul b32_prec b32_emax;
  f_div := SFdiv b32_prec b32_emax;
  f_neg := SFopp;
  f_of_size := fun z => binary_normalize b32_prec b32_emax z 0 false
}.

(** binary32 literals that appear in the tests and in the spec's scenario. *)
Definition b32_one : spec_float := S754_finite false 8388608 (-23).        (* 1.0f *)
Definition b32_minus_one : spec_float := S754_finite true 8388608 (-23).   (* -1.0f *)
Definition b32_tenth : spec_float := S754_finite false 13421773 (-27).     (* 0.1f *)
Definition b32_three : spec_float := S754_finite false 12582912 (-22).     (* 3.0f *)

(* ------------------------------------------------------------------------- *)
(** ** N-tuple network (NTupleNetwork in engine/src/ntuple.cpp)               *)
(* ------------------------------------------------------------------------- *)

Section Network.

Context {F : Type} {ops : FloatOps F}.

(** [std::vector<float>]: a size and the elements below it.  The tables have
    9^9 * 64 entries, so the elements are kept as a function. *)
Record FloatVec : Type := mkVec { fv_size : Z; fv_get : Z -> F }.

(** [v.resize(n, x)] on an empty vector *)
Definition vec_fill (n : Z) (x : F) : FloatVec := mkVec n (fun _ => x).

(** [w.resize(size); read(w.data(), size)] with the floats read from the file *)
Definition vec_of_list (l : list F) : FloatVec :=
  mkVec (Z.of_nat (length l)) (fun i => nth (Z.to_nat i) l f_zero).

(** [v[idx]] with [int idx]: the index is converted to [size_t], so a
    negative one is far beyond the size.  An access outside the vector has
    no defined behaviour: [None]. *)
Definition vec_at (v : FloatVec) (idx : Z) : option F :=
  if (0 <=? idx) && (idx <? fv_size v) then Some (fv_get v idx) else None.

Definition vec_set (v : FloatVec) (idx : Z) (x : F) : FloatVec :=
  mkVec (fv_size v) (fun i => if i =? idx then x else fv_get v i).

Record NTupleNetwork : Type := mkNet {
  tuples_ : list NTuple;
  weights_ : list FloatVec
}.

(** [NTupleNetwork::NTupleNetwork()] *)
Definition NTupleNetwork_new : NTupleNetwork :=
  let tuples := init_tuples in
  let initial_weight := f_div f_half (f_of_size (Z.of_nat (length tuples))) in
  mkNet tuples (map (fun t => vec_fill (NTupleOps.num_states t) initial_weight) tuples).

(** The index as the network uses it: [int idx = tuple.to_index(state, 0, 0)]. *)
Definition feature_index (t : NTuple) (canonical_state : GameState) : Z :=
  wrap_int32 (NTupleOps.to_index t canonical_state 0 0).

(** The loop [for (i = 0; i < tuples_.size(); ++i) value += weights_[i][idx]]. *)
Fixpoint sum_weights (ts : list NTuple) (ws : list FloatVec)
         (canonical_state : GameState) (value : F) : option F :=
  match ts with
  | [] => Some value
  | t :: ts' =>
      match ws with
      | [] => None
      | w :: ws' =>
          match vec_at w (feature_index t canonical_state) with
          | None => None
          | Some x => sum_weights ts' ws' canonical_state (f_add value x)
          end
      end
  end.

Definition canonical_state_of (state : GameState) : GameState :=
  let b := board state in
  let canonical_sym := SymmetryOps.get_canonical_symmetry b in
  let canonical_board := SymmetryOps.transform_board b canonical_sym in
  set_board state canonical_board.

(** [NTupleNetwork::evaluate] *)
Definition evaluate (net : NTupleNetwork) (state : GameState) : option F :=
  let canonical_state := canonical_state_of state in
  match sum_weights (tuples_ net) (weights_ net) canonical_state f_zero with
  | None => None
  | Some value =>
      if Player_eqb (current_player state) Player_White
      then Some (f_neg value) else Some value
  end.

(** The loop [weights_[i][idx] += normalized_lr * error]. *)
Fixpoint update_weights (ts : list NTuple) (ws : list FloatVec)
         (canonical_state : GameState) (delta : F) : option (list FloatVec) :=
  match ts with
  | [] => Some ws
  | t :: ts' =>
      match ws with
      | [] => None
      | w :: ws' =>
          let idx := feature_index t canonical_state in
          match vec_at w idx, update_weights ts' ws' canonical_state delta with
          | Some x, Some rest => Some (vec_set w idx (f_add x delta) :: rest)
          | _, _ => None
          end
      end
  end.

(** [NTupleNetwork::td_update] *)
Definition td_update (net : NTupleNetwork) (state : GameState)
           (target learning_rate : F) : option NTupleNetwork :=
  let canonical_state := canonical_state_of state in
  match sum_weights (tuples_ net) (weights_ net) canonical_state f_zero with
  | None => None
  | Some raw_value =>
      let white := Player_eqb (current_player state) Player_White in
      let current_value := if white then f_neg raw_value else raw_value in
      let error := f_sub target current_value in
      let error := if white then f_neg error else error in
      let normalized_lr :=
        f_div learning_rate (f_of_size (Z.of_nat (length (tuples_ net)))) in
      match update_weights (tuples_ net) (weights_ net) canonical_state
                           (f_mul normalized_lr error) with
      | None => None
      | Some ws => Some (mkNet (tuples_ net) ws)
      end
  end.

(** *** Persistence *)

(** What [std::ifstream] finds under the file name. *)
Inductive WeightFile : Type :=
| file_missing                      (* the stream cannot be opened *)
| file_short                        (* fewer bytes than one size_t *)
| file_data (num_tuples : Z) (tables : list (list F)).
                                    (* u64 count, then per table u64 length
                                       and that many floats *)

(** How a call of [load] ends.  The body has no [throw]; an exception can
    only come out of [w.resize(size)] when the stored length exceeds
    [max_size()].  Reading past the end of the file leaves [size]
    uninitialised: no defined behaviour. *)
Inductive LoadOutcome : Type :=
| load_returned (net : NTupleNetwork)
| load_threw (net : NTupleNetwork)
| load_undefined.

Variable vector_max_size : Z.

(** The loop [for (auto& w : weights_)] over the tables still in the file;
    [done] holds the tables already replaced, in reverse. *)
Fixpoint load_tables (tuples : list NTuple) (done : list FloatVec)
         (ws : list FloatVec) (tables : list (list F)) : LoadOutcome :=
  match ws with
  | [] => load_returned (mkNet tuples (rev done))
  | w :: ws' =>
      match tables with
      | [] => load_undefined
      | t :: tables' =>
          if Z.of_nat (length t) >? vector_max_size
          then load_threw (mkNet tuples (rev done ++ w :: ws'))
          else load_tables tuples (vec_of_list t :: done) ws' tables'
      end
  end.

(** [NTupleNetwork::load] *)
Definition load (file : WeightFile) (net : NTupleNetwork) : LoadOutcome :=
  match file with
  | file_missing => load_returned net
  | file_short => load_undefined
  | file_data num_tuples tables =>
      if negb (num_tuples =? Z.of_nat (length (tuples_ net)))
      then load_returned net                                   (* Mismatch *)
      else load_tables (tuples_ net) [] (weights_ net) tables
  end.

(** [NTuplePolicy::load]: [try { network_.load(filename); return true; }
    catch (const std::exception&) { ...; return false; }] *)
Definition NTuplePolicy_load (file : WeightFile) (net : NTupleNetwork)
  : option (bool * NTupleNetwork) :=
  match load file net with
  | load_returned net' => Some (true, net')
  | load_threw net' => Some (false, net')
  | load_undefined => None
  end.

End Network.

Arguments FloatVec F : clear implicits.
Arguments NTupleNetwork F : clear implicits.
Arguments WeightFile F : clear implicits.
Arguments LoadOutcome F : clear implicits.

(* ------------------------------------------------------------------------- *)
(** ** 29-element state array (apps/web_server/game_session.cpp)              *)
(* ------------------------------------------------------------------------- *)

Module GameSession.

(** [GameSession::encode_cell] *)
Definition encode_cell (cell : Cell) : Z :=
  let occ := Player_to_int (occupant cell) in
  let tile := TileType_to_int (tile cell) in
  occ * 3 + tile.

(** [GameSession::decode_cell]: [None] is the [return false]. *)
Definition decode_cell (value : Z) : option Cell :=
  if (value <? 0) || (value >? 8) then None
  else
    let occ := Z.quot value 3 in
    let tile := Z.rem value 3 in
    Some (mkCell (Player_of_int occ) (TileType_of_int tile)).

(** The cell a code in 0..8 decodes to. *)
Definition cell_of_code (v : Z) : Cell :=
  mkCell (Player_of_int (Z.quot v 3)) (TileType_of_int (Z.rem v 3)).

(** [GameSession::board_to_array] *)
Definition board_to_array (state : GameState) : list Z :=
  let array := map (fun xy : Z * Z =>
                      let '(x, y) := xy in encode_cell (Board_at (board state) x y))
                   cells_xy in
  let black_inv := inventory state Player_Black in
  let white_inv := inventory state Player_White in
  array ++ [black black_inv; gray black_inv; black white_inv; gray white_inv].

(** What [err_msg] is set to (the text is built from these numbers). *)
Inductive ErrMsg : Type :=
| err_array_size
| err_invalid_cell (i : nat) (v : Z)
| err_invalid_inventory (i : nat) (v : Z)
| err_decode_failed (idx : nat).

Inductive DecodeResult : Type := decode_ok | decode_rejected (msg : ErrMsg).

(** [array[i]] of a [std::vector<int>] *)
Definition array_get (array : list Z) (i : nat) : Z := nth i array 0.

(** The validation loop [for (i = 0; i < 25; ++i)]: the first bad cell. *)
Fixpoint first_invalid_cell (array : list Z) (i : nat) (n : nat) : option ErrMsg :=
  match n with
  | O => None
  | S n' =>
      let v := array_get array i in
      if (v <? 0) || (v >? 8) then Some (err_invalid_cell i v)
      else first_invalid_cell array (S i) n'
  end.

Definition check_inventory (array : list Z) (i : nat) (hi : Z) : option ErrMsg :=
  let v := array_get array i in
  if (v <? 0) || (v >? hi) then Some (err_invalid_inventory i v) else None.

(** The loop that writes the cells; it stops at a cell that does not decode
    and leaves what it has written so far. *)
Fixpoint apply_cells (array : list Z) (b : Board) (cells : list (Z * Z)) (idx : nat)
  : Board * option ErrMsg :=
  match cells with
  | [] => (b, None)
  | (x, y) :: rest =>
      match decode_cell (array_get array idx) with
      | None => (b, Some (err_decode_failed idx))
      | Some cell => apply_cells array (Board_set b x y cell) rest (S idx)
      end
  end.

(** [GameSession::array_to_board]: the result and the session's state after
    the call. *)
Definition array_to_board (array : list Z) (state : GameState)
  : DecodeResult * GameState :=
  if negb (Nat.eqb (length array) 29) then (decode_rejected err_array_size, state)
  else
    match first_invalid_cell array 0 25 with
    | Some e => (decode_rejected e, state)
    | None =>
    match check_inventory array 25 3 with
    | Some e => (decode_rejected e, state)
    | None =>
    match check_inventory array 26 1 with
    | Some e => (decode_rejected e, state)
    | None =>
    match check_inventory array 27 3 with
    | Some e => (decode_rejected e, state)
    | None =>
    match check_inventory array 28 1 with
    | Some e => (decode_rejected e, state)
    | None =>
        match apply_cells array (board state) cells_xy 0 with
        | (b, Some e) => (decode_rejected e, set_board state b)
        | (b, None) =>
            (decode_ok,
             mkState b (to_move_ state)
                     (mkInv (array_get array 25) (array_get array 26))
                     (mkInv (array_get array 27) (array_get array 28)))
        end
    end end end end end.

(** The arrays the decoder is specified to accept. *)
Definition valid_array (a : list Z) : Prop :=
  length a = 29%nat
  /\ (forall i, (i < 25)%nat -> 0 <= nth i a 0 <= 8)
  /\ 0 <= nth 25 a 0 <= 3
  /\ 0 <= nth 26 a 0 <= 1
  /\ 0 <= nth 27 a 0 <= 3
  /\ 0 <= nth 28 a 0 <= 1.

End GameSession.

(* ------------------------------------------------------------------------- *)
(** ** Self-play trainer (apps/train_ntuple/train_selfplay.cpp)               *)
(* ------------------------------------------------------------------------- *)

Module SelfPlay.

(** [worker_thread]: "Determine starting player by game parity".
    [game_num] is the value [games_completed.fetch_add(1)] returned. *)
Definition start_player_of (game_num : Z) : Player :=
  let game_no := i32_add game_num 1 in
  if Z.rem game_no 2 =? 1 then Player_White else Player_Black.

(** [play_selfplay_game_shared]: [state.reset(); state.to_move_ = start_player;]
    is the state the loop records first ([MAX_MOVES] is 500, so the loop body
    runs at least once). *)
Definition first_recorded_state (start_player : Player) : GameState :=
  set_to_move reset start_player.

(** A game a worker has started: its 1-based number and the first state of
    its trajectory. *)
Record StartedGame : Type := mkStarted { game_no : Z; first_state : GameState }.

(** The state the workers share: the atomic counter, the number of workers
    still in their loop and, as a ghost log, the games started so far in the
    order they were claimed. *)
Record Shared : Type := mkShared {
  games_completed : Z;
  running : nat;
  started : list StartedGame
}.

Definition shared_init (workers : nat) : Shared := mkShared 0 workers [].

(** One pass of a running worker through [while (true)], from the
    [fetch_add] to the start of the game.  The counter is bumped even when
    the worker finds no game left and leaves the loop. *)
Definition worker_claim (target_games : Z) (sh : Shared) : option Shared :=
  match running sh with
  | O => None
  | S others =>
      let game_num := games_completed sh in
      let counter := i32_add game_num 1 in
      if game_num >=? target_games then Some (mkShared counter others (started sh))
      else
        let game_no := i32_add game_num 1 in
        let start_player := start_player_of game_num in
        Some (mkShared counter (running sh)
                       (started sh ++ [mkStarted game_no (first_recorded_state start_player)]))
  end.

(** The counter is atomic, so whatever the interleaving of the workers, the
    shared state moves by one claim at a time. *)
Inductive reachable (target_games : Z) (workers : nat) : Shared -> Prop :=
| reach_init : reachable target_games workers (shared_init workers)
| reach_claim : forall sh sh',
    reachable target_games workers sh ->
    worker_claim target_games sh = Some sh' ->
    reachable target_games workers sh'.

(** "Odd games start with White, even with Black." *)
Definition parity_player (game_no : Z) : Player :=
  if Z.odd game_no then Player_White else Player_Black.

(** What every reachable shared state satisfies. *)
Definition claims_invariant (target_games : Z) (workers : nat) (sh : Shared) : Prop :=
  0 <= games_completed sh
  /\ games_completed sh + Z.of_nat (running sh)
     = Z.of_nat (length (started sh)) + Z.of_nat workers
  /\ Z.of_nat (length (started sh)) = Z.min (games_completed sh) target_games
  /\ map game_no (started sh) = map Z.of_nat (seq 1 (length (started sh)))
  /\ Forall (fun g => first_state g = first_recorded_state (parity_player (game_no g)))
            (started sh).

End SelfPlay.

(* ------------------------------------------------------------------------- *)
(** ** Parallel trainer ([play_training_game], [worker_thread])               *)
(* ------------------------------------------------------------------------- *)

(** The older parallel trainer: the learner is Black and the opponent White
    in every game.  [play_training_game] takes no starting player and no
    game number. *)
Module ParallelTrainer.

(** [GameState state; state.reset();] is the state the loop records first
    ([MAX_MOVES] is 500, so the loop body runs at least once). *)
Definition first_recorded_state : GameState := reset.

(** The game a worker plays after [fetch_add] returned [game_num]: the call
    of [play_training_game] does not pass [game_num] on. *)
Definition game_start (game_num : Z) : GameState := first_recorded_state.

(** A game a worker has started: the value [game_num] the worker got from
    the counter and the first state of the game's trajectory. *)
Record StartedGame : Type := mkStarted { game_num : Z; first_state : GameState }.

(** The state the workers share: the atomic counter, the number of workers
    still in their loop and, as a ghost log, the games started so far in the
    order they were claimed. *)
Record Shared : Type := mkShared {
  games_completed : Z;
  running : nat;
  started : list StartedGame
}.

Definition shared_init (workers : nat) : Shared := mkShared 0 workers [].

(** One pass of a running worker through [while (true)], from the
    [fetch_add] to the start of the game.  The counter is bumped even when
    the worker finds no game left and leaves the loop. *)
Definition worker_claim (target_games : Z) (sh : Shared) : option Shared :=
  match running sh with
  | O => None
  | S others =>
      let game_num := games_completed sh in
      let counter := i32_add game_num 1 in
      if game_num >=? target_games then Some (mkShared counter others (started sh))
      else
        Some (mkShared counter (running sh)
                       (started sh ++ [mkStarted game_num (game_start game_num)]))
  end.

(** The counter is atomic, so whatever the interleaving of the workers, the
    shared state moves by one claim at a time. *)
Inductive reachable (target_games : Z) (workers : nat) : Shared -> Prop :=
| reach_init : reachable target_games workers (shared_init workers)
| reach_claim : forall sh sh',
    reachable target_games workers sh ->
    worker_claim target_games sh = Some sh' ->
    reachable target_games workers sh'.

(** What every reachable shared state satisfies. *)
Definition claims_invariant (target_games : Z) (workers : nat) (sh : Shared) : Prop :=
  0 <= games_completed sh
  /\ games_completed sh + Z.of_nat (running sh)
     = Z.of_nat (length (started sh)) + Z.of_nat workers
  /\ Z.of_nat (length (started sh)) = Z.min (games_completed sh) target_games
  /\ map game_num (started sh) = map Z.of_nat (seq 0 (length (started sh)))
  /\ Forall (fun g => first_state g = reset) (started sh).

End ParallelTrainer.

(* ------------------------------------------------------------------------- *)
(** ** Vocabulary of the specification                                        *)
(* ------------------------------------------------------------------------- *)

Definition is_empty (c : Cell) : Prop := occupant c = Player_None.

(** A piece of player [p] (an empty cell is nobody's piece). *)
Definition is_own (p : Player) (c : Cell) : Prop :=
  occupant c = p /\ occupant c <> Player_None.

Definition is_opponent (p : Player) (c : Cell) : Prop :=
  occupant c <> Player_None /\ occupant c <> p.

(** The cell a ray reaches with the delta [rel] holds a piece of [p]. *)
Definition own_at (b : Board) (p : Player) (origin_index rel : Z) : Prop :=
  is_own p (Rules.target_cell b origin_index rel).

(** The mover's stock of the tile kind a move places. *)
Definition inventory_count (inv : TileInventory) (t : TileType) : Z :=
  match t with Tile_Black => black inv | Tile_Gray => gray inv | Tile_None => 0 end.

Definition Move_eqb (m n : Move) : bool :=
  (sx m =? sx n) && (sy m =? sy n) && (dx m =? dx n) && (dy m =? dy n)
  && Bool.eqb (place_tile m) (place_tile n)
  && (tx m =? tx n) && (ty m =? ty n) && TileType_eqb (tile_kind m) (tile_kind n).

(** The base move a walk emits for the delta [rel]. *)
Definition landing (x y origin_index rel : Z) : Move :=
  Rules.base_move x y (Z.rem (origin_index + rel) BOARD_W)
                      (Z.quot (origin_index + rel) BOARD_W).

(** [m] is the base move from (x,y) to the cell the ray reaches with the
    delta [rel], field by field: source, destination, no tile placement, and
    the placement fields as a default-constructed move has them. *)
Definition moves_to (m : Move) (x y origin_index rel : Z) : Prop :=
  sx m = x /\ sy m = y
  /\ dx m = Z.rem (origin_index + rel) BOARD_W
  /\ dy m = Z.quot (origin_index + rel) BOARD_W
  /\ place_tile m = false
  /\ tx m = tx Move_default /\ ty m = ty Move_default
  /\ tile_kind m = tile_kind Move_default.

(** *** Geometry of a ray, in the words of the specification *)

Definition orthogonal_directions : list (Z * Z) := [(1, 0); (-1, 0); (0, 1); (0, -1)].
Definition diagonal_directions : list (Z * Z) := [(1, 1); (1, -1); (-1, 1); (-1, -1)].

(** "None → 4 orthogonal, Black → 4 diagonal, Gray → 8" *)
Definition tile_directions (t : TileType) : list (Z * Z) :=
  match t with
  | Tile_None => orthogonal_directions
  | Tile_Black => diagonal_directions
  | Tile_Gray => orthogonal_directions ++ diagonal_directions
  end.

Definition on_board (x y : Z) : Prop := 0 <= x < BOARD_W /\ 0 <= y < BOARD_H.

Definition on_boardb (x y : Z) : bool :=
  (0 <=? x) && (x <? BOARD_W) && (0 <=? y) && (y <? BOARD_H).

(** [steps] are the deltas of the cells at steps 1, 2, 3, ... from [origin]
    along the direction [d], each of them on the board, and the next step
    would leave it. *)
Definition ray_spec (origin : Z) (d : Z * Z) (steps : list Z) : Prop :=
  let ox := origin mod BOARD_W in
  let oy := origin / BOARD_W in
  (forall k rel, nth_error steps k = Some rel ->
     let x := ox + (Z.of_nat k + 1) * fst d in
     let y := oy + (Z.of_nat k + 1) * snd d in
     on_board x y /\ origin + rel = y * BOARD_W + x)
  /\ ~ on_board (ox + (Z.of_nat (length steps) + 1) * fst d)
                (oy + (Z.of_nat (length steps) + 1) * snd d).

(** The same, as a test that can be run over the whole table. *)
Fixpoint ray_stepsb (origin : Z) (d : Z * Z) (k : nat) (steps : list Z) : bool :=
  let ox := origin mod BOARD_W in
  let oy := origin / BOARD_W in
  let x := ox + (Z.of_nat k + 1) * fst d in
  let y := oy + (Z.of_nat k + 1) * snd d in
  match steps with
  | [] => negb (on_boardb x y)
  | rel :: rest =>
      on_boardb x y && (origin + rel =? y * BOARD_W + x) && ray_stepsb origin d (S k) rest
  end.

Fixpoint rays_okb (origin : Z) (ds : list (Z * Z)) (steps : list (list Z)) : bool :=
  match ds, steps with
  | [], [] => true
  | d :: ds', s :: steps' => ray_stepsb origin d 0 s && rays_okb origin ds' steps'
  | _, _ => false
  end.

Definition entry_okb (t : TileType) (origin : Z) : bool :=
  let e := kMoveTable_at (TileType_to_int t) origin in
  Nat.eqb (dir_count e) (length (tile_directions t))
  && rays_okb origin (tile_directions t) (map dir_steps (entry_dirs e)).

(** *** The pattern index and the evaluation, in the words of the specification *)

Module Spec.

(** "Accumulate idx := idx*9 + c" over the cells of the pattern. *)
Definition board_idx (t : NTuple) (state : GameState) : Z :=
  fold_left (fun idx cell_idx =>
               idx * 9 + encode_cell (Board_at (board state) (cell_idx mod 5) (cell_idx / 5)))
            (cell_indices t) 0.

(** "T := 8*black_side_index + white_side_index" with each inventory encoded
    as "black_count + 4*gray_count". *)
Definition tile_idx (state : GameState) : Z :=
  8 * (black (inv_black state) + 4 * gray (inv_black state))
  + (black (inv_white state) + 4 * gray (inv_white state)).

(** "final_idx := idx*64 + T" *)
Definition final_idx (t : NTuple) (state : GameState) : Z :=
  board_idx t state * 64 + tile_idx state.

Section SpecEvaluate.
Context {F : Type} {ops : FloatOps F}.

(** "For each pattern, compute its index and sum the weight." *)
Fixpoint sum_weights (ts : list NTuple) (ws : list (FloatVec F))
         (canonical_state : GameState) (value : F) : option F :=
  match ts, ws with
  | [], _ => Some value
  | _ :: _, [] => None
  | t :: ts', w :: ws' =>
      match vec_at w (final_idx t canonical_state) with
      | None => None
      | Some x => sum_weights ts' ws' canonical_state (f_add value x)
      end
  end.

(** "If state.to_move == White, negate the sum." *)
Definition evaluate (net : NTupleNetwork F) (state : GameState) : option F :=
  match sum_weights (tuples_ net) (weights_ net) (canonical_state_of state) f_zero with
  | None => None
  | Some value =>
      if Player_eqb (current_player state) Player_White
      then Some (f_neg value) else Some value
  end.

End SpecEvaluate.
End Spec.

(** The inventories of the data model: "(black:0..3, gray:0..1)". *)
Definition inventory_in_range (inv : TileInventory) : Prop :=
  0 <= black inv <= 3 /\ 0 <= gray inv <= 1.

(** *** Boards used in the scenarios *)

(** A cleared board with the given cells put on it. *)
Definition board_with (cells : list (Z * Z * Cell)) : Board :=
  fold_left (fun b (e : Z * Z * Cell) => let '(x, y, c) := e in Board_set b x y c)
            cells (repeat empty_cell 25).

(** Black on (2,2) and on (2,3), nothing else (the jump scenario). *)
Definition jump_state : GameState :=
  mkState (board_with [(2, 2, mkCell Player_Black Tile_None);
                       (2, 3, mkCell Player_Black Tile_None)])
          Player_Black (mkInv 3 1) (mkInv 3 1).

(** The initial board with a Black tile on (1,2). *)
Definition tilted_board : Board := Board_set initial_board 1 2 (mkCell Player_None Tile_Black).

(** The position after Black's first move (0,0)->(0,1) without a tile:
    White to move. *)
Definition after_first_move : GameState :=
  mkState (Board_set (Board_set initial_board 0 1 (mkCell Player_Black Tile_None))
                     0 0 empty_cell)
          Player_White (mkInv 3 1) (mkInv 3 1).

(** The pattern at position [i] of the catalogue. *)
Definition pattern (i : nat) : NTuple := nth i init_tuples (mkNTuple 0 []).

(** *** Evaluation after one update, distances in binary32 *)

Section Increment.

Context {F : Type} {ops : FloatOps F}.

(** The amount [td_update] adds to a weight: [normalized_lr * error], for
    the value [current_value] that [evaluate] gives before the call. *)
Definition td_increment (net : NTupleNetwork F) (state : GameState)
           (target learning_rate current_value : F) : F :=
  let error := f_sub target current_value in
  let error := if Player_eqb (current_player state) Player_White
               then f_neg error else error in
  f_mul (f_div learning_rate (f_of_size (Z.of_nat (length (tuples_ net))))) error.

(** The sum [evaluate] forms, with [delta] added to every weight it reads. *)
Fixpoint sum_weights_shifted (ts : list NTuple) (ws : list (FloatVec F))
         (canonical_state : GameState) (delta value : F) : option F :=
  match ts, ws with
  | [], _ => Some value
  | _ :: _, [] => None
  | t :: ts', w :: ws' =>
      match vec_at w (feature_index t canonical_state) with
      | None => None
      | Some x =>
          sum_weights_shifted ts' ws' canonical_state delta
                              (f_add value (f_add x delta))
      end
  end.

(** [evaluate], with [delta] added to every weight it reads. *)
Definition evaluate_shifted (net : NTupleNetwork F) (state : GameState) (delta : F)
  : option F :=
  match sum_weights_shifted (tuples_ net) (weights_ net) (canonical_state_of state)
                            delta f_zero with
  | None => None
  | Some value =>
      if Player_eqb (current_player state) Player_White
      then Some (f_neg value) else Some value
  end.

End Increment.

Definition evaluate_after_update {F : Type} {ops : FloatOps F}
    (net : NTupleNetwork F) (s : GameState) (target lr : F) : option F :=
  match td_update net s target lr with
  | Some net' => evaluate net' s
  | None => None
  end.

(** |x - y| in binary32 *)
Definition b32_dist (x y : spec_float) : spec_float :=
  SFabs (SFsub b32_prec b32_emax x y).

(** [after] is strictly closer to [target] than [before] (binary32). *)
Definition b32_closer (target before after : spec_float) : bool :=
  SFltb (b32_dist target after) (b32_dist target before).

(** *** Weight files *)

(** [max_size()] of [std::vector<float>] with 64-bit [size_t]. *)
Definition vector_float_max_size : Z := 2 ^ 61 - 1.

(** The one way [load], a [void] function, has to tell its caller about a
    failure: leaving through an exception. *)
Definition load_reports_error {F : Type} (o : LoadOutcome F) : Prop :=
  match o with load_threw _ => True | _ => False end.

(** A weight file that stores eleven tables of one weight each. *)
Definition eleven_tables_file : WeightFile spec_float :=
  file_data 11 (repeat [f_half] 11).

(* ------------------------------------------------------------------------- *)
(** ** Saving the weights ([NTupleNetwork::save])                             *)
(* ------------------------------------------------------------------------- *)

Section NetworkSave.

Context {F : Type} {ops : FloatOps F}.

(** The floats [w.data()[0 .. w.size()-1]] in the order [ofs.write] puts
    them out. *)
Definition vec_to_list (w : FloatVec F) : list F :=
  map (fun i => fv_get w (Z.of_nat i)) (seq 0 (Z.to_nat (fv_size w))).

(** [NTupleNetwork::save] on a stream that opens: the content of the file,
    the pattern count and then every table with its length. *)
Definition save (net : NTupleNetwork F) : WeightFile F :=
  let num_tuples := Z.of_nat (length (tuples_ net)) in
  file_data num_tuples (map vec_to_list (weights_ net)).

End NetworkSave.

(* ------------------------------------------------------------------------- *)
(** ** Text coordinates of the web session (game_session.cpp)                 *)
(* ------------------------------------------------------------------------- *)

(** [static_cast<char>] of an [int], with an 8-bit signed [char]. *)
Definition wrap_char (z : Z) : Z := (z + 128) mod 256 - 128.

(** Characters are their codes: ['a'] = 97, ['z'] = 122, ['A'] = 65,
    ['Z'] = 90, ['0'] = 48, ['1'] = 49, ['9'] = 57. *)
Module GameSessionText.

(** [file_to_x] *)
Definition file_to_x (f : Z) : Z :=
  let f := if (f >=? 97) && (f <=? 122) then wrap_char (f - 97 + 97) else f in
  let f := if (f >=? 65) && (f <=? 90) then wrap_char (f - 65 + 97) else f in
  if (f <? 97) || (f >? 122) then -1
  else
    let x := f - 97 in
    x.

(** [rank_to_y] *)
Definition rank_to_y (r : Z) : Z :=
  if (r <? 49) || (r >? 57) then -1
  else
    let rank := r - 48 in
    let H := BOARD_H in
    if (rank <? 1) || (rank >? H) then -1
    else H - rank.

(** The row label [board_text] prints for the row [y]: [int rank = H - y],
    one decimal digit for the five rows of the board. *)
Definition rank_label (y : Z) : Z := 48 + (BOARD_H - y).

(** The column label [board_text] prints: [static_cast<char>('a' + x)]. *)
Definition file_label (x : Z) : Z := wrap_char (97 + x).

(** The coordinate test of [apply_move_text] on the characters [from[0]],
    [from[1]], [to[0]], [to[1]]: [None] is "coordinate out of range". *)
Definition parse_from_to (f0 f1 t0 t1 : Z) : option Move :=
  let sx := file_to_x f0 in
  let sy := rank_to_y f1 in
  let dx := file_to_x t0 in
  let dy := rank_to_y t1 in
  if (sx <? 0) || (sy <? 0) || (dx <? 0) || (dy <? 0) then None
  else Some (mkMove sx sy dx dy (place_tile Move_default) (tx Move_default)
                    (ty Move_default) (tile_kind Move_default)).

End GameSessionText.

(* ------------------------------------------------------------------------- *)
(** ** Move lookup of the game server (server/main.cpp)                       *)
(* ------------------------------------------------------------------------- *)

Module Server.

(** [coord_to_xy] on the two characters of the coordinate: no range check. *)
Definition coord_to_xy (c0 c1 : Z) : Z * Z :=
  let x := c0 - 97 in
  let rank_index := c1 - 49 in
  let y := BOARD_H - 1 - rank_index in
  (x, y).

(** [xy_to_coord]: the two characters of the coordinate. *)
Definition xy_to_coord (x y : Z) : Z * Z :=
  let file := wrap_char (97 + x) in
  let rank := wrap_char (49 + (BOARD_H - 1 - y)) in
  (file, rank).

(** [moves_equal] *)
Definition moves_equal (a b : Move) : bool :=
  if negb (sx a =? sx b) || negb (sy a =? sy b)
     || negb (dx a =? dx b) || negb (dy a =? dy b) then false
  else if negb (Bool.eqb (place_tile a) (place_tile b)) then false
  else if negb (place_tile a) then true
  else (tx a =? tx b) && (ty a =? ty b) && TileType_eqb (tile_kind a) (tile_kind b).

(** The lookup of [handle_move]: [std::find_if] over the legal moves; the
    move found is the one that is applied. *)
Definition find_legal (s : GameState) (desired : Move) : option Move :=
  find (fun candidate => moves_equal candidate desired) (Rules.legal_moves s).

End Server.

(* ------------------------------------------------------------------------- *)
(** ** Tile placement in the playing GUI (apps/gui_play/renderer.cpp)         *)
(* ------------------------------------------------------------------------- *)

Module GuiPlay.

(** The scan behind the buttons "Black Tile" and "Gray Tile" (the same loop
    for both) for the move (sel_x,sel_y) -> (dest_x,dest_y) the player has
    chosen: the cells offered for the tile. *)
Definition available_tile_locations (b : Board) (sel_x sel_y dest_x dest_y : Z)
  : list (Z * Z) :=
  flat_map (fun xy : Z * Z =>
              let '(x, y) := xy in
              let cell := Board_at b x y in
              let is_origin := (x =? sel_x) && (y =? sel_y) in
              let is_destination := (x =? dest_x) && (y =? dest_y) in
              if TileType_eqb (tile cell) Tile_None && negb is_destination then
                let empty_after_move :=
                  Player_eqb (occupant cell) Player_None || is_origin in
                if empty_after_move then [(x, y)] else []
              else [])
           cells_xy.

End GuiPlay.

(* ------------------------------------------------------------------------- *)
(** ** Monte-Carlo tree search (engine/src/mcts.cpp)                          *)
(* ------------------------------------------------------------------------- *)

Module MCTS.

(** [MCTS::is_terminal] (the same body as [MCTSNode::is_terminal]) *)
Definition is_terminal (state : GameState) : bool :=
  match Rules.legal_moves state with
  | [] => true
  | _ :: _ =>
      if Rules.is_win state Player_Black || Rules.is_win state Player_White
      then true else false
  end.

(** [MCTS::simulation], with the network's [evaluate_state] *)
Definition simulation (network_ : NTupleNetwork spec_float) (state : GameState)
  : option spec_float :=
  if is_terminal state then
    if Rules.is_win state Player_Black then
      Some (if Player_eqb (current_player state) Player_Black
            then b32_one else b32_minus_one)
    else if Rules.is_win state Player_White then
      Some (if Player_eqb (current_player state) Player_White
            then b32_one else b32_minus_one)
    else Some (S754_zero false)
  else evaluate network_ state.

(** The two fields of [MCTSNode] that [backpropagation] writes; the visit
    counter is taken to be an [int]. *)
Record Node : Type := mkNode { visits : Z; total_value : spec_float }.

(** [MCTS::backpropagation] along the chain of [parent] pointers, given as
    the list of the nodes from the starting node up to the root. *)
Fixpoint backpropagation (path : list Node) (value : spec_float) : list Node :=
  match path with
  | [] => []
  | node :: parents =>
      mkNode (i32_add (visits node) 1) (f_add (total_value node) value)
      :: backpropagation parents (f_neg value)
  end.

End MCTS.

(* ------------------------------------------------------------------------- *)
(** ** Self-play trainer: results, statistics, threads (train_selfplay.cpp)   *)
(* ------------------------------------------------------------------------- *)

Module Updater.

(** The fields of [TrainingConfig] the updater reads. *)
Record TrainingConfig : Type := mkConfig {
  initial_training_games : Z;
  swap_interval : Z;
  evaluation_window : Z;
  promotion_threshold : spec_float
}.

(** The default member initialisers: 1000, 10000, 1000, 0.55f. *)
Definition default_config : TrainingConfig :=
  mkConfig 1000 10000 1000 (S754_finite false 9227469 (-24)).

Record GameResult : Type := mkResult {
  states : list GameState;
  players : list Player;
  winner : Player;
  num_moves : Z;
  learner_was_black : bool
}.

(** The test at the head of the loop of [play_selfplay_game_shared]: the
    winner the game ends with in this state, or [None] when a move is
    played. *)
Definition game_over (state : GameState) : option Player :=
  match Rules.legal_moves state with
  | [] => Some (if Player_eqb (current_player state) Player_Black
                then Player_White else Player_Black)
  | _ :: _ =>
      if Rules.is_win state Player_Black then Some Player_Black
      else if Rules.is_win state Player_White then Some Player_White
      else None
  end.

(** [float target] of the TD loop *)
Definition td_target (winner player : Player) : spec_float :=
  if Player_eqb winner player then b32_one
  else if negb (Player_eqb winner Player_None) && negb (Player_eqb winner player)
       then b32_minus_one
       else S754_zero false.

(** The calls [learner_network.td_update(state, target, current_lr)] one game
    gives rise to, in order: the recorded states at which the learner was to
    move.  [states] and [players] are filled together, one entry each per
    turn. *)
Definition td_samples (result : GameResult) : list (GameState * spec_float) :=
  flat_map (fun sp : GameState * Player =>
              let '(state, player) := sp in
              let state_is_learner :=
                Bool.eqb (Player_eqb player Player_Black) (learner_was_black result) in
              if negb state_is_learner then []
              else [(state, td_target (winner result) player)])
           (combine (states result) (players result)).

(** The TD loop over one game. *)
Definition train_on_game (net : NTupleNetwork spec_float) (result : GameResult)
           (current_lr : spec_float) : option (NTupleNetwork spec_float) :=
  fold_left (fun acc (sample : GameState * spec_float) =>
               match acc with
               | None => None
               | Some n => td_update n (fst sample) (snd sample) current_lr
               end)
            (td_samples result) (Some net).

(** [bool learner_won] *)
Definition learner_won (result : GameResult) : bool :=
  (Player_eqb (winner result) Player_Black && learner_was_black result)
  || (Player_eqb (winner result) Player_White && negb (learner_was_black result)).

(** The counters of [updater_thread], the window of recent results and the
    shared flag [learner_is_black]. *)
Record UpdaterState : Type := mkUpdater {
  games_processed : Z;
  learner_wins : Z;
  opponent_wins : Z;
  draws : Z;
  recent_wins : list bool;
  recent_learner_wins : Z;
  last_swap_game : Z;
  games_since_last_promotion : Z;
  learner_is_black : bool
}.

Definition updater_init : UpdaterState := mkUpdater 0 0 0 0 [] 0 0 0 true.

(** An [int] compared with a [size_t]: the [int] is converted. *)
Definition size_of_int (n : Z) : Z := n mod 2 ^ 64.

(** [static_cast<float>(recent_learner_wins) / recent_wins.size()] *)
Definition recent_rate (wins : Z) (size : nat) : spec_float :=
  f_div (f_of_size wins) (f_of_size (Z.of_nat size)).

(** One pass of the loop of [updater_thread] over a popped result, apart
    from the TD loop, the total of the move counts, the progress report and
    the checkpoint: the counters, the window, the role swap and the
    promotion. *)
Definition process_result (config : TrainingConfig) (st : UpdaterState)
           (result : GameResult) : UpdaterState :=
  let current_game := i32_add (games_processed st) 1 in
  let won := learner_won result in
  let learner_wins' := if won then i32_add (learner_wins st) 1 else learner_wins st in
  let draws' :=
    if won then draws st
    else if Player_eqb (winner result) Player_None then i32_add (draws st) 1
         else draws st in
  let opponent_wins' :=
    if won then opponent_wins st
    else if Player_eqb (winner result) Player_None then opponent_wins st
         else i32_add (opponent_wins st) 1 in
  let pushed := recent_wins st ++ [won] in
  let counted := if won then i32_add (recent_learner_wins st) 1
                 else recent_learner_wins st in
  let too_long := Z.of_nat (length pushed) >? size_of_int (evaluation_window config) in
  let counted' := if too_long
                  then (if hd false pushed then i32_add counted (-1) else counted)
                  else counted in
  let recent := if too_long then tl pushed else pushed in
  let since := i32_add (games_since_last_promotion st) 1 in
  if current_game >? initial_training_games config then
    let swap := i32_add current_game (- last_swap_game st) >=? swap_interval config in
    let is_black := if swap then negb (learner_is_black st) else learner_is_black st in
    let last_swap := if swap then current_game else last_swap_game st in
    let promote :=
      (Z.of_nat (length recent) >=? size_of_int (evaluation_window config))
      && (since >=? evaluation_window config)
      && SFleb (promotion_threshold config) (recent_rate counted' (length recent)) in
    if promote
    then mkUpdater current_game learner_wins' opponent_wins' draws' [] 0 last_swap 0
                   is_black
    else mkUpdater current_game learner_wins' opponent_wins' draws' recent counted'
                   last_swap since is_black
  else mkUpdater current_game learner_wins' opponent_wins' draws' recent counted'
                 (last_swap_game st) since (learner_is_black st).

(** The updater over the results in the order it pops them. *)
Definition process_all (config : TrainingConfig) (results : list GameResult)
  : UpdaterState :=
  fold_left (process_result config) results updater_init.

End Updater.

(** The threads of [train_network_selfplay] around the result queue: the
    workers claim games, play them and push the results, the main thread
    sets the queue done when every worker has been joined, the updater pops
    until the queue is empty and done.  A result is identified by the number
    of its game. *)
Module Pipeline.

Record System : Type := mkSystem {
  shared : SelfPlay.Shared;      (* counter, workers in their loop, games started *)
  playing : list Z;              (* games claimed, result not pushed yet *)
  queue_ : list Z;               (* [GameResultQueue::queue_] *)
  done_ : bool;                  (* [GameResultQueue::done_] *)
  processed : list Z;            (* the results the updater has popped *)
  updater_finished : bool
}.

Definition system_init (workers : nat) : System :=
  mkSystem (SelfPlay.shared_init workers) [] [] false [] false.

Inductive Action : Type :=
| Claim                 (* a worker between two games: [fetch_add] *)
| Push (game : Z)       (* the worker playing [game]: [result_queue.push] *)
| SetDone               (* the main thread, after the joins: [set_done] *)
| Pop.                  (* the updater: [result_queue.pop] returns *)

(** The games a claim adds to those being played. *)
Definition newly_started (before after : SelfPlay.Shared) : list Z :=
  map SelfPlay.game_no
      (skipn (length (SelfPlay.started before)) (SelfPlay.started after)).

Fixpoint remove_first (g : Z) (l : list Z) : option (list Z) :=
  match l with
  | [] => None
  | h :: r =>
      if h =? g then Some r
      else match remove_first g r with
           | Some r' => Some (h :: r')
           | None => None
           end
  end.

(** What an action does; [None] when the thread cannot take it now (a worker
    in a game cannot claim, the main thread is still in a [join] or has
    called [set_done] already, [pop] waits on the condition variable, the
    updater has left its loop). *)
Definition do_action (target_games : Z) (a : Action) (sys : System) : option System :=
  match a with
  | Claim =>
      if (length (playing sys) <? SelfPlay.running (shared sys))%nat then
        match SelfPlay.worker_claim target_games (shared sys) with
        | Some sh =>
            Some (mkSystem sh (playing sys ++ newly_started (shared sys) sh)
                           (queue_ sys) (done_ sys) (processed sys)
                           (updater_finished sys))
        | None => None
        end
      else None
  | Push g =>
      match remove_first g (playing sys) with
      | Some rest =>
          Some (mkSystem (shared sys) rest (queue_ sys ++ [g]) (done_ sys)
                         (processed sys) (updater_finished sys))
      | None => None
      end
  | SetDone =>
      match SelfPlay.running (shared sys) with
      | O =>
          if done_ sys then None
          else Some (mkSystem (shared sys) (playing sys) (queue_ sys) true
                              (processed sys) (updater_finished sys))
      | S _ => None
      end
  | Pop =>
      if updater_finished sys then None
      else
        match queue_ sys with
        | g :: rest =>
            Some (mkSystem (shared sys) (playing sys) rest (done_ sys)
                           (processed sys ++ [g]) false)
        | [] =>
            if done_ sys
            then Some (mkSystem (shared sys) (playing sys) [] true (processed sys) true)
            else None
        end
  end.

(** A schedule: the actions in the order they take effect. *)
Fixpoint run (target_games : Z) (schedule : list Action) (sys : System)
  : option System :=
  match schedule with
  | [] => Some sys
  | a :: rest =>
      match do_action target_games a sys with
      | Some sys' => run target_games rest sys'
      | None => None
      end
  end.

End Pipeline.

(* ------------------------------------------------------------------------- *)
(** ** Vocabulary of the further properties                                   *)
(* ------------------------------------------------------------------------- *)

(** The arrays of a table entry as the loops read them: the number of
    slots, the counts within them, zeros in the slots not in use. *)
Definition dir_shapeb (d : PrecomputedDirection) : bool :=
  Nat.eqb (length (rel_index d)) 4 && Nat.leb (step_count d) 4
  && forallb (fun r => r =? 0) (skipn (step_count d) (rel_index d)).

Definition entry_shapeb (e : MoveTableEntry) : bool :=
  Nat.eqb (length (dirs e)) 8 && Nat.leb (dir_count e) 8
  && forallb dir_shapeb (dirs e)
  && forallb (fun d => Nat.eqb (step_count d) 0) (skipn (dir_count e) (dirs e)).

(** A cell a tile can be put on: no occupant and no tile. *)
Definition free_cell (b : Board) (xy : Z * Z) : bool :=
  let '(x, y) := xy in
  Player_eqb (occupant (Board_at b x y)) Player_None
  && TileType_eqb (tile (Board_at b x y)) Tile_None.

Definition free_cell_count (b : Board) : nat := length (filter (free_cell b) cells_xy).

(** The tile kinds the inventory still holds. *)
Definition held_kinds (inv : TileInventory) : nat :=
  ((if black inv >? 0 then 1 else 0) + (if gray inv >? 0 then 1 else 0))%nat.

(** The number of [true] entries of the window. *)
Definition count_wins (l : list bool) : Z :=
  Z.of_nat (length (filter (fun w => w) l)).

(** The game at which the updater first swaps the roles. *)
Definition first_swap_game (config : Updater.TrainingConfig) : Z :=
  Z.max (Updater.initial_training_games config + 1) (Updater.swap_interval config).

(** The number of role swaps after [n] processed games. *)
Definition swaps_after (config : Updater.TrainingConfig) (n : Z) : Z :=
  if n <? first_swap_game config then 0
  else (n - first_swap_game config) / Updater.swap_interval config + 1.

(** The last swap before or at game [n]. *)
Definition last_swap_after (config : Updater.TrainingConfig) (n : Z) : Z :=
  if n <? first_swap_game config then 0
  else first_swap_game config
       + (n - first_swap_game config) / Updater.swap_interval config
         * Updater.swap_interval config.

(** What the counters of the updater satisfy after the results [done]. *)
Definition statistics_invariant (config : Updater.TrainingConfig)
           (done : list Updater.GameResult) (st : Updater.UpdaterState) : Prop :=
  Updater.games_processed st = Z.of_nat (length done)
  /\ Updater.learner_wins st = count_wins (map Updater.learner_won done)
  /\ Updater.draws st
     = count_wins (map (fun r => Player_eqb (Updater.winner r) Player_None) done)
  /\ Updater.learner_wins st + Updater.opponent_wins st + Updater.draws st
     = Z.of_nat (length done)
  /\ 0 <= Updater.opponent_wins st
  /\ Updater.recent_learner_wins st = count_wins (Updater.recent_wins st)
  /\ Z.of_nat (length (Updater.recent_wins st)) <= Updater.evaluation_window config
  /\ exists k, (k <= length done)%nat
               /\ Updater.recent_wins st = skipn k (map Updater.learner_won done).

(** What the role swap of the updater satisfies after [n] results. *)
Definition swap_invariant (config : Updater.TrainingConfig) (n : Z)
           (st : Updater.UpdaterState) : Prop :=
  Updater.games_processed st = n
  /\ Updater.last_swap_game st = last_swap_after config n
  /\ Updater.learner_is_black st = Z.even (swaps_after config n).

(** The numbers 1..n of the games of a run. *)
Definition game_numbers (n : Z) : list Z := map Z.of_nat (seq 1 (Z.to_nat n)).

(** What every state of the threads satisfies. *)
Definition pipeline_invariant (target_games : Z) (workers : nat)
           (sys : Pipeline.System) : Prop :=
  SelfPlay.claims_invariant target_games workers (Pipeline.shared sys)
  /\ (length (Pipeline.playing sys) <= SelfPlay.running (Pipeline.shared sys))%nat
  /\ Permutation (map SelfPlay.game_no (SelfPlay.started (Pipeline.shared sys)))
                 (Pipeline.playing sys ++ Pipeline.queue_ sys ++ Pipeline.processed sys)
  /\ (Pipeline.done_ sys = true -> SelfPlay.running (Pipeline.shared sys) = 0%nat)
  /\ (Pipeline.updater_finished sys = true ->
      Pipeline.done_ sys = true /\ Pipeline.queue_ sys = []).

(** The work the threads still have to do: it goes down by one with every
    action. *)
Definition pipeline_measure (target_games : Z) (workers : nat)
           (sys : Pipeline.System) : Z :=
  3 * (target_games - Z.of_nat (length (SelfPlay.started (Pipeline.shared sys))))
  + Z.of_nat (SelfPlay.running (Pipeline.shared sys))
  + 2 * Z.of_nat (length (Pipeline.playing sys))
  + Z.of_nat (length (Pipeline.queue_ sys))
  + (if Pipeline.done_ sys then 0 else 1)
  + (if Pipeline.updater_finished sys then 0 else 1).

(** The value every TD target of a game has. *)
Definition outcome_target (result : Updater.GameResult) : spec_float :=
  if Updater.learner_won result then b32_one
  else if Player_eqb (Updater.winner result) Player_None then S754_zero false
       else b32_minus_one.

(** Two weight tables with the same size and the same elements. *)
Definition same_table {F : Type} (w w' : FloatVec F) : Prop :=
  fv_size w' = fv_size w /\ forall i, vec_at w' i = vec_at w i.

(** A stalemate away from the goal rows: Black, to move, on (0,2) between
    three White pieces. *)
Definition boxed_in_state : GameState :=
  mkState (board_with [(0, 2, mkCell Player_Black Tile_None);
                       (1, 2, mkCell Player_White Tile_None);
                       (0, 1, mkCell Player_White Tile_None);
                       (0, 3, mkCell Player_White Tile_None)])
          Player_Black (mkInv 3 1) (mkInv 3 1).

(* ========================================================================= *)
(** * Properties                                                              *)
(* ========================================================================= *)

(** ** Basic facts *)

Lemma Player_eqb_eq : forall p q, Player_eqb p q = true <-> p = q.
Proof. intros [] []; simpl; split; intro H; try reflexivity; discriminate H. Qed.

Lemma Player_eqb_neq : forall p q, Player_eqb p q = false <-> p <> q.
Proof.
  intros p q. split.
  - intros H E. apply Player_eqb_eq in E. congruence.
  - intro H. destruct (Player_eqb p q) eqn:E; [apply Player_eqb_eq in E; contradiction | reflexivity].
Qed.

Lemma TileType_eqb_eq : forall s t, TileType_eqb s t = true <-> s = t.
Proof. intros [] []; simpl; split; intro H; try reflexivity; discriminate H. Qed.

Lemma on_boardb_spec : forall x y, on_boardb x y = true <-> on_board x y.
Proof.
  intros x y. unfold on_boardb, on_board.
  rewrite !andb_true_iff, !Z.leb_le, !Z.ltb_lt. tauto.
Qed.

Lemma in_cells_xy : forall x y,
  In (x, y) cells_xy <-> 0 <= x < BOARD_W /\ 0 <= y < BOARD_H.
Proof.
  intros x y. unfold cells_xy, BOARD_W, BOARD_H. rewrite in_flat_map. split.
  - intros [y' [Hy Hx]]. apply in_map_iff in Hx. destruct Hx as [x' [E Hx]].
    inversion E; subst. unfold coord_range in *. simpl in Hx, Hy. lia.
  - intros [Hx Hy]. exists y. split.
    + unfold coord_range. simpl. lia.
    + apply in_map_iff. exists x. split; [reflexivity | unfold coord_range; simpl; lia].
Qed.

(** ** The precomputed move table *)

Lemma ray_stepsb_sound : forall steps origin d k,
  ray_stepsb origin d k steps = true ->
  (forall j rel, nth_error steps j = Some rel ->
     let x := origin mod BOARD_W + (Z.of_nat (k + j) + 1) * fst d in
     let y := origin / BOARD_W + (Z.of_nat (k + j) + 1) * snd d in
     on_board x y /\ origin + rel = y * BOARD_W + x)
  /\ ~ on_board (origin mod BOARD_W + (Z.of_nat (k + length steps) + 1) * fst d)
                (origin / BOARD_W + (Z.of_nat (k + length steps) + 1) * snd d).
Proof.
  induction steps as [|rel rest IH]; intros origin d k H; simpl in H.
  - split.
    + intros [|j] r Hj; discriminate Hj.
    + simpl length. rewrite Nat.add_0_r. intro Hb. apply on_boardb_spec in Hb.
      rewrite Hb in H. discriminate H.
  - apply andb_true_iff in H. destruct H as [H Hrest].
    apply andb_true_iff in H. destruct H as [Hb Heq].
    apply on_boardb_spec in Hb. apply Z.eqb_eq in Heq.
    destruct (IH _ _ _ Hrest) as [IH1 IH2]. split.
    + intros [|j] r Hj; simpl in Hj.
      * inversion Hj; subst r. rewrite Nat.add_0_r. split; assumption.
      * replace (k + S j)%nat with (S k + j)%nat by lia. apply IH1. exact Hj.
    + simpl length. replace (k + S (length rest))%nat with (S k + length rest)%nat by lia.
      exact IH2.
Qed.

Lemma ray_stepsb_spec : forall steps origin d,
  ray_stepsb origin d 0 steps = true -> ray_spec origin d steps.
Proof.
  intros steps origin d H. destruct (ray_stepsb_sound _ _ _ _ H) as [H1 H2].
  unfold ray_spec. split.
  - intros k rel Hk. exact (H1 k rel Hk).
  - exact H2.
Qed.

Lemma rays_okb_spec : forall ds steps origin,
  rays_okb origin ds steps = true -> Forall2 (ray_spec origin) ds steps.
Proof.
  induction ds as [|d ds IH]; intros [|s steps] origin H; simpl in H;
    try discriminate H.
  - constructor.
  - apply andb_true_iff in H. destruct H as [H1 H2].
    constructor; [apply ray_stepsb_spec; exact H1 | apply IH; exact H2].
Qed.

Lemma table_entries_ok :
  forallb (fun t => forallb (fun o => entry_okb t (Z.of_nat o)) (seq 0 25))
          [Tile_None; Tile_Black; Tile_Gray] = true.
Proof. vm_compute. reflexivity. Qed.

Lemma entry_okb_all : forall t origin, 0 <= origin < 25 -> entry_okb t origin = true.
Proof.
  intros t origin H.
  pose proof table_entries_ok as T.
  rewrite forallb_forall in T.
  assert (Ht : In t [Tile_None; Tile_Black; Tile_Gray]) by (destruct t; simpl; auto).
  specialize (T t Ht). rewrite forallb_forall in T.
  specialize (T (Z.to_nat origin)).
  rewrite Z2Nat.id in T by lia. apply T. apply in_seq. lia.
Qed.

(** C7.  For every tile type and every origin cell 0..24 the table entry has
    4 directions (orthogonal) for None, 4 (diagonal) for Black and 8 for Gray;
    each direction lists, in order, the linear-index offsets of the cells at
    steps 1, 2, 3, ... from the origin along that one direction, every one of
    them on the board (so no offset wraps across a rank or a file), and it
    stops exactly where the next step would leave the board. *)
Theorem move_table_rays : forall (t : TileType) (origin : Z),
  0 <= origin < 25 ->
  let e := kMoveTable_at (TileType_to_int t) origin in
  dir_count e = match t with Tile_Gray => 8%nat | _ => 4%nat end
  /\ Forall2 (ray_spec origin) (tile_directions t) (map dir_steps (entry_dirs e)).
Proof.
  intros t origin H e.
  pose proof (entry_okb_all t origin H) as Hok. unfold entry_okb in Hok.
  fold e in Hok. apply andb_true_iff in Hok. destruct Hok as [Hc Hr].
  apply Nat.eqb_eq in Hc. split.
  - rewrite Hc. destruct t; reflexivity.
  - apply rays_okb_spec. exact Hr.
Qed.

Lemma move_table_rays_witness :
  0 <= 12 < 25
  /\ dir_count (kMoveTable_at (TileType_to_int Tile_Gray) 12) = 8%nat
  /\ Forall2 (ray_spec 12) (tile_directions Tile_Gray)
             (map dir_steps (entry_dirs (kMoveTable_at (TileType_to_int Tile_Gray) 12))).
Proof.
  split; [lia | apply (move_table_rays Tile_Gray 12); lia].
Defined.

(** ** The ray walk of [Rules::legal_moves] *)

Section RayWalk.

Variables (b : Board) (p : Player) (x y origin_index : Z).

Lemma ray_walk_empty_first : forall rel rest,
  is_empty (Rules.target_cell b origin_index rel) ->
  Rules.ray_walk b p x y origin_index (rel :: rest) 0 false
  = [landing x y origin_index rel].
Proof.
  intros rel rest He. unfold is_empty, Rules.target_cell in He. simpl.
  rewrite He. reflexivity.
Qed.

Lemma ray_walk_empty_late : forall rel rest step,
  step <> 0%nat ->
  is_empty (Rules.target_cell b origin_index rel) ->
  Rules.ray_walk b p x y origin_index (rel :: rest) step false = [].
Proof.
  intros rel rest step Hs He. unfold is_empty, Rules.target_cell in He. simpl.
  rewrite He. simpl. destruct step; [contradiction | reflexivity].
Qed.

Lemma ray_walk_empty_flag : forall rel rest step,
  is_empty (Rules.target_cell b origin_index rel) ->
  Rules.ray_walk b p x y origin_index (rel :: rest) step true
  = [landing x y origin_index rel].
Proof.
  intros rel rest step He. unfold is_empty, Rules.target_cell in He. simpl.
  rewrite He. reflexivity.
Qed.

Lemma ray_walk_own : forall rel rest step flag,
  is_own p (Rules.target_cell b origin_index rel) ->
  Rules.ray_walk b p x y origin_index (rel :: rest) step flag
  = Rules.ray_walk b p x y origin_index rest (S step) true.
Proof.
  intros rel rest step flag [Hp Hn]. unfold Rules.target_cell in Hp, Hn. simpl.
  apply Player_eqb_neq in Hn. rewrite Hn.
  apply Player_eqb_eq in Hp. rewrite Hp. reflexivity.
Qed.

Lemma ray_walk_opponent : forall rel rest step flag,
  is_opponent p (Rules.target_cell b origin_index rel) ->
  Rules.ray_walk b p x y origin_index (rel :: rest) step flag = [].
Proof.
  intros rel rest step flag [Hn Hp]. unfold Rules.target_cell in Hp, Hn. simpl.
  apply Player_eqb_neq in Hn. rewrite Hn.
  apply Player_eqb_neq in Hp. rewrite Hp. reflexivity.
Qed.

Lemma ray_walk_jump : forall friends rel rest step flag,
  flag = true \/ step = 0%nat ->
  Forall (own_at b p origin_index) friends ->
  is_empty (Rules.target_cell b origin_index rel) ->
  Rules.ray_walk b p x y origin_index (friends ++ rel :: rest) step flag
  = [landing x y origin_index rel].
Proof.
  induction friends as [|f friends IH]; intros rel rest step flag Hf Hown He.
  - simpl app. destruct Hf as [-> | ->].
    + apply ray_walk_empty_flag. exact He.
    + destruct flag; [apply ray_walk_empty_flag | apply ray_walk_empty_first]; exact He.
  - inversion Hown as [|? ? Hf1 Hrest]; subst. simpl app.
    rewrite ray_walk_own by exact Hf1. apply IH; auto.
Qed.

Lemma ray_walk_blocked : forall friends rel rest step flag,
  Forall (own_at b p origin_index) friends ->
  is_opponent p (Rules.target_cell b origin_index rel) ->
  Rules.ray_walk b p x y origin_index (friends ++ rel :: rest) step flag = [].
Proof.
  induction friends as [|f friends IH]; intros rel rest step flag Hown Ho.
  - simpl app. apply ray_walk_opponent. exact Ho.
  - inversion Hown as [|? ? Hf1 Hrest]; subst. simpl app.
    rewrite ray_walk_own by exact Hf1. apply IH; auto.
Qed.

Lemma ray_walk_only : forall rels step flag m,
  In m (Rules.ray_walk b p x y origin_index rels step flag) ->
  exists friends rel rest,
    rels = friends ++ rel :: rest
    /\ Forall (own_at b p origin_index) friends
    /\ is_empty (Rules.target_cell b origin_index rel)
    /\ m = landing x y origin_index rel.
Proof.
  induction rels as [|rel rest IH]; intros step flag m Hin; simpl in Hin.
  - contradiction.
  - destruct (Player_eqb (occupant (Board_at b (Z.rem (origin_index + rel) BOARD_W)
                                            (Z.quot (origin_index + rel) BOARD_W)))
                         Player_None) eqn:En.
    + apply Player_eqb_eq in En.
      assert (Hm : m = landing x y origin_index rel).
      { destruct flag; simpl in Hin.
        - destruct Hin as [<- | []]. reflexivity.
        - destruct (Nat.eqb step 0); simpl in Hin; [|contradiction].
          destruct Hin as [<- | []]. reflexivity. }
      exists [], rel, rest. repeat split; [constructor | exact En | exact Hm].
    + destruct (Player_eqb (occupant (Board_at b (Z.rem (origin_index + rel) BOARD_W)
                                              (Z.quot (origin_index + rel) BOARD_W))) p) eqn:Ep.
      * apply IH in Hin. destruct Hin as [friends [rel' [rest' [E [Hown [He Hm]]]]]].
        exists (rel :: friends), rel', rest'. repeat split.
        -- rewrite E. reflexivity.
        -- constructor; [|exact Hown]. split.
           ++ apply Player_eqb_eq in Ep. exact Ep.
           ++ apply Player_eqb_neq in En. exact En.
        -- exact He.
        -- exact Hm.
      * contradiction.
Qed.

End RayWalk.

Lemma in_walk_direction : forall b p x y origin dir m,
  In m (Rules.walk_direction b p x y origin dir)
  <-> In m (Rules.ray_walk b p x y origin (dir_steps dir) 0 false).
Proof.
  intros b p x y origin dir m. unfold Rules.walk_direction.
  destruct (Nat.eqb (step_count dir) 0) eqn:E; [|tauto].
  apply Nat.eqb_eq in E. unfold dir_steps. rewrite E. simpl. tauto.
Qed.

(** The move the walk pushes is determined field by field. *)
Lemma moves_to_landing : forall m x y origin rel,
  moves_to m x y origin rel <-> m = landing x y origin rel.
Proof.
  intros m x y origin rel. unfold moves_to, landing, Rules.base_move. split.
  - destruct m as [a1 a2 a3 a4 a5 a6 a7 a8]. cbn.
    intros [-> [-> [-> [-> [-> [-> [-> ->]]]]]]]. reflexivity.
  - intros ->. cbn. repeat split.
Qed.

(** C2.  The walk along one direction ray for the side to move:
    an empty first cell (step index 0, no friend passed) makes the walk emit
    exactly one move, the base move from the piece's cell (x,y) to that empty
    cell, with no tile placement; an empty cell after one or more own pieces
    makes it emit exactly that move to the empty cell whatever the step
    index (jump landing); an own piece sets the flag and the walk goes on; an
    opponent piece ends the direction with no move; an empty cell at a later
    step with the flag unset gives nothing.  And the base moves of a state
    are exactly the moves to the empty cells such walks reach, over the table
    directions of the pieces of the side to move: no other base move
    exists. *)
Theorem ray_walk_rule : forall (s : GameState),
  let b := board s in
  let p := current_player s in
  (forall x y origin rel rest,
     is_empty (Rules.target_cell b origin rel) ->
     exists m,
       Rules.ray_walk b p x y origin (rel :: rest) 0 false = [m]
       /\ moves_to m x y origin rel
       /\ occupant (Board_at b (dx m) (dy m)) = Player_None)
  /\ (forall x y origin friends rel rest,
     friends <> [] ->
     Forall (fun r => is_own p (Rules.target_cell b origin r)) friends ->
     is_empty (Rules.target_cell b origin rel) ->
     exists m,
       Rules.ray_walk b p x y origin (friends ++ rel :: rest) 0 false = [m]
       /\ moves_to m x y origin rel
       /\ occupant (Board_at b (dx m) (dy m)) = Player_None)
  /\ (forall x y origin rel rest step flag,
     is_own p (Rules.target_cell b origin rel) ->
     Rules.ray_walk b p x y origin (rel :: rest) step flag
     = Rules.ray_walk b p x y origin rest (S step) true)
  /\ (forall x y origin rel rest step flag,
     is_opponent p (Rules.target_cell b origin rel) ->
     Rules.ray_walk b p x y origin (rel :: rest) step flag = [])
  /\ (forall x y origin rel rest step,
     step <> 0%nat ->
     is_empty (Rules.target_cell b origin rel) ->
     Rules.ray_walk b p x y origin (rel :: rest) step false = [])
  /\ (forall m,
     In m (Rules.base_moves s) <->
     exists x y dir friends rel rest,
       (0 <= x < BOARD_W /\ 0 <= y < BOARD_H)
       /\ occupant (Board_at b x y) = p
       /\ In dir (entry_dirs (kMoveTable_at (TileType_to_int (tile (Board_at b x y)))
                                           (y * BOARD_W + x)))
       /\ dir_steps dir = friends ++ rel :: rest
       /\ Forall (fun r => is_own p (Rules.target_cell b (y * BOARD_W + x) r)) friends
       /\ is_empty (Rules.target_cell b (y * BOARD_W + x) rel)
       /\ moves_to m x y (y * BOARD_W + x) rel
       /\ occupant (Board_at b (dx m) (dy m)) = Player_None).
Proof.
  intros s b p.
  assert (Hland : forall x y origin rel,
             is_empty (Rules.target_cell b origin rel) ->
             moves_to (landing x y origin rel) x y origin rel
             /\ occupant (Board_at b (dx (landing x y origin rel))
                                   (dy (landing x y origin rel))) = Player_None).
  { intros x y origin rel He. split; [apply moves_to_landing; reflexivity | exact He]. }
  repeat apply conj.
  - intros x y origin rel rest He. exists (landing x y origin rel). split.
    + apply ray_walk_empty_first. exact He.
    + apply Hland. exact He.
  - intros x y origin friends rel rest _ Hown He.
    exists (landing x y origin rel). split.
    + apply ray_walk_jump; auto.
    + apply Hland. exact He.
  - intros. apply ray_walk_own. assumption.
  - intros. apply ray_walk_opponent. assumption.
  - intros. apply ray_walk_empty_late; assumption.
  - intro m. split.
    + intro Hin. unfold Rules.base_moves in Hin. apply in_flat_map in Hin.
      destruct Hin as [[x y] [Hxy Hm]]. apply in_cells_xy in Hxy.
      unfold Rules.moves_from in Hm. fold b p in Hm.
      destruct (Player_eqb (occupant (Board_at b x y)) p) eqn:Ep; simpl in Hm;
        [|contradiction].
      apply Player_eqb_eq in Ep. apply in_flat_map in Hm.
      destruct Hm as [dir [Hdir Hm]]. apply in_walk_direction in Hm.
      apply ray_walk_only in Hm.
      destruct Hm as [friends [rel [rest [E [Hown [He Hm]]]]]].
      exists x, y, dir, friends, rel, rest.
      destruct (Hland x y (y * BOARD_W + x) rel He) as [Hmv Hocc].
      rewrite <- Hm in Hmv, Hocc.
      split; [exact Hxy|]. split; [exact Ep|]. split; [exact Hdir|].
      split; [exact E|]. split; [exact Hown|]. split; [exact He|].
      split; [exact Hmv | exact Hocc].
    + intros [x [y [dir [friends [rel [rest [Hxy [Ep [Hdir [E [Hown [He [Hm _]]]]]]]]]]]]].
      apply moves_to_landing in Hm.
      unfold Rules.base_moves. apply in_flat_map. exists (x, y). split.
      * apply in_cells_xy. exact Hxy.
      * unfold Rules.moves_from. fold b p. apply Player_eqb_eq in Ep. rewrite Ep. simpl.
        apply in_flat_map. exists dir. split; [exact Hdir|].
        apply in_walk_direction. rewrite E, Hm.
        rewrite (ray_walk_jump b p x y (y * BOARD_W + x) friends rel rest 0 false);
          [left; reflexivity | right; reflexivity | exact Hown | exact He].
Qed.

(** The jump scenario: with Black on (2,2) and (2,3), the walk down from
    (2,2) passes the own piece and lands on (2,4): the move from (2,2) to
    (2,4) without a tile is a base move, and the walk along that ray emits
    it alone. *)
Lemma ray_walk_rule_witness :
  In (mkMove 2 2 2 4 false 0 0 Tile_None) (Rules.base_moves jump_state)
  /\ exists m,
       Rules.ray_walk (board jump_state) (current_player jump_state) 2 2 12
                      ([5] ++ 10 :: []) 0 false = [m]
       /\ moves_to m 2 2 12 10
       /\ occupant (Board_at (board jump_state) (dx m) (dy m)) = Player_None.
Proof.
  split.
  - apply (proj2 (proj2 (proj2 (proj2 (proj2 (proj2 (ray_walk_rule jump_state)))))
                   (mkMove 2 2 2 4 false 0 0 Tile_None))).
    exists 2, 2, (Dir 2 [5; 10; 0; 0]), [5], 10, [].
    repeat split; try (vm_compute; congruence).
    + vm_compute. auto.
    + constructor; [|constructor]. split; vm_compute; congruence.
  - apply (proj1 (proj2 (ray_walk_rule jump_state)) 2 2 12 [5] 10 []).
    + discriminate.
    + constructor; [|constructor]. split; vm_compute; congruence.
    + vm_compute. reflexivity.
Defined.

(** ** Legality of the generated moves *)

Lemma in_ray_walk_shape : forall b p x y origin rels step flag m,
  In m (Rules.ray_walk b p x y origin rels step flag) ->
  sx m = x /\ sy m = y /\ place_tile m = false
  /\ occupant (Board_at b (dx m) (dy m)) = Player_None.
Proof.
  intros b p x y origin rels step flag m Hin.
  apply ray_walk_only in Hin.
  destruct Hin as [friends [rel [rest [_ [_ [He ->]]]]]].
  unfold landing, Rules.base_move. simpl. repeat split. exact He.
Qed.

Lemma in_base_moves_shape : forall s m,
  In m (Rules.base_moves s) ->
  occupant (Board_at (board s) (sx m) (sy m)) = current_player s
  /\ place_tile m = false
  /\ occupant (Board_at (board s) (dx m) (dy m)) = Player_None.
Proof.
  intros s m Hin. unfold Rules.base_moves in Hin. apply in_flat_map in Hin.
  destruct Hin as [[x y] [_ Hm]]. unfold Rules.moves_from in Hm.
  destruct (Player_eqb (occupant (Board_at (board s) x y)) (current_player s)) eqn:Ep;
    simpl in Hm; [|contradiction].
  apply Player_eqb_eq in Ep. apply in_flat_map in Hm.
  destruct Hm as [dir [_ Hm]]. apply in_walk_direction in Hm.
  apply in_ray_walk_shape in Hm. destruct Hm as [-> [-> [Hpl Hd]]]. auto.
Qed.

Lemma in_placements : forall b base t m,
  In m (Rules.placements b base t) ->
  m = Rules.with_tile base (tx m) (ty m) t
  /\ occupant (Board_at b (tx m) (ty m)) = Player_None
  /\ tile (Board_at b (tx m) (ty m)) = Tile_None.
Proof.
  intros b base t m Hin. unfold Rules.placements in Hin. apply in_flat_map in Hin.
  destruct Hin as [[x y] [_ Hm]].
  destruct (Player_eqb (occupant (Board_at b x y)) Player_None
            && TileType_eqb (tile (Board_at b x y)) Tile_None) eqn:E;
    [|contradiction].
  apply andb_true_iff in E. destruct E as [E1 E2].
  apply Player_eqb_eq in E1. apply TileType_eqb_eq in E2.
  destruct Hm as [<- | []]. simpl. auto.
Qed.

(** C10.  Every move the engine lists starts on a piece of the side to move
    and ends on a cell without occupant; if it places a tile, the target has
    neither occupant nor tile on the board the move is generated for, the
    mover still holds a tile of the placed kind, and the target is not the
    source cell. *)
Theorem legal_moves_sound : forall (s : GameState) (m : Move),
  current_player s <> Player_None ->
  In m (Rules.legal_moves s) ->
  occupant (Board_at (board s) (sx m) (sy m)) = current_player s
  /\ occupant (Board_at (board s) (dx m) (dy m)) = Player_None
  /\ (place_tile m = true ->
      occupant (Board_at (board s) (tx m) (ty m)) = Player_None
      /\ tile (Board_at (board s) (tx m) (ty m)) = Tile_None
      /\ 0 < inventory_count (inventory s (current_player s)) (tile_kind m)
      /\ (tx m, ty m) <> (sx m, sy m)).
Proof.
  intros s m Hp Hin. unfold Rules.legal_moves in Hin. apply in_flat_map in Hin.
  destruct Hin as [base [Hbase Hm]].
  destruct (in_base_moves_shape s base Hbase) as [Hsrc [Hpl Hdst]].
  unfold Rules.expand in Hm. destruct Hm as [<- | Hm].
  - split; [assumption | split; [assumption | intro H; congruence]].
  - assert (Hcase :
      exists t, In m (Rules.placements (board s) base t)
                /\ 0 < inventory_count (inventory s (current_player s)) t).
    { apply in_app_or in Hm. destruct Hm as [Hm | Hm].
      - destruct (black (inventory s (current_player s)) >? 0) eqn:E; [|contradiction].
        exists Tile_Black. split; [exact Hm | simpl; lia].
      - destruct (gray (inventory s (current_player s)) >? 0) eqn:E; [|contradiction].
        exists Tile_Gray. split; [exact Hm | simpl; lia]. }
    destruct Hcase as [t [Hm' Hinv]].
    destruct (in_placements _ _ _ _ Hm') as [Em [Ho Ht]].
    assert (Esx : sx m = sx base) by (rewrite Em; reflexivity).
    assert (Esy : sy m = sy base) by (rewrite Em; reflexivity).
    assert (Edx : dx m = dx base) by (rewrite Em; reflexivity).
    assert (Edy : dy m = dy base) by (rewrite Em; reflexivity).
    assert (Ek : tile_kind m = t) by (rewrite Em; reflexivity).
    rewrite Esx, Esy, Edx, Edy, Ek.
    split; [assumption | split; [assumption | intros _]].
    split; [assumption | split; [assumption | split; [assumption |]]].
    intro E. inversion E as [[E1 E2]]. rewrite E1, E2 in Ho. congruence.
Qed.

Lemma legal_moves_sound_witness :
  let m := Rules.with_tile (landing 0 0 0 5) 1 1 Tile_Black in
  occupant (Board_at (board reset) (sx m) (sy m)) = current_player reset
  /\ occupant (Board_at (board reset) (dx m) (dy m)) = Player_None
  /\ (place_tile m = true ->
      occupant (Board_at (board reset) (tx m) (ty m)) = Player_None
      /\ tile (Board_at (board reset) (tx m) (ty m)) = Tile_None
      /\ 0 < inventory_count (inventory reset (current_player reset)) (tile_kind m)
      /\ (tx m, ty m) <> (sx m, sy m)).
Proof.
  apply (legal_moves_sound reset (Rules.with_tile (landing 0 0 0 5) 1 1 Tile_Black)).
  - vm_compute. discriminate.
  - vm_compute. tauto.
Defined.

(** ** Tile-placement expansion: where the engine departs from the rule *)

Lemma Move_eqb_eq : forall m n, Move_eqb m n = true <-> m = n.
Proof.
  intros [a1 a2 a3 a4 a5 a6 a7 a8] [c1 c2 c3 c4 c5 c6 c7 c8]. unfold Move_eqb. simpl.
  rewrite !andb_true_iff, !Z.eqb_eq, Bool.eqb_true_iff, TileType_eqb_eq. split.
  - intros [[[[[[[-> ->] ->] ->] ->] ->] ->] ->]. reflexivity.
  - intro E. inversion E. repeat split; reflexivity.
Qed.

Lemma existsb_Move_In : forall m l,
  existsb (Move_eqb m) l = true <-> In m l.
Proof.
  intros m l. rewrite existsb_exists. split.
  - intros [n [Hn E]]. apply Move_eqb_eq in E. subst. exact Hn.
  - intro H. exists m. split; [exact H | apply Move_eqb_eq; reflexivity].
Qed.

(** C1 (the engine against the rule).  In the initial position the base move
    (0,0)->(0,1) is listed with a Black-tile placement on its own destination
    (0,1), which the rule excludes, and without any placement on the vacated
    origin (0,0), which the rule includes: the engine tests the cells on the
    board before the move. *)
Theorem placement_expansion_initial :
  let base := landing 0 0 0 5 in
  In base (Rules.base_moves reset)
  /\ (dx base, dy base) = (0, 1)
  /\ In (Rules.with_tile base 0 1 Tile_Black) (Rules.legal_moves reset)
  /\ ~ In (Rules.with_tile base 0 0 Tile_Black) (Rules.legal_moves reset)
  /\ ~ In (Rules.with_tile base 0 0 Tile_Gray) (Rules.legal_moves reset).
Proof.
  intro base. repeat split.
  - apply existsb_Move_In. vm_compute. reflexivity.
  - apply existsb_Move_In. vm_compute. reflexivity.
  - intro H. apply existsb_Move_In in H. vm_compute in H. discriminate H.
  - intro H. apply existsb_Move_In in H. vm_compute in H. discriminate H.
Qed.

(** What the expansion does in general: the placements listed for a base move
    are the cells without occupant and without tile on the board of the state
    itself, whatever the base move is. *)
Lemma placement_expansion_code : forall (s : GameState) (base : Move) (t : TileType) x y,
  In base (Rules.base_moves s) ->
  0 < inventory_count (inventory s (current_player s)) t ->
  (In (Rules.with_tile base x y t) (Rules.legal_moves s)
   <-> (0 <= x < BOARD_W /\ 0 <= y < BOARD_H)
       /\ occupant (Board_at (board s) x y) = Player_None
       /\ tile (Board_at (board s) x y) = Tile_None).
Proof.
  intros s base t x y Hbase Hinv. split.
  - intro Hin. unfold Rules.legal_moves in Hin. apply in_flat_map in Hin.
    destruct Hin as [base' [Hb' Hm]]. unfold Rules.expand in Hm.
    destruct Hm as [E | Hm].
    + destruct (in_base_moves_shape s base' Hb') as [_ [Hpl _]].
      rewrite E in Hpl. discriminate Hpl.
    + assert (Hp : exists t', In (Rules.with_tile base x y t)
                                 (Rules.placements (board s) base' t')).
      { apply in_app_or in Hm. destruct Hm as [Hm | Hm].
        - destruct (black _ >? 0); [eauto | contradiction].
        - destruct (gray _ >? 0); [eauto | contradiction]. }
      destruct Hp as [t' Hp]. unfold Rules.placements in Hp.
      apply in_flat_map in Hp. destruct Hp as [[x' y'] [Hxy Hp]].
      destruct (Player_eqb (occupant (Board_at (board s) x' y')) Player_None
                && TileType_eqb (tile (Board_at (board s) x' y')) Tile_None) eqn:E;
        [|contradiction].
      destruct Hp as [Hp | []]. inversion Hp; subst.
      apply andb_true_iff in E. destruct E as [E1 E2].
      apply Player_eqb_eq in E1. apply TileType_eqb_eq in E2.
      apply in_cells_xy in Hxy. tauto.
  - intros [Hxy [Ho Ht]]. unfold Rules.legal_moves. apply in_flat_map.
    exists base. split; [exact Hbase|]. unfold Rules.expand. right.
    assert (Hp : In (Rules.with_tile base x y t) (Rules.placements (board s) base t)).
    { unfold Rules.placements. apply in_flat_map. exists (x, y). split.
      - apply in_cells_xy. exact Hxy.
      - apply Player_eqb_eq in Ho. apply TileType_eqb_eq in Ht.
        rewrite Ho, Ht. simpl. left. reflexivity. }
    apply in_or_app. destruct t; simpl in Hinv.
    + lia.
    + left. apply Z.gtb_lt in Hinv. rewrite Hinv. exact Hp.
    + right. apply Z.gtb_lt in Hinv. rewrite Hinv. exact Hp.
Qed.

(** ** Boards as arrays of 25 cells *)

Lemma Board_wf_explicit : forall b : Board,
  Board_wf b -> b = map (fun i => nth i b empty_cell) (seq 0 25).
Proof.
  intros b H. unfold Board_wf in H.
  apply nth_ext with (d := empty_cell) (d' := empty_cell).
  - rewrite length_map, length_seq. exact H.
  - intros n Hn. rewrite H in Hn.
    rewrite (nth_indep (map (fun i => nth i b empty_cell) (seq 0 25)) empty_cell
                       ((fun i => nth i b empty_cell) 0%nat))
      by (rewrite length_map, length_seq; exact Hn).
    rewrite (map_nth (fun i => nth i b empty_cell)).
    rewrite seq_nth by exact Hn. reflexivity.
Qed.

(** Reduce a statement about a well-formed board to one about 25 named cells. *)
Ltac explicit_board b H :=
  rewrite (Board_wf_explicit b H);
  cbv [map seq];
  generalize (nth 0 b empty_cell) (nth 1 b empty_cell) (nth 2 b empty_cell)
             (nth 3 b empty_cell) (nth 4 b empty_cell) (nth 5 b empty_cell)
             (nth 6 b empty_cell) (nth 7 b empty_cell) (nth 8 b empty_cell)
             (nth 9 b empty_cell) (nth 10 b empty_cell) (nth 11 b empty_cell)
             (nth 12 b empty_cell) (nth 13 b empty_cell) (nth 14 b empty_cell)
             (nth 15 b empty_cell) (nth 16 b empty_cell) (nth 17 b empty_cell)
             (nth 18 b empty_cell) (nth 19 b empty_cell) (nth 20 b empty_cell)
             (nth 21 b empty_cell) (nth 22 b empty_cell) (nth 23 b empty_cell)
             (nth 24 b empty_cell);
  clear H; clear b; intros.

Lemma board_cells_self : forall b : Board,
  Board_wf b ->
  map (fun xy : Z * Z => let '(x, y) := xy in Board_at b x y) cells_xy = b.
Proof. intros b H. explicit_board b H. reflexivity. Qed.

Lemma board_codes_map : forall b : Board,
  Board_wf b -> SymmetryOps.board_codes b = map encode_cell b.
Proof. intros b H. explicit_board b H. reflexivity. Qed.

Lemma flip_wf : forall b : Board,
  Board_wf (SymmetryOps.transform_board b SymmetryOps.FlipH).
Proof. intro b. reflexivity. Qed.

Lemma flip_flip : forall b : Board,
  Board_wf b ->
  SymmetryOps.transform_board (SymmetryOps.transform_board b SymmetryOps.FlipH)
                              SymmetryOps.FlipH = b.
Proof. intros b H. explicit_board b H. reflexivity. Qed.

Lemma encode_cell_inj : forall c1 c2, encode_cell c1 = encode_cell c2 -> c1 = c2.
Proof.
  intros [[] []] [[] []] H; vm_compute in H; try reflexivity; discriminate H.
Qed.

Lemma map_inj : forall (A B : Type) (f : A -> B),
  (forall a1 a2, f a1 = f a2 -> a1 = a2) ->
  forall l1 l2, map f l1 = map f l2 -> l1 = l2.
Proof.
  intros A B f Hf. induction l1 as [|a l1 IH]; intros [|c l2] H; simpl in H;
    try discriminate H; [reflexivity|].
  inversion H as [[H1 H2]]. f_equal; [apply Hf; exact H1 | apply IH; exact H2].
Qed.

Lemma board_codes_inj : forall b1 b2 : Board,
  Board_wf b1 -> Board_wf b2 ->
  SymmetryOps.board_codes b1 = SymmetryOps.board_codes b2 -> b1 = b2.
Proof.
  intros b1 b2 H1 H2 E. rewrite !board_codes_map in E by assumption.
  exact (map_inj _ _ encode_cell encode_cell_inj b1 b2 E).
Qed.

(** ** The lexicographic order *)

Lemma lex_ltb_irrefl : forall l, SymmetryOps.lex_ltb l l = false.
Proof.
  induction l as [|a l IH]; simpl; [reflexivity|].
  rewrite Z.ltb_irrefl, Z.eqb_refl, IH. reflexivity.
Qed.

Lemma lex_ltb_asym : forall l1 l2,
  SymmetryOps.lex_ltb l1 l2 = true -> SymmetryOps.lex_ltb l2 l1 = false.
Proof.
  induction l1 as [|a l1 IH]; intros [|c l2] H; simpl in *; try discriminate H;
    try reflexivity.
  apply orb_true_iff in H. apply orb_false_iff. destruct H as [H | H].
  - apply Z.ltb_lt in H. split; [apply Z.ltb_ge; lia|].
    apply andb_false_iff. left. apply Z.eqb_neq. lia.
  - apply andb_true_iff in H. destruct H as [E H]. apply Z.eqb_eq in E. subst c.
    split; [apply Z.ltb_irrefl|]. rewrite Z.eqb_refl. simpl. apply IH. exact H.
Qed.

Lemma lex_ltb_total : forall l1 l2,
  length l1 = length l2 ->
  SymmetryOps.lex_ltb l1 l2 = false -> SymmetryOps.lex_ltb l2 l1 = false -> l1 = l2.
Proof.
  induction l1 as [|a l1 IH]; intros [|c l2] Hl H1 H2; simpl in *;
    try discriminate Hl; [reflexivity|].
  apply orb_false_iff in H1. destruct H1 as [A1 B1].
  apply orb_false_iff in H2. destruct H2 as [A2 B2].
  apply Z.ltb_ge in A1. apply Z.ltb_ge in A2.
  assert (a = c) by lia. subst c.
  rewrite Z.eqb_refl in B1, B2. simpl in B1, B2.
  f_equal. apply IH; [lia | exact B1 | exact B2].
Qed.

(** ** Canonical boards *)

Section Canonical.

Import SymmetryOps.

Variable b : Board.
Hypothesis Hwf : Board_wf b.


Lemma canonical_choice :
  (lex_ltb (board_codes (transform_board b FlipH)) (board_codes b) = true /\ canonical b = transform_board b FlipH)
  \/ (lex_ltb (board_codes (transform_board b FlipH)) (board_codes b) = false /\ canonical b = b).
Proof.
  unfold canonical, get_canonical_symmetry.
  destruct (lex_ltb (board_codes (transform_board b FlipH)) (board_codes b)); [left | right]; auto.
Qed.

Lemma canonical_of_flipped : canonical (transform_board b FlipH) = canonical b.
Proof.
  unfold canonical at 1. unfold get_canonical_symmetry at 1.
  rewrite (flip_flip b Hwf).
  destruct canonical_choice as [[Hlt ->] | [Hge ->]].
  - rewrite (lex_ltb_asym _ _ Hlt). reflexivity.
  - destruct (lex_ltb (board_codes b) (board_codes (transform_board b FlipH))) eqn:E.
    + apply flip_flip. exact Hwf.
    + symmetry. apply board_codes_inj; [exact Hwf | apply flip_wf |].
      apply lex_ltb_total; [reflexivity | exact E | exact Hge].
Qed.

Lemma canonical_idempotent : canonical (canonical b) = canonical b.
Proof.
  destruct canonical_choice as [[Hlt E] | [Hge E]].
  - rewrite E. rewrite canonical_of_flipped. exact E.
  - rewrite E. exact E.
Qed.

Lemma canonical_is_least :
  lex_ltb (board_codes b) (board_codes (canonical b)) = false
  /\ lex_ltb (board_codes (transform_board b FlipH)) (board_codes (canonical b)) = false.
Proof.
  destruct canonical_choice as [[Hlt ->] | [Hge ->]].
  - split; [apply lex_ltb_asym; exact Hlt | apply lex_ltb_irrefl].
  - split; [apply lex_ltb_irrefl | exact Hge].
Qed.

Lemma canonical_tie :
  board_codes (transform_board b FlipH) = board_codes b -> get_canonical_symmetry b = Identity.
Proof.
  intro E. unfold get_canonical_symmetry. rewrite E.
  rewrite lex_ltb_irrefl. reflexivity.
Qed.

End Canonical.

Lemma evaluate_canonical : forall (F : Type) (ops : FloatOps F)
    (net : NTupleNetwork F) (s1 s2 : GameState),
  SymmetryOps.canonical (board s1) = SymmetryOps.canonical (board s2) ->
  to_move_ s1 = to_move_ s2 -> inv_black s1 = inv_black s2 ->
  inv_white s1 = inv_white s2 ->
  evaluate net s1 = evaluate net s2.
Proof.
  intros F ops net s1 s2 Hc Ht Hb Hw. unfold evaluate.
  assert (E : canonical_state_of s1 = canonical_state_of s2).
  { unfold canonical_state_of, set_board.
    change (SymmetryOps.transform_board (board s1)
              (SymmetryOps.get_canonical_symmetry (board s1)))
      with (SymmetryOps.canonical (board s1)).
    change (SymmetryOps.transform_board (board s2)
              (SymmetryOps.get_canonical_symmetry (board s2)))
      with (SymmetryOps.canonical (board s2)).
    rewrite Hc, Ht, Hb, Hw. reflexivity. }
  rewrite E. unfold current_player. rewrite Ht. reflexivity.
Qed.

(** C5.  For a board B (an array of 25 cells) and its horizontal flip, with
    both linearised as their sequences of cell codes: canonical(B) is one of
    the two, neither of them is lexicographically smaller than it, a tie
    chooses the identity, canonical(canonical(B)) = canonical(B),
    canonical(flip(B)) = canonical(B), and so evaluate gives the same result
    on a state and on the state with the mirrored board and the same
    inventories and side to move. *)
Theorem canonical_flip_invariant : forall b : Board,
  Board_wf b ->
  let flipped := SymmetryOps.transform_board b SymmetryOps.FlipH in
  (SymmetryOps.canonical b = b \/ SymmetryOps.canonical b = flipped)
  /\ SymmetryOps.lex_ltb (SymmetryOps.board_codes b)
                         (SymmetryOps.board_codes (SymmetryOps.canonical b)) = false
  /\ SymmetryOps.lex_ltb (SymmetryOps.board_codes flipped)
                         (SymmetryOps.board_codes (SymmetryOps.canonical b)) = false
  /\ (SymmetryOps.board_codes flipped = SymmetryOps.board_codes b ->
      SymmetryOps.get_canonical_symmetry b = SymmetryOps.Identity)
  /\ SymmetryOps.canonical (SymmetryOps.canonical b) = SymmetryOps.canonical b
  /\ SymmetryOps.canonical flipped = SymmetryOps.canonical b
  /\ (forall (F : Type) (ops : FloatOps F) (net : NTupleNetwork F) (s : GameState),
        board s = b -> evaluate net (set_board s flipped) = evaluate net s).
Proof.
  intros b H flipped.
  split; [| split; [| split; [| split; [| split; [| split]]]]].
  - destruct (canonical_choice b) as [[_ E] | [_ E]]; [right | left]; exact E.
  - apply canonical_is_least.
  - apply canonical_is_least.
  - apply canonical_tie.
  - apply canonical_idempotent. exact H.
  - apply canonical_of_flipped. exact H.
  - intros F ops net s Hs. apply evaluate_canonical; try reflexivity.
    simpl. rewrite Hs. apply canonical_of_flipped. exact H.
Qed.

(** The scenario of the specification: the initial board with a Black tile
    on (1,2), whose mirror image has the tile on (3,2). *)
Lemma canonical_flip_invariant_witness :
  Board_wf tilted_board
  /\ SymmetryOps.canonical (SymmetryOps.transform_board tilted_board SymmetryOps.FlipH)
     = SymmetryOps.canonical tilted_board
  /\ SymmetryOps.transform_board tilted_board SymmetryOps.FlipH
     = Board_set initial_board 3 2 (mkCell Player_None Tile_Black).
Proof.
  split; [reflexivity | split].
  - apply (canonical_flip_invariant tilted_board). reflexivity.
  - reflexivity.
Defined.

(** ** The 29-element state array *)

Section StateArray.

Import GameSession.

Lemma first_invalid_cell_none : forall array n i,
  first_invalid_cell array i n = None
  <-> (forall k, (i <= k < i + n)%nat -> 0 <= array_get array k <= 8).
Proof.
  intros array. induction n as [|n IH]; intro i; simpl.
  - split; [intros _ k Hk; lia | reflexivity].
  - destruct ((array_get array i <? 0) || (array_get array i >? 8)) eqn:E.
    + split; [discriminate|]. intro H. exfalso.
      specialize (H i ltac:(lia)).
      apply orb_true_iff in E. destruct E as [E | E].
      * apply Z.ltb_lt in E. lia.
      * apply Z.gtb_lt in E. lia.
    + apply orb_false_iff in E. destruct E as [E1 E2].
      apply Z.ltb_ge in E1. rewrite Z.gtb_ltb in E2. apply Z.ltb_ge in E2.
      rewrite IH. split.
      * intros H k Hk. destruct (Nat.eq_dec k i) as [-> | Hne]; [lia|].
        apply H. lia.
      * intros H k Hk. apply H. lia.
Qed.

Lemma check_inventory_none : forall array i hi,
  check_inventory array i hi = None <-> 0 <= array_get array i <= hi.
Proof.
  intros array i hi. unfold check_inventory.
  destruct ((array_get array i <? 0) || (array_get array i >? hi)) eqn:E.
  - split; [discriminate|]. intro H. exfalso.
    apply orb_true_iff in E. destruct E as [E | E].
    + apply Z.ltb_lt in E. lia.
    + apply Z.gtb_lt in E. lia.
  - apply orb_false_iff in E. destruct E as [E1 E2].
    apply Z.ltb_ge in E1. rewrite Z.gtb_ltb in E2. apply Z.ltb_ge in E2.
    split; [lia | reflexivity].
Qed.

Lemma decode_cell_valid : forall v,
  0 <= v <= 8 -> decode_cell v = Some (cell_of_code v).
Proof.
  intros v H. unfold decode_cell.
  assert (E1 : (v <? 0) = false) by (apply Z.ltb_ge; lia).
  assert (E2 : (v >? 8) = false) by (rewrite Z.gtb_ltb; apply Z.ltb_ge; lia).
  rewrite E1, E2. reflexivity.
Qed.

Lemma encode_cell_of_code : forall v,
  0 <= v <= 8 -> encode_cell (cell_of_code v) = v.
Proof.
  intros v H.
  assert (C : v = 0 \/ v = 1 \/ v = 2 \/ v = 3 \/ v = 4 \/ v = 5 \/ v = 6 \/ v = 7 \/ v = 8)
    by lia.
  destruct C as [-> | [-> | [-> | [-> | [-> | [-> | [-> | [-> | ->]]]]]]]]; reflexivity.
Qed.

(** With 25 valid codes the writing loop never stops early: it is the plain
    sequence of the 25 assignments. *)
Lemma apply_cells_valid : forall array cells b idx,
  (forall k, (idx <= k < idx + length cells)%nat -> 0 <= array_get array k <= 8) ->
  apply_cells array b cells idx
  = (fold_left (fun b' (e : Z * Z * nat) =>
                  let '(x, y, k) := e in Board_set b' x y (cell_of_code (array_get array k)))
               (combine cells (seq idx (length cells))) b,
     None).
Proof.
  intros array. induction cells as [|[x y] cells IH]; intros b idx H; simpl.
  - reflexivity.
  - rewrite decode_cell_valid by (apply H; simpl; lia).
    rewrite IH; [reflexivity|]. intros k Hk. apply H. simpl. lia.
Qed.

Lemma array_explicit : forall a : list Z,
  length a = 29%nat -> a = map (fun i => nth i a 0) (seq 0 29).
Proof.
  intros a H.
  apply nth_ext with (d := 0) (d' := 0).
  - rewrite length_map, length_seq. exact H.
  - intros n Hn. rewrite H in Hn.
    rewrite (nth_indep (map (fun i => nth i a 0) (seq 0 29)) 0
                       ((fun i => nth i a 0) 0%nat))
      by (rewrite length_map, length_seq; exact Hn).
    rewrite (map_nth (fun i => nth i a 0)).
    rewrite seq_nth by exact Hn. reflexivity.
Qed.

Lemma array_to_board_accepts : forall a s,
  fst (array_to_board a s) = decode_ok <-> valid_array a.
Proof.
  intros a s. unfold array_to_board, valid_array.
  destruct (Nat.eqb (length a) 29) eqn:El; cbn [negb].
  2:{ apply Nat.eqb_neq in El. simpl; split; [discriminate | tauto]. }
  apply Nat.eqb_eq in El.
  destruct (first_invalid_cell a 0 25) eqn:Ec.
  { simpl; split; [discriminate|]. intros [_ [Hc _]]. exfalso.
    assert (N : first_invalid_cell a 0 25 = None)
      by (apply first_invalid_cell_none; intros k Hk; apply Hc; lia).
    congruence. }
  pose proof (proj1 (first_invalid_cell_none a 25 0) Ec) as Hc.
  destruct (check_inventory a 25 3) eqn:E25.
  { simpl; split; [discriminate|]. intros [_ [_ [H _]]]. exfalso.
    apply check_inventory_none in H. unfold array_get in *. congruence. }
  destruct (check_inventory a 26 1) eqn:E26.
  { simpl; split; [discriminate|]. intros [_ [_ [_ [H _]]]]. exfalso.
    apply check_inventory_none in H. unfold array_get in *. congruence. }
  destruct (check_inventory a 27 3) eqn:E27.
  { simpl; split; [discriminate|]. intros [_ [_ [_ [_ [H _]]]]]. exfalso.
    apply check_inventory_none in H. unfold array_get in *. congruence. }
  destruct (check_inventory a 28 1) eqn:E28.
  { simpl; split; [discriminate|]. intros [_ [_ [_ [_ [_ H]]]]]. exfalso.
    apply check_inventory_none in H. unfold array_get in *. congruence. }
  apply check_inventory_none in E25, E26, E27, E28.
  rewrite apply_cells_valid by (intros k Hk; apply Hc; simpl in Hk; lia).
  simpl. split; [intros _ | reflexivity].
  unfold array_get in *.
  split; [exact El | split; [intros i Hi; apply Hc; lia | tauto]].
Qed.

Lemma array_to_board_rejects : forall a s,
  fst (array_to_board a s) <> decode_ok -> snd (array_to_board a s) = s.
Proof.
  intros a s. unfold array_to_board.
  destruct (Nat.eqb (length a) 29); cbn [negb]; [|reflexivity].
  destruct (first_invalid_cell a 0 25) eqn:Ec; [reflexivity|].
  pose proof (proj1 (first_invalid_cell_none a 25 0) Ec) as Hc.
  destruct (check_inventory a 25 3); [reflexivity|].
  destruct (check_inventory a 26 1); [reflexivity|].
  destruct (check_inventory a 27 3); [reflexivity|].
  destruct (check_inventory a 28 1); [reflexivity|].
  rewrite apply_cells_valid by (intros k Hk; apply Hc; simpl in Hk; lia).
  simpl. intro H. exfalso. apply H. reflexivity.
Qed.

Lemma written_board : forall (array : list Z) (b : Board),
  Board_wf b ->
  fold_left (fun b' (e : Z * Z * nat) =>
               let '(x, y, k) := e in Board_set b' x y (cell_of_code (array_get array k)))
            (combine cells_xy (seq 0 (length cells_xy))) b
  = map (fun i => cell_of_code (array_get array i)) (seq 0 25).
Proof. intros array b H. explicit_board b H. reflexivity. Qed.

Lemma codes_of_written : forall g : nat -> Cell,
  map (fun xy : Z * Z => let '(x, y) := xy in encode_cell (Board_at (map g (seq 0 25)) x y))
      cells_xy
  = map (fun i => encode_cell (g i)) (seq 0 25).
Proof. intro g. reflexivity. Qed.

Lemma array_to_board_roundtrip : forall a s,
  Board_wf (board s) ->
  fst (array_to_board a s) = decode_ok ->
  board_to_array (snd (array_to_board a s)) = a.
Proof.
  intros a s Hwf Hok.
  pose proof (proj1 (array_to_board_accepts a s) Hok) as [Hl [Hc [H25 [H26 [H27 H28]]]]].
  clear Hok. unfold array_to_board.
  rewrite Hl. simpl negb. cbv iota.
  assert (Ec : first_invalid_cell a 0 25 = None)
    by (apply first_invalid_cell_none; intros k Hk; apply Hc; lia).
  rewrite Ec.
  rewrite (proj2 (check_inventory_none a 25 3) H25).
  rewrite (proj2 (check_inventory_none a 26 1) H26).
  rewrite (proj2 (check_inventory_none a 27 3) H27).
  rewrite (proj2 (check_inventory_none a 28 1) H28).
  rewrite apply_cells_valid by (intros k Hk; apply Hc; simpl in Hk; lia).
  rewrite (written_board a (board s) Hwf).
  cbv beta iota. unfold snd, board_to_array, inventory.
  cbn [board inv_black inv_white black gray].
  rewrite (codes_of_written (fun i => cell_of_code (array_get a i))).
  rewrite (map_ext_in (fun i => encode_cell (cell_of_code (array_get a i)))
                      (fun i => nth i a 0)).
  - transitivity (map (fun i => nth i a 0) (seq 0 29));
      [reflexivity | symmetry; apply array_explicit; exact Hl].
  - intros i Hi. apply in_seq in Hi. apply encode_cell_of_code. apply Hc. lia.
Qed.

(** C6.  Decoding an integer array succeeds exactly when it has 29 elements
    with the 25 cell codes in 0..8 and the four inventory slots in 0..3,
    0..1, 0..3, 0..1; a rejected array leaves the state (board and both
    inventories) as it was; and after a successful decode into a state whose
    board is an array of 25 cells the encoder gives the array back.  The side
    to move is not part of the array: decoding keeps it. *)
Theorem state_array_roundtrip : forall (a : list Z) (s : GameState),
  (fst (GameSession.array_to_board a s) = GameSession.decode_ok
   <-> GameSession.valid_array a)
  /\ (fst (GameSession.array_to_board a s) <> GameSession.decode_ok ->
      snd (GameSession.array_to_board a s) = s)
  /\ (Board_wf (board s) ->
      fst (GameSession.array_to_board a s) = GameSession.decode_ok ->
      GameSession.board_to_array (snd (GameSession.array_to_board a s)) = a
      /\ to_move_ (snd (GameSession.array_to_board a s)) = to_move_ s).
Proof.
  intros a s. split; [apply array_to_board_accepts | split].
  - apply array_to_board_rejects.
  - intros Hwf Hok. split; [apply array_to_board_roundtrip; assumption|].
    pose proof (proj1 (array_to_board_accepts a s) Hok) as [Hl [Hc [H25 [H26 [H27 H28]]]]].
    unfold array_to_board. rewrite Hl. simpl negb. cbv iota.
    assert (Ec : first_invalid_cell a 0 25 = None)
      by (apply first_invalid_cell_none; intros k Hk; apply Hc; lia).
    rewrite Ec.
    rewrite (proj2 (check_inventory_none a 25 3) H25).
    rewrite (proj2 (check_inventory_none a 26 1) H26).
    rewrite (proj2 (check_inventory_none a 27 3) H27).
    rewrite (proj2 (check_inventory_none a 28 1) H28).
    rewrite apply_cells_valid by (intros k Hk; apply Hc; simpl in Hk; lia).
    reflexivity.
Qed.

End StateArray.

(** The initial position: its array decodes into any session state with a
    25-cell board and encodes back to itself. *)
Lemma state_array_roundtrip_witness :
  let a := [3; 3; 3; 3; 3; 0; 0; 0; 0; 0; 0; 0; 0; 0; 0; 0; 0; 0; 0; 0;
            6; 6; 6; 6; 6; 3; 1; 3; 1] in
  Board_wf (board jump_state)
  /\ fst (GameSession.array_to_board a jump_state) = GameSession.decode_ok
  /\ GameSession.board_to_array (snd (GameSession.array_to_board a jump_state)) = a
  /\ GameSession.board_to_array reset = a.
Proof.
  intro a. split; [reflexivity | split; [reflexivity | split; [| reflexivity]]].
  apply (proj2 (proj2 (state_array_roundtrip a jump_state))); reflexivity.
Defined.

(** ** Machine integers *)

Lemma wrap_int32_small : forall z, - 2 ^ 31 <= z < 2 ^ 31 -> wrap_int32 z = z.
Proof.
  intros z H. unfold wrap_int32. rewrite Z.mod_small by lia. lia.
Qed.

Lemma wrap_int64_small : forall z, - 2 ^ 63 <= z < 2 ^ 63 -> wrap_int64 z = z.
Proof.
  intros z H. unfold wrap_int64. rewrite Z.mod_small by lia. lia.
Qed.

(** ** Starting player of the self-play games *)

Lemma start_player_parity : forall game_num,
  0 <= game_num < 2 ^ 31 - 1 ->
  SelfPlay.start_player_of game_num = SelfPlay.parity_player (game_num + 1).
Proof.
  intros n H. unfold SelfPlay.start_player_of, SelfPlay.parity_player, i32_add.
  rewrite wrap_int32_small by lia.
  rewrite Z.rem_mod_nonneg by lia.
  rewrite Zmod_odd. destruct (Z.odd (n + 1)); reflexivity.
Qed.

Section Workers.

Import SelfPlay.

Variables (target_games : Z) (workers : nat).
Hypothesis target_nonneg : 0 <= target_games.
Hypothesis counter_fits : target_games + Z.of_nat workers < 2 ^ 31.

Lemma claims_invariant_init :
  claims_invariant target_games workers (shared_init workers).
Proof.
  unfold claims_invariant, shared_init. simpl.
  repeat split; try lia. constructor.
Qed.

Lemma claims_invariant_step : forall sh sh',
  claims_invariant target_games workers sh ->
  worker_claim target_games sh = Some sh' ->
  claims_invariant target_games workers sh'.
Proof.
  intros sh sh' [H0 [Hb [Hl [Hn Hf]]]] Hstep. unfold worker_claim in Hstep.
  destruct (running sh) as [|others] eqn:Er; [discriminate Hstep|].
  assert (Hw : i32_add (games_completed sh) 1 = games_completed sh + 1).
  { unfold i32_add. apply wrap_int32_small. lia. }
  rewrite Hw in Hstep.
  destruct (games_completed sh >=? target_games) eqn:Eg;
    inversion Hstep; subst sh'; clear Hstep; unfold claims_invariant; simpl.
  - rewrite Z.geb_le in Eg.
    split; [lia | split; [lia | split; [lia | split; assumption]]].
  - assert (Hlt : games_completed sh < target_games).
    { destruct (Z.geb_spec (games_completed sh) target_games); [discriminate | lia]. }
    rewrite length_app. simpl length.
    split; [lia | split; [lia | split; [lia | split]]].
    + rewrite map_app, Hn. simpl map.
      replace (length (started sh) + 1)%nat with (S (length (started sh))) by lia.
      rewrite seq_S, map_app. simpl. f_equal. f_equal. lia.
    + apply Forall_app. split; [exact Hf|]. constructor; [|constructor]. simpl.
      rewrite start_player_parity by lia. reflexivity.
Qed.

Lemma reachable_invariant : forall sh,
  reachable target_games workers sh -> claims_invariant target_games workers sh.
Proof.
  intros sh H. induction H as [|sh sh' _ IH Hstep].
  - apply claims_invariant_init.
  - exact (claims_invariant_step sh sh' IH Hstep).
Qed.

End Workers.

(** In the self-play trainer, whatever the interleaving of the workers'
    claims on the game counter, the games started are numbered 1, 2, 3, ...
    in the order they were claimed, and the first state of game n has White
    to move when n is odd and Black to move when n is even. *)
Lemma start_player_alternates : forall (target_games : Z) (workers : nat)
    (sh : SelfPlay.Shared),
  0 <= target_games ->
  target_games + Z.of_nat workers < 2 ^ 31 ->
  SelfPlay.reachable target_games workers sh ->
  map SelfPlay.game_no (SelfPlay.started sh)
  = map Z.of_nat (seq 1 (length (SelfPlay.started sh)))
  /\ (forall g, In g (SelfPlay.started sh) ->
        1 <= SelfPlay.game_no g <= target_games
        /\ to_move_ (SelfPlay.first_state g)
           = if Z.odd (SelfPlay.game_no g) then Player_White else Player_Black).
Proof.
  intros target_games workers sh Ht Hc Hr.
  destruct (reachable_invariant target_games workers Ht Hc sh Hr)
    as [H0 [Hb [Hl [Hn Hf]]]].
  split; [exact Hn|]. intros g Hg. split.
  - assert (Hin : In (SelfPlay.game_no g) (map SelfPlay.game_no (SelfPlay.started sh)))
      by (apply in_map; exact Hg).
    rewrite Hn in Hin. apply in_map_iff in Hin. destruct Hin as [k [Ek Hk]].
    apply in_seq in Hk. lia.
  - rewrite Forall_forall in Hf. rewrite (Hf g Hg). reflexivity.
Qed.

(** ** Starting player of the parallel trainer's games *)

Section ParallelWorkers.

Import ParallelTrainer.

Variables (target_games : Z) (workers : nat).
Hypothesis target_nonneg : 0 <= target_games.
Hypothesis counter_fits : target_games + Z.of_nat workers < 2 ^ 31.

Lemma parallel_invariant_init :
  claims_invariant target_games workers (shared_init workers).
Proof.
  unfold claims_invariant, shared_init. simpl.
  repeat split; try lia. constructor.
Qed.

Lemma parallel_invariant_step : forall sh sh',
  claims_invariant target_games workers sh ->
  worker_claim target_games sh = Some sh' ->
  claims_invariant target_games workers sh'.
Proof.
  intros sh sh' [H0 [Hb [Hl [Hn Hf]]]] Hstep. unfold worker_claim in Hstep.
  destruct (running sh) as [|others] eqn:Er; [discriminate Hstep|].
  assert (Hw : i32_add (games_completed sh) 1 = games_completed sh + 1).
  { unfold i32_add. apply wrap_int32_small. lia. }
  rewrite Hw in Hstep.
  destruct (games_completed sh >=? target_games) eqn:Eg;
    inversion Hstep; subst sh'; clear Hstep; unfold claims_invariant; simpl.
  - rewrite Z.geb_le in Eg.
    split; [lia | split; [lia | split; [lia | split; assumption]]].
  - assert (Hlt : games_completed sh < target_games).
    { destruct (Z.geb_spec (games_completed sh) target_games); [discriminate | lia]. }
    rewrite length_app. simpl length.
    split; [lia | split; [lia | split; [lia | split]]].
    + rewrite map_app, Hn. simpl map.
      replace (length (started sh) + 1)%nat with (S (length (started sh))) by lia.
      rewrite seq_S, map_app. simpl. f_equal. f_equal. lia.
    + apply Forall_app. split; [exact Hf|]. constructor; [|constructor]. reflexivity.
Qed.

Lemma parallel_reachable_invariant : forall sh,
  reachable target_games workers sh -> claims_invariant target_games workers sh.
Proof.
  intros sh H. induction H as [|sh sh' _ IH Hstep].
  - apply parallel_invariant_init.
  - exact (parallel_invariant_step sh sh' IH Hstep).
Qed.

End ParallelWorkers.

(** C9, as the code has it.  In the parallel trainer, whatever the
    interleaving of the workers' claims on the game counter, the games
    started carry the counter values 0, 1, 2, ... below the target in the
    order they were claimed, and every one of them, whatever its number,
    starts from the reset position with Black to move.  The alternation by
    game parity is the rule of the self-play trainer: there the games are
    numbered 1, 2, 3, ... and game n starts with White to move when n is odd
    and with Black to move when n is even. *)
Theorem trainer_start_players : forall (target_games : Z) (workers : nat),
  0 <= target_games ->
  target_games + Z.of_nat workers < 2 ^ 31 ->
  (forall sh : ParallelTrainer.Shared,
     ParallelTrainer.reachable target_games workers sh ->
     map ParallelTrainer.game_num (ParallelTrainer.started sh)
     = map Z.of_nat (seq 0 (length (ParallelTrainer.started sh)))
     /\ (forall g, In g (ParallelTrainer.started sh) ->
           0 <= ParallelTrainer.game_num g < target_games
           /\ ParallelTrainer.first_state g = reset
           /\ to_move_ (ParallelTrainer.first_state g) = Player_Black))
  /\ (forall sh : SelfPlay.Shared,
     SelfPlay.reachable target_games workers sh ->
     map SelfPlay.game_no (SelfPlay.started sh)
     = map Z.of_nat (seq 1 (length (SelfPlay.started sh)))
     /\ (forall g, In g (SelfPlay.started sh) ->
           1 <= SelfPlay.game_no g <= target_games
           /\ to_move_ (SelfPlay.first_state g)
              = if Z.odd (SelfPlay.game_no g) then Player_White else Player_Black)).
Proof.
  intros target_games workers Ht Hc. split.
  - intros sh Hr.
    destruct (parallel_reachable_invariant target_games workers Ht Hc sh Hr)
      as [H0 [Hb [Hl [Hn Hf]]]].
    split; [exact Hn|]. intros g Hg.
    assert (Hin : In (ParallelTrainer.game_num g)
                     (map ParallelTrainer.game_num (ParallelTrainer.started sh)))
      by (apply in_map; exact Hg).
    rewrite Hn in Hin. apply in_map_iff in Hin. destruct Hin as [k [Ek Hk]].
    apply in_seq in Hk.
    rewrite Forall_forall in Hf. rewrite (Hf g Hg).
    split; [lia | split; reflexivity].
  - intros sh Hr. exact (start_player_alternates target_games workers sh Ht Hc Hr).
Qed.

(** Three games claimed by two workers: Black, Black, Black in the parallel
    trainer; White, Black, White in the self-play trainer. *)
Lemma trainer_start_players_witness :
  (exists sh,
     ParallelTrainer.reachable 3 2 sh
     /\ map (fun g => to_move_ (ParallelTrainer.first_state g))
            (ParallelTrainer.started sh)
        = [Player_Black; Player_Black; Player_Black]
     /\ map ParallelTrainer.game_num (ParallelTrainer.started sh) = [0; 1; 2])
  /\ (exists sh,
     SelfPlay.reachable 3 2 sh
     /\ map (fun g => to_move_ (SelfPlay.first_state g)) (SelfPlay.started sh)
        = [Player_White; Player_Black; Player_White]
     /\ map SelfPlay.game_no (SelfPlay.started sh) = [1; 2; 3]).
Proof.
  pose proof (trainer_start_players 3 2 ltac:(lia) ltac:(simpl; lia)) as [Hpar Hself].
  split.
  - pose proof (ParallelTrainer.reach_init 3 2) as R0.
    pose proof (ParallelTrainer.reach_claim 3 2 _ _ R0 eq_refl) as R1.
    pose proof (ParallelTrainer.reach_claim 3 2 _ _ R1 eq_refl) as R2.
    pose proof (ParallelTrainer.reach_claim 3 2 _ _ R2 eq_refl) as R3.
    eexists. split; [exact R3|]. destruct (Hpar _ R3) as [Hn _].
    split; [reflexivity | rewrite Hn; reflexivity].
  - pose proof (SelfPlay.reach_init 3 2) as R0.
    pose proof (SelfPlay.reach_claim 3 2 _ _ R0 eq_refl) as R1.
    pose proof (SelfPlay.reach_claim 3 2 _ _ R1 eq_refl) as R2.
    pose proof (SelfPlay.reach_claim 3 2 _ _ R2 eq_refl) as R3.
    eexists. split; [exact R3|]. destruct (Hself _ R3) as [Hn _].
    split; [reflexivity | rewrite Hn; reflexivity].
Defined.

(** The claim's parity rule fails on the parallel trainer: two games claimed
    by one worker, with the counter values 0 and 1 (the first and the second
    game), both start with Black to move.  So the first game, odd in the
    count from 1, does not start with White, and neither does the game with
    the odd counter value 1. *)
Lemma parallel_trainer_odd_game_black :
  exists sh g1 g2,
    ParallelTrainer.reachable 2 1 sh
    /\ ParallelTrainer.started sh = [g1; g2]
    /\ ParallelTrainer.game_num g1 = 0
    /\ ParallelTrainer.game_num g2 = 1
    /\ to_move_ (ParallelTrainer.first_state g1) = Player_Black
    /\ to_move_ (ParallelTrainer.first_state g2) = Player_Black
    /\ to_move_ (ParallelTrainer.first_state g1) <> Player_White
    /\ to_move_ (ParallelTrainer.first_state g2) <> Player_White.
Proof.
  pose proof (ParallelTrainer.reach_init 2 1) as R0.
  pose proof (ParallelTrainer.reach_claim 2 1 _ _ R0 eq_refl) as R1.
  pose proof (ParallelTrainer.reach_claim 2 1 _ _ R1 eq_refl) as R2.
  eexists. eexists. eexists. split; [exact R2|].
  split; [reflexivity|]. repeat split; try reflexivity; discriminate.
Qed.

(** The parallel trainer has no rule for the starting player: each of its
    games starts from the reset position, Black to move. *)
Lemma parallel_trainer_starts_black : forall game_num,
  to_move_ (ParallelTrainer.game_start game_num) = Player_Black.
Proof. intro game_num. reflexivity. Qed.

(** ** Loading weights *)

Section Load.

Context {F : Type} {ops : FloatOps F}.
Variable max_size : Z.

(** C8.  When the stored pattern count differs from the size of the catalogue
    in memory, [load] returns normally and the network, every weight table
    of it, is exactly as before; the wrapper [NTuplePolicy::load] then
    answers [true].  So a call that changed the weights, or that ended in an
    exception, was given a file whose count matches. *)
Theorem load_mismatch_keeps_weights :
  (forall (net : NTupleNetwork F) (num_tuples : Z) (tables : list (list F)),
     num_tuples <> Z.of_nat (length (tuples_ net)) ->
     load max_size (file_data num_tuples tables) net = load_returned net
     /\ NTuplePolicy_load max_size (file_data num_tuples tables) net = Some (true, net))
  /\ (forall (file : WeightFile F) (net net' : NTupleNetwork F),
        (load max_size file net = load_returned net' /\ net' <> net)
        \/ load max_size file net = load_threw net' ->
        exists tables,
          file = file_data (Z.of_nat (length (tuples_ net))) tables).
Proof.
  split.
  - intros net num_tuples tables Hne.
    assert (E : load max_size (file_data num_tuples tables) net = load_returned net).
    { unfold load. apply Z.eqb_neq in Hne. rewrite Hne. reflexivity. }
    split; [exact E|]. unfold NTuplePolicy_load. rewrite E. reflexivity.
  - intros file net net' H. destruct file as [| | num_tuples tables]; simpl in H.
    + destruct H as [[H Hne] | H]; [inversion H; congruence | discriminate H].
    + destruct H as [[H _] | H]; discriminate H.
    + destruct (num_tuples =? Z.of_nat (length (tuples_ net))) eqn:E.
      * apply Z.eqb_eq in E. subst num_tuples. exists tables. reflexivity.
      * simpl in H. destruct H as [[H Hne] | H]; [inversion H; congruence | discriminate H].
Qed.

End Load.

(** A file with eleven tables against the catalogue of twelve. *)
Lemma load_mismatch_keeps_weights_witness :
  11 <> Z.of_nat (length (tuples_ (NTupleNetwork_new (F := spec_float))))
  /\ load vector_float_max_size eleven_tables_file NTupleNetwork_new
     = load_returned NTupleNetwork_new.
Proof.
  split; [vm_compute; discriminate|].
  apply (proj1 (load_mismatch_keeps_weights (F := spec_float) vector_float_max_size)
               NTupleNetwork_new 11 (repeat [f_half] 11)).
  vm_compute. discriminate.
Defined.

(** C8 as stated does not hold: the refused file is not reported.  The call
    ends like a successful one and [NTuplePolicy::load] answers [true]. *)
Lemma load_mismatch_not_reported :
  ~ load_reports_error (load vector_float_max_size eleven_tables_file
                             (NTupleNetwork_new (F := spec_float)))
  /\ NTuplePolicy_load vector_float_max_size eleven_tables_file
                       (NTupleNetwork_new (F := spec_float))
     = Some (true, NTupleNetwork_new).
Proof.
  split.
  - intro H. exact H.
  - reflexivity.
Qed.

(** ** The pattern index *)

Lemma encode_cell_range : forall c, 0 <= encode_cell c <= 8.
Proof. intros [[] []]; vm_compute; split; discriminate. Qed.

Lemma index_step_exact : forall (b : Board) (idx c : Z) (k : nat),
  0 <= c < 25 -> 0 <= idx < 9 ^ Z.of_nat k -> (k < 19)%nat ->
  NTupleOps.index_step b 0 0 idx c
  = idx * 9 + encode_cell (Board_at b (c mod 5) (c / 5))
  /\ 0 <= NTupleOps.index_step b 0 0 idx c < 9 ^ Z.of_nat (S k).
Proof.
  intros b idx c k Hc Hidx Hk.
  assert (Hpow : 9 ^ Z.of_nat (S k) = 9 * 9 ^ Z.of_nat k)
    by (rewrite Nat2Z.inj_succ; apply Z.pow_succ_r; lia).
  assert (Hmax : 9 ^ Z.of_nat (S k) <= 9 ^ 19)
    by (apply Z.pow_le_mono_r; lia).
  assert (H19 : 9 ^ 19 < 2 ^ 63) by (vm_compute; reflexivity).
  unfold NTupleOps.index_step, i32_add, i64_add, i64_mul, BOARD_W, BOARD_H.
  rewrite Z.rem_mod_nonneg by lia. rewrite Z.quot_div_nonneg by lia.
  pose proof (Z.mod_pos_bound c 5 ltac:(lia)) as Hx.
  assert (Hy : 0 <= c / 5 < 5)
    by (split; [apply Z.div_pos; lia | apply Z.div_lt_upper_bound; lia]).
  rewrite !(wrap_int32_small (0 + _)) by lia. rewrite !Z.add_0_l.
  assert (E : (c mod 5 <? 0) || (c mod 5 >=? 5) || (c / 5 <? 0) || (c / 5 >=? 5) = false).
  { rewrite !orb_false_iff. repeat split;
      first [apply Z.ltb_ge; lia | rewrite Z.geb_leb; apply Z.leb_gt; lia]. }
  rewrite E.
  pose proof (encode_cell_range (Board_at b (c mod 5) (c / 5))) as Hcode.
  rewrite (wrap_int64_small (idx * 9)) by lia.
  rewrite wrap_int64_small by lia. split; [reflexivity | lia].
Qed.

Lemma fold_index_exact : forall (b : Board) (cells : list Z) (idx : Z) (k : nat),
  (forall c, In c cells -> 0 <= c < 25) ->
  0 <= idx < 9 ^ Z.of_nat k -> (k + length cells <= 19)%nat ->
  fold_left (NTupleOps.index_step b 0 0) cells idx
  = fold_left (fun i c => i * 9 + encode_cell (Board_at b (c mod 5) (c / 5))) cells idx
  /\ 0 <= fold_left (NTupleOps.index_step b 0 0) cells idx
       < 9 ^ Z.of_nat (k + length cells).
Proof.
  intros b. induction cells as [|c cells IH]; intros idx k Hc Hidx Hk; simpl.
  - rewrite Nat.add_0_r. split; [reflexivity | exact Hidx].
  - simpl in Hk.
    destruct (index_step_exact b idx c k (Hc c (or_introl eq_refl)) Hidx ltac:(lia))
      as [E Hb].
    destruct (IH (NTupleOps.index_step b 0 0 idx c) (S k)
                 (fun c' H => Hc c' (or_intror H)) Hb ltac:(lia)) as [E' Hb'].
    rewrite E'. rewrite E. split; [reflexivity|].
    rewrite <- E, <- E'. replace (k + S (length cells))%nat with (S k + length cells)%nat by lia.
    exact Hb'.
Qed.

Lemma encode_tile_inventory_exact : forall inv,
  inventory_in_range inv ->
  NTupleOps.encode_tile_inventory (black inv) (gray inv) = black inv + 4 * gray inv.
Proof.
  intros inv [Hb Hg]. unfold NTupleOps.encode_tile_inventory, i32_add, i32_mul.
  rewrite (wrap_int32_small (gray inv * 4)) by lia.
  rewrite wrap_int32_small by lia. lia.
Qed.

(** What [NTuple::to_index] returns is the index of the specification:
    [idx*64 + T], with no wrap in [long long] for the patterns of the
    catalogue. *)
Lemma to_index_final_idx : forall (t : NTuple) (s : GameState),
  In t init_tuples ->
  inventory_in_range (inv_black s) -> inventory_in_range (inv_white s) ->
  NTupleOps.to_index t s 0 0 = Spec.final_idx t s
  /\ 0 <= Spec.final_idx t s < NTupleOps.num_states t.
Proof.
  intros t s Hin Hb Hw.
  assert (Ht : num_cells t = 9%nat /\ length (cell_indices t) = 9%nat
               /\ forall c, In c (cell_indices t) -> 0 <= c < 25).
  { unfold init_tuples, base_patterns in Hin. simpl in Hin.
    repeat (destruct Hin as [<- | Hin];
            [simpl; split; [reflexivity | split; [reflexivity | intros c Hc; lia]]|]).
    contradiction. }
  destruct Ht as [Hn [Hl Hc]].
  unfold NTupleOps.to_index, Spec.final_idx, Spec.board_idx, Spec.tile_idx.
  rewrite Hn, <- Hl, firstn_all.
  destruct (fold_index_exact (board s) (cell_indices t) 0 0 Hc ltac:(simpl; lia)
                             ltac:(simpl; lia)) as [E Hbound].
  rewrite Hl in Hbound. change (9 ^ Z.of_nat (0 + 9)) with 387420489 in Hbound.
  rewrite E in Hbound |- *.
  unfold inventory. rewrite !encode_tile_inventory_exact by assumption.
  destruct Hb as [Hb1 Hb2]. destruct Hw as [Hw1 Hw2].
  unfold i64_add, i64_mul, i32_add, i32_mul.
  rewrite (wrap_int32_small (_ * 8)) by lia.
  rewrite wrap_int32_small by lia.
  rewrite (wrap_int64_small (_ * 64)) by lia.
  rewrite wrap_int64_small by lia.
  assert (Hs : NTupleOps.num_states t = 24794911296)
    by (unfold NTupleOps.num_states; rewrite Hn; vm_compute; reflexivity).
  rewrite Hs. split; lia.
Qed.

(** ** Evaluation: the index is narrowed to [int] *)

(** C3 (the engine against the formula).  [to_index] computes the index
    [idx*64 + T] of the specification, but [evaluate] stores it in an [int]
    before it indexes the weight table.  In the initial position the first
    pattern has index 9297934335 and the table is read at 707999743: after
    one update of the initial position (target 1.0, rate 0.1) [evaluate]
    gives 0.55000007 where the sum of the weights at the specified indices
    is 0.52916676.  In the position after Black's first move (0,0)->(0,1)
    the second pattern has index 8264970495, the narrowed index is
    -324964097 and the read falls outside the table. *)
Theorem evaluate_index_narrowed :
  NTupleOps.to_index (pattern 0) (canonical_state_of reset) 0 0 = 9297934335
  /\ Spec.final_idx (pattern 0) (canonical_state_of reset) = 9297934335
  /\ feature_index (pattern 0) (canonical_state_of reset) = 707999743
  /\ evaluate_after_update (F := spec_float) NTupleNetwork_new reset b32_one b32_tenth
     = Some (S754_finite false 9227470 (-24))
  /\ match td_update (F := spec_float) NTupleNetwork_new reset b32_one b32_tenth with
     | Some net => Spec.evaluate net reset
     | None => None
     end = Some (S754_finite false 8877944 (-24))
  /\ Spec.final_idx (pattern 1) (canonical_state_of after_first_move) = 8264970495
  /\ feature_index (pattern 1) (canonical_state_of after_first_move) = -324964097
  /\ evaluate (F := spec_float) NTupleNetwork_new after_first_move = None
  /\ Spec.evaluate (F := spec_float) NTupleNetwork_new after_first_move
     = Some (S754_finite true 16777214 (-25)).
Proof.
  repeat split; vm_compute; reflexivity.
Qed.

(** Apart from the index, [evaluate] is the sum the specification describes:
    wherever every pattern's index fits an [int] the two agree. *)
Lemma sum_weights_agree : forall (F : Type) (ops : FloatOps F)
    (ts : list NTuple) (ws : list (FloatVec F)) (cs : GameState) (acc : F),
  Forall (fun t => NTupleOps.to_index t cs 0 0 = Spec.final_idx t cs
                   /\ - 2 ^ 31 <= Spec.final_idx t cs < 2 ^ 31) ts ->
  sum_weights ts ws cs acc = Spec.sum_weights ts ws cs acc.
Proof.
  intros F ops. induction ts as [|t ts IH]; intros ws cs acc H; simpl.
  - destruct ws; reflexivity.
  - inversion H as [|? ? [E Hr] Hrest]; subst.
    destruct ws as [|w ws]; [reflexivity|].
    unfold feature_index. rewrite E, wrap_int32_small by exact Hr.
    destruct (vec_at w (Spec.final_idx t cs)); [apply IH; exact Hrest | reflexivity].
Qed.

(** ** TD(0) update *)

Section TDUpdate.

Context {F : Type} {ops : FloatOps F}.

Lemma vec_at_set_same : forall (w : FloatVec F) idx x y,
  vec_at w idx = Some x -> vec_at (vec_set w idx y) idx = Some y.
Proof.
  intros w idx x y H. unfold vec_at, vec_set in *. simpl.
  destruct ((0 <=? idx) && (idx <? fv_size w)); [|discriminate H].
  rewrite Z.eqb_refl. reflexivity.
Qed.

Lemma sum_weights_shifted_cons : forall t ts (w : FloatVec F) ws cs delta acc,
  sum_weights_shifted (t :: ts) (w :: ws) cs delta acc
  = match vec_at w (feature_index t cs) with
    | None => None
    | Some x => sum_weights_shifted ts ws cs delta (f_add acc (f_add x delta))
    end.
Proof. reflexivity. Qed.

(** Where the sum of [evaluate] is defined, the update loop succeeds, and
    the sum over the updated tables reads every weight with [delta] added. *)
Lemma update_then_sum : forall (ts : list NTuple) (ws : list (FloatVec F))
    (cs : GameState) (delta acc v : F),
  sum_weights ts ws cs acc = Some v ->
  exists ws',
    update_weights ts ws cs delta = Some ws'
    /\ forall acc', exists v',
         sum_weights ts ws' cs acc' = Some v'
         /\ sum_weights_shifted ts ws cs delta acc' = Some v'.
Proof.
  induction ts as [|t ts IH]; intros ws cs delta acc v H.
  - exists ws. split; [reflexivity|]. intro acc'. exists acc'. split; reflexivity.
  - destruct ws as [|w ws]; [discriminate H|].
    cbn [sum_weights] in H.
    destruct (vec_at w (feature_index t cs)) as [x|] eqn:Ex; [|discriminate H].
    destruct (IH ws cs delta _ v H) as [ws' [Eu Es]].
    exists (vec_set w (feature_index t cs) (f_add x delta) :: ws'). split.
    + cbn [update_weights]. rewrite Ex, Eu. reflexivity.
    + intro acc'. destruct (Es (f_add acc' (f_add x delta))) as [v' [E1 E2]].
      exists v'. split.
      * cbn [sum_weights]. rewrite (vec_at_set_same w _ x _ Ex). exact E1.
      * rewrite sum_weights_shifted_cons, Ex. exact E2.
Qed.

Lemma evaluate_shifted_unfold : forall (net : NTupleNetwork F) s delta,
  evaluate_shifted net s delta
  = match sum_weights_shifted (tuples_ net) (weights_ net) (canonical_state_of s)
                              delta f_zero with
    | None => None
    | Some value =>
        if Player_eqb (current_player s) Player_White
        then Some (f_neg value) else Some value
    end.
Proof. reflexivity. Qed.

(** One [td_update] on a state where [evaluate] is defined: the call goes
    through, the patterns stay, and [evaluate] of that state afterwards is
    the sum of the same weights, each with the increment added. *)
Lemma td_update_shifts : forall (net : NTupleNetwork F) (s : GameState) (t lr cur : F),
  evaluate net s = Some cur ->
  exists net' cur',
    td_update net s t lr = Some net'
    /\ tuples_ net' = tuples_ net
    /\ evaluate net' s = Some cur'
    /\ evaluate_shifted net s (td_increment net s t lr cur) = Some cur'.
Proof.
  intros net s t lr cur Hev. unfold evaluate in Hev.
  unfold td_update, td_increment. rewrite evaluate_shifted_unfold.
  destruct (sum_weights (tuples_ net) (weights_ net) (canonical_state_of s) f_zero)
    as [raw|] eqn:Es; [|discriminate Hev].
  destruct (Player_eqb (current_player s) Player_White) eqn:Ew;
    inversion Hev; subst cur; clear Hev.
  - destruct (update_then_sum _ _ _
                (f_mul (f_div lr (f_of_size (Z.of_nat (length (tuples_ net)))))
                       (f_neg (f_sub t (f_neg raw)))) _ _ Es) as [ws' [Eu Esum]].
    destruct (Esum f_zero) as [v' [E1 E2]].
    rewrite Eu. exists (mkNet (tuples_ net) ws'), (f_neg v').
    split; [reflexivity | split; [reflexivity|]].
    unfold evaluate. cbn [tuples_ weights_]. rewrite E1, E2, Ew. split; reflexivity.
  - destruct (update_then_sum _ _ _
                (f_mul (f_div lr (f_of_size (Z.of_nat (length (tuples_ net)))))
                       (f_sub t raw)) _ _ Es) as [ws' [Eu Esum]].
    destruct (Esum f_zero) as [v' [E1 E2]].
    rewrite Eu. exists (mkNet (tuples_ net) ws'), v'.
    split; [reflexivity | split; [reflexivity|]].
    unfold evaluate. cbn [tuples_ weights_]. rewrite E1, E2, Ew. split; reflexivity.
Qed.

End TDUpdate.

(** ** The fresh network *)

Lemma vec_at_fill : forall (F : Type) (n i : Z) (x y : F),
  vec_at (vec_fill n x) i = Some y -> y = x.
Proof.
  intros F n i x y H. unfold vec_at, vec_fill in H. cbn [fv_size fv_get] in H.
  destruct ((0 <=? i) && (i <? n)); inversion H; reflexivity.
Qed.

Lemma sum_weights_cons : forall (F : Type) (ops : FloatOps F) t ts (w : FloatVec F) ws cs acc,
  sum_weights (t :: ts) (w :: ws) cs acc
  = match vec_at w (feature_index t cs) with
    | None => None
    | Some x => sum_weights ts ws cs (f_add acc x)
    end.
Proof. reflexivity. Qed.

Lemma sum_fresh : forall (F : Type) (ops : FloatOps F) (w0 : F) (size : NTuple -> Z)
    (ts : list NTuple) (cs : GameState) (acc v : F),
  sum_weights ts (map (fun t => vec_fill (size t) w0) ts) cs acc = Some v ->
  v = fold_left (fun a (_ : NTuple) => f_add a w0) ts acc.
Proof.
  intros F ops w0 size. induction ts as [|t ts IH]; intros cs acc v H.
  - inversion H. reflexivity.
  - rewrite map_cons, sum_weights_cons in H.
    destruct (vec_at (vec_fill (size t) w0) (feature_index t cs)) as [x|] eqn:E;
      [|discriminate H].
    apply vec_at_fill in E. subst x.
    exact (IH cs _ v H).
Qed.

Lemma fresh_network_tables :
  tuples_ (NTupleNetwork_new (F := spec_float)) = init_tuples
  /\ weights_ (NTupleNetwork_new (F := spec_float))
     = map (fun t => vec_fill (NTupleOps.num_states t) (S754_finite false 11184811 (-28)))
           init_tuples.
Proof.
  split; [reflexivity|].
  assert (E : f_div f_half (f_of_size (Z.of_nat (length init_tuples)))
              = S754_finite false 11184811 (-28)) by (vm_compute; reflexivity).
  unfold NTupleNetwork_new. cbn [weights_]. rewrite E. reflexivity.
Qed.

Lemma fresh_sum : forall cs raw,
  sum_weights init_tuples
    (map (fun t => vec_fill (NTupleOps.num_states t) (S754_finite false 11184811 (-28)))
           init_tuples) cs (S754_zero false) = Some raw ->
  raw = S754_finite false 16777214 (-25).
Proof.
  intros cs raw E.
  apply (sum_fresh spec_float binary32_ops) in E.
  rewrite E. vm_compute. reflexivity.
Qed.

Lemma evaluate_unfold : forall (F : Type) (ops : FloatOps F) (net : NTupleNetwork F) s,
  evaluate net s
  = match sum_weights (tuples_ net) (weights_ net) (canonical_state_of s) f_zero with
    | None => None
    | Some value =>
        if Player_eqb (current_player s) Player_White
        then Some (f_neg value) else Some value
    end.
Proof. reflexivity. Qed.

Lemma sum_shifted_fresh : forall (F : Type) (ops : FloatOps F) (w0 : F) (size : NTuple -> Z)
    (ts : list NTuple) (cs : GameState) (delta acc v : F),
  sum_weights_shifted ts (map (fun t => vec_fill (size t) w0) ts) cs delta acc = Some v ->
  v = fold_left (fun a (_ : NTuple) => f_add a (f_add w0 delta)) ts acc.
Proof.
  intros F ops w0 size. induction ts as [|t ts IH]; intros cs delta acc v H.
  - inversion H. reflexivity.
  - rewrite map_cons, sum_weights_shifted_cons in H.
    destruct (vec_at (vec_fill (size t) w0) (feature_index t cs)) as [x|] eqn:E;
      [|discriminate H].
    apply vec_at_fill in E. subst x.
    exact (IH cs delta _ v H).
Qed.

(** The value of the fresh network, wherever it is defined. *)
Lemma fresh_evaluate_value : forall (s : GameState) (cur : spec_float),
  evaluate (F := spec_float) NTupleNetwork_new s = Some cur ->
  cur = if Player_eqb (current_player s) Player_White
        then S754_finite true 16777214 (-25)
        else S754_finite false 16777214 (-25).
Proof.
  intros s v H. rewrite evaluate_unfold in H.
  destruct fresh_network_tables as [Et Ew]. rewrite Et, Ew in H.
  destruct (sum_weights _ _ _ _) as [raw|] eqn:E; [|discriminate H].
  apply fresh_sum in E. subst raw.
  destruct (Player_eqb (current_player s) Player_White); inversion H; reflexivity.
Qed.

(** One update of the fresh network, on a state where it is defined: the
    value afterwards is the sum of twelve copies of the prior with the
    increment added. *)
Lemma fresh_update_value : forall (s : GameState) (t lr cur : spec_float),
  evaluate (F := spec_float) NTupleNetwork_new s = Some cur ->
  exists cur',
    evaluate_after_update (F := spec_float) NTupleNetwork_new s t lr = Some cur'
    /\ cur' = (let white := Player_eqb (current_player s) Player_White in
               let current_value :=
                 if white then S754_finite true 16777214 (-25)
                 else S754_finite false 16777214 (-25) in
               let error := SFsub b32_prec b32_emax t current_value in
               let error := if white then SFopp error else error in
               let delta :=
                 SFmul b32_prec b32_emax
                       (SFdiv b32_prec b32_emax lr (S754_finite false 12582912 (-20)))
                       error in
               let raw :=
                 fold_left (fun a (_ : NTuple) =>
                              SFadd b32_prec b32_emax a
                                (SFadd b32_prec b32_emax
                                       (S754_finite false 11184811 (-28)) delta))
                           init_tuples (S754_zero false) in
               if white then SFopp raw else raw).
Proof.
  intros s t lr cur Hev.
  destruct (td_update_shifts NTupleNetwork_new s t lr cur Hev)
    as [net' [cur' [Eu [_ [Ee Esh]]]]].
  exists cur'. split.
  - unfold evaluate_after_update. rewrite Eu. exact Ee.
  - pose proof (fresh_evaluate_value s cur Hev) as Hcur.
    rewrite evaluate_shifted_unfold in Esh.
    unfold td_increment in Esh.
    destruct fresh_network_tables as [Et Ew]. rewrite Et, Ew in Esh.
    assert (En : f_of_size (Z.of_nat (length init_tuples))
                 = S754_finite false 12582912 (-20)) by (vm_compute; reflexivity).
    rewrite En in Esh.
    destruct (sum_weights_shifted _ _ _ _ _) as [raw|] eqn:E; [|discriminate Esh].
    apply (sum_shifted_fresh spec_float binary32_ops) in E.
    cbv zeta. rewrite <- Hcur.
    destruct (Player_eqb (current_player s) Player_White);
      inversion Esh; subst cur'; rewrite E; reflexivity.
Qed.

(** C4, as the code has it in binary32.  For every network, every state on
    which [evaluate] is defined, every target and every learning rate, one
    [td_update] goes through and adds the same increment, (lr / n) * error
    with error = target - current (negated when White is to move), to each
    of the n weights [evaluate] reads: [evaluate] of that state afterwards
    is the sum of the incremented weights.  On the freshly initialised
    network, for every state on which [evaluate] is defined, the value is
    0.49999994 for the side to move Black and -0.49999994 for White; one
    update with target 1.0 and rate 0.1 raises it and brings it strictly
    closer to 1.0, and one update with target -1.0 and rate 0.1 lowers it,
    below 0.5, and brings it strictly closer to -1.0.  For the initial
    position the values are 0.49999994 before, 0.55000007 and 0.35 after. *)
Theorem td_update_effect :
  (forall (net : NTupleNetwork spec_float) (s : GameState) (t lr cur : spec_float),
     evaluate net s = Some cur ->
     exists net' cur',
       td_update net s t lr = Some net'
       /\ tuples_ net' = tuples_ net
       /\ evaluate net' s = Some cur'
       /\ evaluate_shifted net s (td_increment net s t lr cur) = Some cur')
  /\ (forall (s : GameState) (cur : spec_float),
     evaluate (F := spec_float) NTupleNetwork_new s = Some cur ->
     cur = (if Player_eqb (current_player s) Player_White
            then S754_finite true 16777214 (-25)
            else S754_finite false 16777214 (-25))
     /\ exists up down,
          evaluate_after_update NTupleNetwork_new s b32_one b32_tenth = Some up
          /\ SFltb cur up = true
          /\ b32_closer b32_one cur up = true
          /\ evaluate_after_update NTupleNetwork_new s b32_minus_one b32_tenth = Some down
          /\ SFltb down cur = true
          /\ SFltb down f_half = true
          /\ b32_closer b32_minus_one cur down = true)
  /\ evaluate (F := spec_float) NTupleNetwork_new reset
     = Some (S754_finite false 16777214 (-25))
  /\ evaluate_after_update (F := spec_float) NTupleNetwork_new reset b32_one b32_tenth
     = Some (S754_finite false 9227470 (-24))
  /\ SFltb (S754_finite false 16777214 (-25)) (S754_finite false 9227470 (-24)) = true
  /\ b32_closer b32_one (S754_finite false 16777214 (-25))
                (S754_finite false 9227470 (-24)) = true
  /\ evaluate_after_update (F := spec_float) NTupleNetwork_new reset b32_minus_one b32_tenth
     = Some (S754_finite false 11744051 (-25))
  /\ SFltb (S754_finite false 11744051 (-25)) (S754_finite false 16777214 (-25)) = true
  /\ SFltb (S754_finite false 11744051 (-25)) f_half = true
  /\ b32_closer b32_minus_one (S754_finite false 16777214 (-25))
                (S754_finite false 11744051 (-25)) = true.
Proof.
  split; [|split].
  - intros net s t lr cur Hev. exact (td_update_shifts net s t lr cur Hev).
  - intros s cur Hev.
    pose proof (fresh_evaluate_value s cur Hev) as Hcur.
    destruct (fresh_update_value s b32_one b32_tenth cur Hev) as [up [Eup Hup]].
    destruct (fresh_update_value s b32_minus_one b32_tenth cur Hev) as [down [Edown Hdown]].
    split; [exact Hcur|]. exists up, down.
    cbv zeta in Hup, Hdown.
    destruct (Player_eqb (current_player s) Player_White);
      subst cur up down;
      (split; [exact Eup|]); split; [vm_compute; reflexivity | | vm_compute; reflexivity | ];
      (split; [vm_compute; reflexivity|]);
      (split; [exact Edown|]); repeat split; vm_compute; reflexivity.
  - repeat split; vm_compute; reflexivity.
Qed.

(** The update at work on the fresh network and the initial position with
    White to move: from -0.49999994, target 1.0 gives -0.35 and target -1.0
    gives -0.55000007. *)
Lemma td_update_effect_witness :
  evaluate (F := spec_float) NTupleNetwork_new (set_to_move reset Player_White)
  = Some (S754_finite true 16777214 (-25))
  /\ exists up down,
       evaluate_after_update NTupleNetwork_new (set_to_move reset Player_White)
                             b32_one b32_tenth = Some up
       /\ SFltb (S754_finite true 16777214 (-25)) up = true
       /\ b32_closer b32_one (S754_finite true 16777214 (-25)) up = true
       /\ evaluate_after_update NTupleNetwork_new (set_to_move reset Player_White)
                                b32_minus_one b32_tenth = Some down
       /\ SFltb down (S754_finite true 16777214 (-25)) = true
       /\ SFltb down f_half = true
       /\ b32_closer b32_minus_one (S754_finite true 16777214 (-25)) down = true.
Proof.
  assert (Hev : evaluate (F := spec_float) NTupleNetwork_new (set_to_move reset Player_White)
                = Some (S754_finite true 16777214 (-25))) by (vm_compute; reflexivity).
  split; [exact Hev|].
  exact (proj2 (proj1 (proj2 td_update_effect) _ _ Hev)).
Defined.

(** C4 as stated does not hold.  The value of the fresh network on the
    initial position is 0.49999994, not 0.5.  With the learning rate 3.0 and
    the target 1.0 the update overshoots: the value goes to 2.0000005,
    farther from the target than it was.  With the learning rate 0.5 and the
    target 0.5 the rounded update carries the value to 0.50000012, again
    farther from the target.  With the learning rate 0.1 and the target 0.5
    the increment is rounded away and the value stays where it was.  In the
    three cases the learning rate is positive and the value before the call
    differs from the target. *)
Lemma td_update_not_always_closer :
  evaluate (F := spec_float) NTupleNetwork_new reset
  = Some (S754_finite false 16777214 (-25))
  /\ evaluate (F := spec_float) NTupleNetwork_new reset <> Some f_half
  /\ (SFltb f_zero b32_three = true
      /\ SFeqb (S754_finite false 16777214 (-25)) b32_one = false
      /\ evaluate_after_update (F := spec_float) NTupleNetwork_new reset b32_one b32_three
         = Some (S754_finite false 8388610 (-22))
      /\ b32_closer b32_one (S754_finite false 16777214 (-25))
                    (S754_finite false 8388610 (-22)) = false)
  /\ (SFltb f_zero f_half = true
      /\ SFeqb (S754_finite false 16777214 (-25)) f_half = false
      /\ evaluate_after_update (F := spec_float) NTupleNetwork_new reset f_half f_half
         = Some (S754_finite false 8388610 (-24))
      /\ b32_closer f_half (S754_finite false 16777214 (-25))
                    (S754_finite false 8388610 (-24)) = false)
  /\ (SFltb f_zero b32_tenth = true
      /\ SFeqb (S754_finite false 16777214 (-25)) f_half = false
      /\ evaluate_after_update (F := spec_float) NTupleNetwork_new reset f_half b32_tenth
         = Some (S754_finite false 16777214 (-25))
      /\ b32_closer f_half (S754_finite false 16777214 (-25))
                    (S754_finite false 16777214 (-25)) = false).
Proof.
  split; [vm_compute; reflexivity|].
  split; [vm_compute; discriminate|].
  repeat split; vm_compute; reflexivity.
Qed.
(* ========================================================================= *)
(** * Further properties                                                      *)
(* ========================================================================= *)

(** ** The size of the move list *)

Lemma length_flat_map_const : forall (A B : Type) (f : A -> list B) (l : list A) (k : nat),
  (forall a, In a l -> length (f a) = k) ->
  length (flat_map f l) = (length l * k)%nat.
Proof.
  intros A B f l k. induction l as [|a l IH]; intro H; simpl.
  - reflexivity.
  - rewrite length_app, (H a (or_introl eq_refl)), IH by (intros; apply H; right; assumption).
    reflexivity.
Qed.

Lemma length_placements : forall b base t,
  length (Rules.placements b base t) = free_cell_count b.
Proof.
  intros b base t. unfold Rules.placements, free_cell_count.
  induction cells_xy as [|[x y] l IH]; simpl; [reflexivity|].
  destruct (Player_eqb (occupant (Board_at b x y)) Player_None
            && TileType_eqb (tile (Board_at b x y)) Tile_None); simpl; rewrite IH; reflexivity.
Qed.

Lemma length_expand : forall b inv base,
  length (Rules.expand b inv base) = (1 + held_kinds inv * free_cell_count b)%nat.
Proof.
  intros b inv base. unfold Rules.expand, held_kinds. simpl length.
  rewrite length_app.
  destruct (black inv >? 0), (gray inv >? 0); simpl length;
    rewrite ?length_placements; lia.
Qed.

(** The branching factor.  Every base move is listed once without a tile and
    once for every tile kind the mover still holds and every cell that has
    neither occupant nor tile: the list has
    [base moves * (1 + kinds held * free cells)] entries.  So [is_loss],
    whatever player it is asked about, says whether the side to move has no
    base move; tiles and free cells play no part in it. *)
Theorem legal_moves_count : forall (s : GameState) (p : Player),
  length (Rules.legal_moves s)
  = (length (Rules.base_moves s)
     * (1 + held_kinds (inventory s (current_player s)) * free_cell_count (board s)))%nat
  /\ (Rules.is_loss s p = true <-> Rules.base_moves s = []).
Proof.
  intros s p.
  assert (E : length (Rules.legal_moves s)
              = (length (Rules.base_moves s)
                 * (1 + held_kinds (inventory s (current_player s))
                        * free_cell_count (board s)))%nat).
  { unfold Rules.legal_moves. apply length_flat_map_const.
    intros base _. apply length_expand. }
  split; [exact E|]. unfold Rules.is_loss.
  destruct (Rules.legal_moves s) as [|m ms]; destruct (Rules.base_moves s) as [|b bs];
    simpl in E; split; intro H; try reflexivity; try discriminate H; lia.
Qed.

(** ** Moves without a tile *)

Lemma filter_placements : forall b base t,
  filter (fun m => negb (place_tile m)) (Rules.placements b base t) = [].
Proof.
  intros b base t. unfold Rules.placements.
  induction cells_xy as [|[x y] l IH]; simpl; [reflexivity|].
  destruct (Player_eqb (occupant (Board_at b x y)) Player_None
            && TileType_eqb (tile (Board_at b x y)) Tile_None); simpl; exact IH.
Qed.

Lemma filter_expand : forall b inv base,
  place_tile base = false ->
  filter (fun m => negb (place_tile m)) (Rules.expand b inv base) = [base].
Proof.
  intros b inv base H. unfold Rules.expand. simpl. rewrite H. simpl. f_equal.
  rewrite filter_app.
  destruct (black inv >? 0), (gray inv >? 0); simpl;
    rewrite ?filter_placements; reflexivity.
Qed.

Lemma filter_expand_all : forall b inv l,
  (forall m, In m l -> place_tile m = false) ->
  filter (fun m => negb (place_tile m)) (flat_map (Rules.expand b inv) l) = l.
Proof.
  intros b inv. induction l as [|base l IH]; intro H; [reflexivity|].
  cbn [flat_map]. rewrite filter_app, filter_expand by (apply H; left; reflexivity).
  rewrite IH by (intros; apply H; right; assumption). reflexivity.
Qed.

(** The moves without a tile placement in the list are the base moves, in
    the order the board scan found them: a player may always move without
    placing a tile, and a tile never makes a move legal that is not legal
    without it. *)
Theorem legal_moves_without_tile : forall s : GameState,
  filter (fun m => negb (place_tile m)) (Rules.legal_moves s) = Rules.base_moves s.
Proof.
  intro s. unfold Rules.legal_moves. apply filter_expand_all.
  intros m Hm. apply (in_base_moves_shape s m Hm).
Qed.

(** ** At most one move per direction *)

Lemma length_ray_walk : forall b p x y origin rels step flag,
  (length (Rules.ray_walk b p x y origin rels step flag) <= 1)%nat.
Proof.
  intros b p x y origin. induction rels as [|rel rest IH]; intros step flag; simpl.
  - lia.
  - destruct (Player_eqb _ Player_None).
    + destruct flag; simpl; [lia|]. destruct (Nat.eqb step 0); simpl; lia.
    + destruct (Player_eqb _ p); [apply IH | simpl; lia].
Qed.

Lemma length_flat_map_le : forall (A B : Type) (f : A -> list B) (l : list A),
  (forall a, (length (f a) <= 1)%nat) ->
  (length (flat_map f l) <= length l)%nat.
Proof.
  intros A B f l H. induction l as [|a l IH]; simpl; [lia|].
  rewrite length_app. specialize (H a). lia.
Qed.

Lemma entry_dir_count : forall t origin,
  0 <= origin < 25 ->
  length (entry_dirs (kMoveTable_at (TileType_to_int t) origin))
  = length (tile_directions t).
Proof.
  intros t origin H. pose proof (entry_okb_all t origin H) as Hok.
  unfold entry_okb in Hok. apply andb_true_iff in Hok. destruct Hok as [_ Hr].
  apply rays_okb_spec in Hr. apply Forall2_length in Hr.
  rewrite length_map in Hr. symmetry. exact Hr.
Qed.

(** A piece has at most one base move in each direction its tile allows:
    at most 4 on a cell without tile or with a Black tile, at most 8 on a
    Gray tile. *)
Theorem moves_per_piece_bound : forall (b : Board) (p : Player) (x y : Z),
  0 <= x < BOARD_W -> 0 <= y < BOARD_H ->
  (length (Rules.moves_from b p (x, y))
   <= match tile (Board_at b x y) with Tile_Gray => 8 | _ => 4 end)%nat.
Proof.
  intros b p x y Hx Hy. unfold Rules.moves_from.
  destruct (negb (Player_eqb (occupant (Board_at b x y)) p)).
  - simpl. destruct (tile (Board_at b x y)); lia.
  - eapply Nat.le_trans.
    + apply length_flat_map_le. intro dir. unfold Rules.walk_direction.
      destruct (Nat.eqb (step_count dir) 0); [simpl; lia | apply length_ray_walk].
    + rewrite entry_dir_count by (unfold BOARD_W, BOARD_H in *; lia).
      destruct (tile (Board_at b x y)); simpl; lia.
Qed.

Lemma moves_per_piece_bound_witness :
  (length (Rules.moves_from (board jump_state) Player_Black (2%Z, 2%Z)) <= 4)%nat.
Proof.
  apply (moves_per_piece_bound (board jump_state) Player_Black 2 2);
    unfold BOARD_W, BOARD_H; lia.
Defined.

(** ** Geometry of the generated moves *)

Lemma cell_of_index : forall x y,
  on_board x y ->
  Z.rem (y * BOARD_W + x) BOARD_W = x /\ Z.quot (y * BOARD_W + x) BOARD_W = y.
Proof.
  intros x y [Hx Hy]. unfold BOARD_W, BOARD_H in *.
  rewrite Z.rem_mod_nonneg by lia. rewrite Z.quot_div_nonneg by lia.
  rewrite (Z.add_comm (y * 5) x). rewrite Z_mod_plus_full, Z_div_plus_full by lia.
  rewrite Z.mod_small, Z.div_small by lia. split; lia.
Qed.

Lemma origin_of_cell : forall x y,
  on_board x y ->
  (y * BOARD_W + x) mod BOARD_W = x /\ (y * BOARD_W + x) / BOARD_W = y.
Proof.
  intros x y [Hx Hy]. unfold BOARD_W, BOARD_H in *.
  rewrite (Z.add_comm (y * 5) x). rewrite Z_mod_plus_full, Z_div_plus_full by lia.
  rewrite Z.mod_small, Z.div_small by lia. split; lia.
Qed.

Lemma Forall2_In_r : forall (A B : Type) (R : A -> B -> Prop) l l' b,
  Forall2 R l l' -> In b l' -> exists a, In a l /\ R a b.
Proof.
  intros A B R l l' b H. induction H as [|a c l l' Hac _ IH]; intro Hin.
  - contradiction.
  - destruct Hin as [<- | Hin].
    + exists a. split; [left; reflexivity | exact Hac].
    + destruct (IH Hin) as [a' [Ha' Hr]]. exists a'. split; [right; exact Ha' | exact Hr].
Qed.

Lemma direction_unit : forall t d,
  In d (tile_directions t) ->
  -1 <= fst d <= 1 /\ -1 <= snd d <= 1 /\ (fst d <> 0 \/ snd d <> 0).
Proof.
  intros t d H.
  destruct t; simpl in H;
    repeat (destruct H as [<- | H]; [simpl; lia|]); contradiction.
Qed.

(** A base move is a slide from a cell of the board along one of the
    directions of the tile under the piece: [k] steps, and the [k-1] cells
    passed over hold pieces of the side to move. *)
Lemma base_move_geometry : forall (s : GameState) (m : Move),
  In m (Rules.base_moves s) ->
  on_board (sx m) (sy m)
  /\ exists d k,
       In d (tile_directions (tile (Board_at (board s) (sx m) (sy m))))
       /\ 1 <= k <= 4
       /\ dx m = sx m + k * fst d /\ dy m = sy m + k * snd d
       /\ on_board (dx m) (dy m)
       /\ forall j, 1 <= j < k ->
            occupant (Board_at (board s) (sx m + j * fst d) (sy m + j * snd d))
            = current_player s.
Proof.
  intros s m Hin. unfold Rules.base_moves in Hin. apply in_flat_map in Hin.
  destruct Hin as [[x y] [Hxy Hm]]. apply in_cells_xy in Hxy.
  assert (Hon : on_board x y) by exact Hxy.
  unfold Rules.moves_from in Hm.
  destruct (Player_eqb (occupant (Board_at (board s) x y)) (current_player s));
    simpl in Hm; [|contradiction].
  apply in_flat_map in Hm. destruct Hm as [dir [Hdir Hm]].
  apply in_walk_direction in Hm. apply ray_walk_only in Hm.
  destruct Hm as [friends [rel [rest [E [Hown [_ Hm]]]]]].
  set (t := tile (Board_at (board s) x y)) in *.
  set (origin := y * BOARD_W + x) in *.
  assert (Ho : 0 <= origin < 25)
    by (unfold origin; destruct Hon as [Hx Hy]; unfold BOARD_W, BOARD_H in *; lia).
  pose proof (entry_okb_all t origin Ho) as Hok.
  unfold entry_okb in Hok. apply andb_true_iff in Hok. destruct Hok as [_ Hr].
  apply rays_okb_spec in Hr.
  destruct (Forall2_In_r _ _ _ _ _ (dir_steps dir) Hr (in_map dir_steps _ _ Hdir))
    as [d [Hd [Hsteps _]]].
  destruct (origin_of_cell x y Hon) as [Eox Eoy]. fold origin in Eox, Eoy.
  rewrite Eox, Eoy in Hsteps.
  assert (Hstep : forall i r, nth_error (dir_steps dir) i = Some r ->
            on_board (x + (Z.of_nat i + 1) * fst d) (y + (Z.of_nat i + 1) * snd d)
            /\ Rules.target_cell (board s) origin r
               = Board_at (board s) (x + (Z.of_nat i + 1) * fst d)
                                    (y + (Z.of_nat i + 1) * snd d)
            /\ landing x y origin r
               = Rules.base_move x y (x + (Z.of_nat i + 1) * fst d)
                                     (y + (Z.of_nat i + 1) * snd d)).
  { intros i r Hi. destruct (Hsteps i r Hi) as [Hb Hidx].
    destruct (cell_of_index _ _ Hb) as [Er Eq].
    unfold Rules.target_cell, landing. rewrite Hidx, Er, Eq. auto. }
  assert (Hrel : nth_error (dir_steps dir) (length friends) = Some rel).
  { rewrite E, nth_error_app2 by lia. rewrite Nat.sub_diag. reflexivity. }
  destruct (Hstep _ _ Hrel) as [Hb [_ Hland]].
  rewrite Hland in Hm. subst m. cbn [sx sy dx dy Rules.base_move].
  split; [exact Hon|].
  exists d, (Z.of_nat (length friends) + 1).
  destruct (direction_unit t d Hd) as [Hd1 [Hd2 Hd3]].
  split; [exact Hd | split; [| split; [reflexivity | split; [reflexivity | split; [exact Hb|]]]]].
  - destruct Hon as [Hx Hy]. destruct Hb as [Hbx Hby]. unfold BOARD_W, BOARD_H in *.
    split; [lia|]. nia.
  - intros j Hj.
    assert (Hi : nth_error (dir_steps dir) (Z.to_nat (j - 1))
                 = Some (nth (Z.to_nat (j - 1)) friends 0)).
    { rewrite E, nth_error_app1 by lia. apply nth_error_nth'. lia. }
    destruct (Hstep _ _ Hi) as [_ [Hcell _]].
    replace (Z.of_nat (Z.to_nat (j - 1)) + 1) with j in Hcell by lia.
    rewrite <- Hcell.
    rewrite Forall_forall in Hown.
    destruct (Hown (nth (Z.to_nat (j - 1)) friends 0)) as [Hp _];
      [apply nth_In; lia | exact Hp].
Qed.

Lemma legal_move_of_base : forall (s : GameState) (m : Move),
  In m (Rules.legal_moves s) ->
  exists base,
    In base (Rules.base_moves s)
    /\ sx m = sx base /\ sy m = sy base /\ dx m = dx base /\ dy m = dy base
    /\ (place_tile m = false -> m = base)
    /\ (place_tile m = true -> on_board (tx m) (ty m)).
Proof.
  intros s m Hin. unfold Rules.legal_moves in Hin. apply in_flat_map in Hin.
  destruct Hin as [base [Hbase Hm]]. exists base. split; [exact Hbase|].
  unfold Rules.expand in Hm. destruct Hm as [<- | Hm].
  - destruct (in_base_moves_shape s base Hbase) as [_ [Hpl _]].
    repeat split; try reflexivity; congruence.
  - assert (Hp : exists t, In m (Rules.placements (board s) base t)).
    { apply in_app_or in Hm. destruct Hm as [Hm | Hm].
      - destruct (black _ >? 0); [eauto | contradiction].
      - destruct (gray _ >? 0); [eauto | contradiction]. }
    destruct Hp as [t Hp]. unfold Rules.placements in Hp. apply in_flat_map in Hp.
    destruct Hp as [[x y] [Hxy Hp]]. apply in_cells_xy in Hxy.
    destruct (Player_eqb (occupant (Board_at (board s) x y)) Player_None
              && TileType_eqb (tile (Board_at (board s) x y)) Tile_None);
      [|contradiction].
    destruct Hp as [<- | []]. cbn [Rules.with_tile sx sy dx dy tx ty place_tile].
    repeat split; try reflexivity; try (intro H; discriminate H); apply Hxy.
Qed.

(** Every move of the list is a slide on the board: it starts on a cell of
    the board, goes [k] steps (1 to 4) along one of the directions the tile
    under the piece allows (orthogonal without tile, diagonal on Black, all
    eight on Gray), ends on the board, and every cell it passes over holds a
    piece of the side to move; a tile is only ever placed on a cell of the
    board. *)
Theorem legal_move_geometry : forall (s : GameState) (m : Move),
  In m (Rules.legal_moves s) ->
  on_board (sx m) (sy m)
  /\ (exists d k,
        In d (tile_directions (tile (Board_at (board s) (sx m) (sy m))))
        /\ 1 <= k <= 4
        /\ dx m = sx m + k * fst d /\ dy m = sy m + k * snd d
        /\ on_board (dx m) (dy m)
        /\ forall j, 1 <= j < k ->
             occupant (Board_at (board s) (sx m + j * fst d) (sy m + j * snd d))
             = current_player s)
  /\ (place_tile m = true -> on_board (tx m) (ty m)).
Proof.
  intros s m Hin.
  destruct (legal_move_of_base s m Hin) as [base [Hbase [E1 [E2 [E3 [E4 [_ Ht]]]]]]].
  destruct (base_move_geometry s base Hbase) as [Hon Hgeo].
  rewrite E1, E2, E3, E4. split; [exact Hon | split; [exact Hgeo | exact Ht]].
Qed.

(** The jump of the scenario: from (2,2) two steps down over the own piece
    on (2,3), with a Gray tile put on (0,0). *)
Lemma legal_move_geometry_witness :
  let m := Rules.with_tile (landing 2 2 12 10) 0 0 Tile_Gray in
  In m (Rules.legal_moves jump_state)
  /\ on_board (sx m) (sy m)
  /\ (exists d k,
        In d (tile_directions (tile (Board_at (board jump_state) (sx m) (sy m))))
        /\ 1 <= k <= 4
        /\ dx m = sx m + k * fst d /\ dy m = sy m + k * snd d
        /\ on_board (dx m) (dy m)
        /\ forall j, 1 <= j < k ->
             occupant (Board_at (board jump_state) (sx m + j * fst d) (sy m + j * snd d))
             = current_player jump_state)
  /\ (place_tile m = true -> on_board (tx m) (ty m)).
Proof.
  intro m.
  assert (Hin : In m (Rules.legal_moves jump_state))
    by (apply existsb_Move_In; vm_compute; reflexivity).
  split; [exact Hin | exact (legal_move_geometry jump_state m Hin)].
Defined.

(** ** The move lookup of the game server *)

Lemma moves_equal_spec : forall a b,
  Server.moves_equal a b = true
  <-> sx a = sx b /\ sy a = sy b /\ dx a = dx b /\ dy a = dy b
      /\ place_tile a = place_tile b
      /\ (place_tile a = true -> tx a = tx b /\ ty a = ty b /\ tile_kind a = tile_kind b).
Proof.
  intros a b. unfold Server.moves_equal.
  destruct (Z.eqb_spec (sx a) (sx b)) as [E1 | N1]; simpl;
    [| split; [discriminate | intros [H _]; contradiction]].
  destruct (Z.eqb_spec (sy a) (sy b)) as [E2 | N2]; simpl;
    [| split; [discriminate | intros [_ [H _]]; contradiction]].
  destruct (Z.eqb_spec (dx a) (dx b)) as [E3 | N3]; simpl;
    [| split; [discriminate | intros [_ [_ [H _]]]; contradiction]].
  destruct (Z.eqb_spec (dy a) (dy b)) as [E4 | N4]; simpl;
    [| split; [discriminate | intros [_ [_ [_ [H _]]]]; contradiction]].
  destruct (place_tile a) eqn:Pa, (place_tile b) eqn:Pb; simpl.
  - rewrite !andb_true_iff, !Z.eqb_eq, TileType_eqb_eq. split.
    + intros [[H1 H2] H3]. repeat split; auto.
    + intros [_ [_ [_ [_ [_ H]]]]]. destruct (H eq_refl) as [H1 [H2 H3]]. auto.
  - split; [discriminate | intros [_ [_ [_ [_ [H _]]]]]; discriminate H].
  - split; [discriminate | intros [_ [_ [_ [_ [H _]]]]]; discriminate H].
  - split; [intros _ | reflexivity]. repeat split; auto; congruence.
Qed.

Lemma base_move_defaults : forall s m,
  In m (Rules.base_moves s) ->
  tx m = tx Move_default /\ ty m = ty Move_default /\ tile_kind m = tile_kind Move_default.
Proof.
  intros s m Hin. unfold Rules.base_moves in Hin. apply in_flat_map in Hin.
  destruct Hin as [[x y] [_ Hm]]. unfold Rules.moves_from in Hm.
  destruct (negb _); [contradiction|].
  apply in_flat_map in Hm. destruct Hm as [dir [_ Hm]].
  apply in_walk_direction in Hm. apply ray_walk_only in Hm.
  destruct Hm as [friends [rel [rest [_ [_ [_ ->]]]]]]. repeat split.
Qed.

Lemma legal_moves_distinct : forall s c c' desired,
  In c (Rules.legal_moves s) -> In c' (Rules.legal_moves s) ->
  Server.moves_equal c desired = true -> Server.moves_equal c' desired = true ->
  c' = c.
Proof.
  intros s c c' d Hc Hc' E E'.
  apply moves_equal_spec in E. apply moves_equal_spec in E'.
  destruct E as [A1 [A2 [A3 [A4 [A5 A6]]]]].
  destruct E' as [B1 [B2 [B3 [B4 [B5 B6]]]]].
  destruct (legal_move_of_base s c Hc) as [base [Hb [_ [_ [_ [_ [Hc0 _]]]]]]].
  destruct (legal_move_of_base s c' Hc') as [base' [Hb' [_ [_ [_ [_ [Hc0' _]]]]]]].
  destruct c as [a1 a2 a3 a4 a5 a6 a7 a8], c' as [b1 b2 b3 b4 b5 b6 b7 b8].
  cbn [sx sy dx dy place_tile tx ty tile_kind] in *.
  destruct a5, b5; try congruence.
  - destruct (A6 eq_refl) as [X1 [X2 X3]]. destruct (B6 eq_refl) as [Y1 [Y2 Y3]].
    congruence.
  - specialize (Hc0 eq_refl). specialize (Hc0' eq_refl).
    destruct (base_move_defaults s base Hb) as [X1 [X2 X3]].
    destruct (base_move_defaults s base' Hb') as [Y1 [Y2 Y3]].
    rewrite <- Hc0 in X1, X2, X3. rewrite <- Hc0' in Y1, Y2, Y3.
    cbn [tx ty tile_kind] in *. congruence.
Qed.

(** The server's lookup.  When [find_if] finds a legal move for the move a
    client asked for, that move is in the list of legal moves, agrees with
    the request on source, destination and placement, and is the only legal
    move that does: the move applied is determined by the request.  And
    although [coord_to_xy] checks no range, a request is only ever matched
    when its source, its destination and the target of its tile are cells of
    the board. *)
Theorem server_lookup_unambiguous : forall (s : GameState) (desired c : Move),
  Server.find_legal s desired = Some c ->
  In c (Rules.legal_moves s)
  /\ Server.moves_equal c desired = true
  /\ (forall c', In c' (Rules.legal_moves s) ->
                 Server.moves_equal c' desired = true -> c' = c)
  /\ on_board (sx desired) (sy desired)
  /\ on_board (dx desired) (dy desired)
  /\ (place_tile desired = true -> on_board (tx desired) (ty desired)).
Proof.
  intros s d c H. unfold Server.find_legal in H. apply find_some in H.
  destruct H as [Hin Heq].
  split; [exact Hin | split; [exact Heq | split]].
  - intros c' Hin' Heq'. exact (legal_moves_distinct s c c' d Hin Hin' Heq Heq').
  - apply moves_equal_spec in Heq. destruct Heq as [A1 [A2 [A3 [A4 [A5 A6]]]]].
    destruct (legal_move_of_base s c Hin) as [base [Hb [E1 [E2 [E3 [E4 [_ Ht]]]]]]].
    destruct (base_move_geometry s base Hb) as [Hon [dd [k [_ [_ [_ [_ [Hdst _]]]]]]]].
    rewrite <- A1, <- A2, <- A3, <- A4, E1, E2, E3, E4.
    split; [exact Hon | split; [exact Hdst|]].
    intro Hp. rewrite <- A5 in Hp. destruct (A6 Hp) as [X1 [X2 _]].
    rewrite <- X1, <- X2. apply Ht. exact Hp.
Qed.

(** A client asks for e5,e4 in the initial position (Black stands in row 0,
    which the server calls rank 5) without a tile; the tile fields of the
    request hold anything. *)
Lemma server_lookup_unambiguous_witness :
  let desired := mkMove (fst (Server.coord_to_xy 101 53)) (snd (Server.coord_to_xy 101 53))
                        (fst (Server.coord_to_xy 101 52)) (snd (Server.coord_to_xy 101 52))
                        false 7 7 Tile_Gray in
  Server.find_legal reset desired = Some (landing 4 0 4 5)
  /\ In (landing 4 0 4 5) (Rules.legal_moves reset)
  /\ on_board (sx desired) (sy desired).
Proof.
  intro desired.
  assert (H : Server.find_legal reset desired = Some (landing 4 0 4 5))
    by (vm_compute; reflexivity).
  split; [exact H | split].
  - exact (proj1 (server_lookup_unambiguous reset desired _ H)).
  - exact (proj1 (proj2 (proj2 (proj2 (server_lookup_unambiguous reset desired _ H))))).
Defined.

(** ** Tile placement: the GUI against the engine *)

Lemma in_available_tile_locations : forall (b : Board) (sel_x sel_y dest_x dest_y x y : Z),
  In (x, y) (GuiPlay.available_tile_locations b sel_x sel_y dest_x dest_y)
  <-> on_board x y
      /\ tile (Board_at b x y) = Tile_None
      /\ (x, y) <> (dest_x, dest_y)
      /\ (occupant (Board_at b x y) = Player_None \/ (x, y) = (sel_x, sel_y)).
Proof.
  intros b sel_x sel_y dest_x dest_y x y. unfold GuiPlay.available_tile_locations.
  rewrite in_flat_map. split.
  - intros [[x' y'] [Hxy Hin]]. apply in_cells_xy in Hxy.
    destruct (TileType_eqb (tile (Board_at b x' y')) Tile_None
              && negb ((x' =? dest_x) && (y' =? dest_y))) eqn:E1; [|contradiction].
    destruct (Player_eqb (occupant (Board_at b x' y')) Player_None
              || (x' =? sel_x) && (y' =? sel_y)) eqn:E2; [|contradiction].
    destruct Hin as [Hin | []]. inversion Hin; subst x' y'.
    apply andb_true_iff in E1. destruct E1 as [Et Ed].
    apply TileType_eqb_eq in Et. apply negb_true_iff in Ed.
    split; [exact Hxy | split; [exact Et | split]].
    + intro E. inversion E; subst. rewrite !Z.eqb_refl in Ed. discriminate Ed.
    + apply orb_true_iff in E2. destruct E2 as [E2 | E2].
      * left. apply Player_eqb_eq. exact E2.
      * right. apply andb_true_iff in E2. destruct E2 as [Ex Ey].
        apply Z.eqb_eq in Ex. apply Z.eqb_eq in Ey. congruence.
  - intros [Hon [Ht [Hd Ho]]]. exists (x, y). split; [apply in_cells_xy; exact Hon|].
    apply TileType_eqb_eq in Ht. rewrite Ht.
    assert (Ed : (x =? dest_x) && (y =? dest_y) = false).
    { destruct (Z.eqb_spec x dest_x), (Z.eqb_spec y dest_y); try reflexivity.
      exfalso. apply Hd. congruence. }
    rewrite Ed. cbn [negb andb].
    assert (E2 : Player_eqb (occupant (Board_at b x y)) Player_None
                 || (x =? sel_x) && (y =? sel_y) = true).
    { apply orb_true_iff. destruct Ho as [Ho | Ho].
      - left. apply Player_eqb_eq. exact Ho.
      - right. inversion Ho. rewrite !Z.eqb_refl. reflexivity. }
    rewrite E2. left. reflexivity.
Qed.

(** The GUI and the engine disagree about where a tile may go.  For a base
    move of the side to move and a tile kind it holds, the cells the GUI
    offers are the cells without tile, other than the destination, that are
    unoccupied or the origin; away from the origin and the destination the
    GUI and [Rules::legal_moves] agree; the GUI offers the origin (if it has
    no tile), which the engine never lists, and the engine lists the
    destination (if it has no tile), which the GUI never offers. *)
Theorem gui_and_engine_placements : forall (s : GameState) (m : Move) (t : TileType)
    (x y : Z),
  current_player s <> Player_None ->
  In m (Rules.base_moves s) ->
  0 < inventory_count (inventory s (current_player s)) t ->
  let offered := GuiPlay.available_tile_locations (board s) (sx m) (sy m) (dx m) (dy m) in
  ((x, y) <> (sx m, sy m) -> (x, y) <> (dx m, dy m) ->
   (In (x, y) offered <-> In (Rules.with_tile m x y t) (Rules.legal_moves s)))
  /\ (tile (Board_at (board s) (sx m) (sy m)) = Tile_None ->
      In (sx m, sy m) offered)
  /\ ~ In (Rules.with_tile m (sx m) (sy m) t) (Rules.legal_moves s)
  /\ ~ In (dx m, dy m) offered
  /\ (tile (Board_at (board s) (dx m) (dy m)) = Tile_None ->
      In (Rules.with_tile m (dx m) (dy m) t) (Rules.legal_moves s)).
Proof.
  intros s m t x y Hcur Hm Hinv offered.
  destruct (in_base_moves_shape s m Hm) as [Hsrc [_ Hdst]].
  destruct (base_move_geometry s m Hm) as [Hon [d [k [_ [_ [_ [_ [Hon' _]]]]]]]].
  split; [| split; [| split; [| split]]].
  - intros Hns Hnd. unfold offered. rewrite in_available_tile_locations.
    rewrite (placement_expansion_code s m t x y Hm Hinv). unfold on_board. split.
    + intros [H1 [H2 [_ [H4 | H4]]]]; [tauto | contradiction].
    + intros [H1 [H2 H3]]. tauto.
  - intro Ht. unfold offered. apply in_available_tile_locations.
    split; [exact Hon | split; [exact Ht | split; [| right; reflexivity]]].
    intro E. inversion E as [[E1 E2]]. rewrite E1, E2 in Hsrc. congruence.
  - intro H. apply (placement_expansion_code s m t _ _ Hm Hinv) in H.
    destruct H as [_ [Ho _]]. congruence.
  - intro H. unfold offered in H. apply in_available_tile_locations in H.
    destruct H as [_ [_ [Hne _]]]. apply Hne. reflexivity.
  - intro Ht. apply (placement_expansion_code s m t _ _ Hm Hinv).
    split; [exact Hon' | split; [exact Hdst | exact Ht]].
Qed.

(** The first move of the initial position, (0,0) -> (0,1), with a Black
    tile: the GUI offers the origin (0,0), the engine lists the destination
    (0,1). *)
Lemma gui_and_engine_placements_witness :
  In (0, 0) (GuiPlay.available_tile_locations (board reset) 0 0 0 1)
  /\ In (Rules.with_tile (landing 0 0 0 5) 0 1 Tile_Black) (Rules.legal_moves reset).
Proof.
  assert (Hm : In (landing 0 0 0 5) (Rules.base_moves reset))
    by (apply existsb_Move_In; vm_compute; reflexivity).
  assert (Hc : current_player reset <> Player_None) by discriminate.
  assert (Hi : 0 < inventory_count (inventory reset (current_player reset)) Tile_Black)
    by (simpl; lia).
  destruct (gui_and_engine_placements reset (landing 0 0 0 5) Tile_Black 0 0 Hc Hm Hi)
    as [_ [H2 [_ [_ H5]]]].
  split; [apply H2; reflexivity | apply H5; reflexivity].
Defined.

(** ** The move table as arrays *)

Lemma forallb_skipn_zero : forall l n,
  forallb (fun r => r =? 0) (skipn n l) = true ->
  forall k, (n <= k)%nat -> nth k l 0 = 0.
Proof.
  intros l n H k Hk. rewrite forallb_forall in H.
  destruct (Nat.lt_ge_cases k (length l)) as [Hlt | Hge].
  - replace k with (n + (k - n))%nat by lia. rewrite <- nth_skipn.
    apply Z.eqb_eq. apply H. apply nth_In. rewrite length_skipn. lia.
  - apply nth_overflow. exact Hge.
Qed.

Lemma table_shapes_ok :
  forallb (fun t => forallb (fun o => entry_shapeb (kMoveTable_at t (Z.of_nat o))) (seq 0 25))
          [0; 1; 2] = true.
Proof. vm_compute. reflexivity. Qed.

Lemma entry_shapeb_all : forall t origin,
  0 <= origin < 25 -> entry_shapeb (kMoveTable_at (TileType_to_int t) origin) = true.
Proof.
  intros t origin H. pose proof table_shapes_ok as T. rewrite forallb_forall in T.
  assert (Ht : In (TileType_to_int t) [0; 1; 2]) by (destruct t; simpl; auto).
  specialize (T _ Ht). rewrite forallb_forall in T.
  specialize (T (Z.to_nat origin)). rewrite Z2Nat.id in T by lia.
  apply T. apply in_seq. lia.
Qed.

(** Every entry of the table fills its arrays as the loops of
    [Rules::legal_moves] read them: 8 direction slots of which the first
    [dir_count] are in use, 4 offset slots per direction of which the first
    [step_count] are in use, so that the loops stay inside the arrays
    ([dir_count <= kMaxDirections], [step_count <= kMaxRayLength]); the slots
    not in use are zero. *)
Theorem move_table_padding : forall (t : TileType) (origin : Z),
  0 <= origin < 25 ->
  let e := kMoveTable_at (TileType_to_int t) origin in
  Z.of_nat (length (dirs e)) = kMaxDirections
  /\ Z.of_nat (dir_count e) <= kMaxDirections
  /\ length (entry_dirs e) = dir_count e
  /\ (forall d, In d (dirs e) ->
        Z.of_nat (length (rel_index d)) = kMaxRayLength
        /\ Z.of_nat (step_count d) <= kMaxRayLength
        /\ length (dir_steps d) = step_count d
        /\ forall k, (step_count d <= k)%nat -> nth k (rel_index d) 0 = 0)
  /\ (forall k, (dir_count e <= k)%nat ->
        step_count (nth k (dirs e) Dir_default) = 0%nat).
Proof.
  intros t origin H e. pose proof (entry_shapeb_all t origin H) as S. fold e in S.
  unfold entry_shapeb in S. rewrite !andb_true_iff in S.
  destruct S as [[[S1 S2] S3] S4].
  apply Nat.eqb_eq in S1. apply Nat.leb_le in S2.
  rewrite forallb_forall in S3. rewrite forallb_forall in S4.
  split; [rewrite S1; reflexivity | split; [unfold kMaxDirections; lia | split; [| split]]].
  - unfold entry_dirs. apply firstn_length_le. lia.
  - intros d Hd. specialize (S3 d Hd). unfold dir_shapeb in S3.
    rewrite !andb_true_iff in S3. destruct S3 as [[D1 D2] D3].
    apply Nat.eqb_eq in D1. apply Nat.leb_le in D2.
    split; [rewrite D1; reflexivity | split; [change kMaxRayLength with 4; lia | split]].
    + unfold dir_steps. apply firstn_length_le. lia.
    + apply forallb_skipn_zero. exact D3.
  - intros k Hk. destruct (Nat.lt_ge_cases k (length (dirs e))) as [Hlt | Hge].
    + replace k with (dir_count e + (k - dir_count e))%nat by lia. rewrite <- nth_skipn.
      apply Nat.eqb_eq. apply S4. apply nth_In. rewrite length_skipn. lia.
    + rewrite nth_overflow by exact Hge. reflexivity.
Qed.

Lemma move_table_padding_witness :
  length (entry_dirs (kMoveTable_at (TileType_to_int Tile_Black) 0))
  = dir_count (kMoveTable_at (TileType_to_int Tile_Black) 0).
Proof.
  apply (move_table_padding Tile_Black 0). lia.
Defined.

(** ** The pattern index is a perfect index *)

Lemma pow9_bound : forall k : nat, (k <= 17)%nat -> 0 < 9 ^ Z.of_nat k <= 9 ^ 17.
Proof.
  intros k H. split; [apply Z.pow_pos_nonneg; lia | apply Z.pow_le_mono_r; lia].
Qed.

Lemma num_states_fold : forall (n k : nat) (acc : Z),
  (k + n <= 19)%nat -> acc = 9 ^ Z.of_nat k ->
  fold_left (fun result (_ : nat) => i64_mul result 9) (seq 0 n) acc
  = 9 ^ Z.of_nat (k + n).
Proof.
  intros n k acc Hk ->.
  assert (G : forall (l : list nat) (j : nat), (j + length l <= 19)%nat ->
            fold_left (fun result (_ : nat) => i64_mul result 9) l (9 ^ Z.of_nat j)
            = 9 ^ Z.of_nat (j + length l)).
  { induction l as [|a l IH]; intros j Hj; simpl.
    - rewrite Nat.add_0_r. reflexivity.
    - simpl in Hj. unfold i64_mul at 2.
      assert (Hp : 9 ^ Z.of_nat j * 9 = 9 ^ Z.of_nat (S j))
        by (rewrite Nat2Z.inj_succ, Z.pow_succ_r by lia; lia).
      assert (Hb : 0 < 9 ^ Z.of_nat (S j) <= 9 ^ 19)
        by (split; [apply Z.pow_pos_nonneg; lia | apply Z.pow_le_mono_r; lia]).
      assert (H19 : 9 ^ 19 < 2 ^ 63) by (vm_compute; reflexivity).
      rewrite wrap_int64_small by lia. rewrite Hp.
      rewrite IH by lia. f_equal. lia. }
  specialize (G (seq 0 n) k). rewrite length_seq in G. apply G. exact Hk.
Qed.

Lemma num_states_exact : forall t : NTuple,
  (num_cells t <= 17)%nat ->
  NTupleOps.num_states t = 9 ^ Z.of_nat (num_cells t) * 64.
Proof.
  intros t H. unfold NTupleOps.num_states.
  rewrite (num_states_fold (num_cells t) 0 1) by (simpl; lia || reflexivity).
  simpl Nat.add. unfold i64_mul. apply wrap_int64_small.
  pose proof (pow9_bound _ H) as Hb.
  assert (H17 : 9 ^ 17 * 64 < 2 ^ 63) by (vm_compute; reflexivity). lia.
Qed.

(** Base-9 digits determine the number. *)
Lemma digits_injective : forall (g g' : Z -> Z) (l : list Z) (a a' : Z),
  (forall c, 0 <= g c <= 8) -> (forall c, 0 <= g' c <= 8) ->
  fold_left (fun i c => i * 9 + g c) l a = fold_left (fun i c => i * 9 + g' c) l a' ->
  a = a' /\ forall c, In c l -> g c = g' c.
Proof.
  intros g g' l. induction l as [|c l IH]; intros a a' Hg Hg' H; simpl in H.
  - split; [exact H | intros c []].
  - destruct (IH _ _ Hg Hg' H) as [E Hrest].
    specialize (Hg c). specialize (Hg' c).
    assert (a = a' /\ g c = g' c) as [Ea Ec] by lia.
    split; [exact Ea|]. intros c' [<- | Hin]; [exact Ec | apply Hrest; exact Hin].
Qed.

Lemma fold_left_ext_in : forall (A B : Type) (f g : A -> B -> A) (l : list B) (a : A),
  (forall x b, In b l -> f x b = g x b) -> fold_left f l a = fold_left g l a.
Proof.
  intros A B f g l. induction l as [|b l IH]; intros a H; simpl; [reflexivity|].
  rewrite H by (left; reflexivity). apply IH. intros x b' Hb'. apply H. right. exact Hb'.
Qed.

Lemma inventory_eq : forall i j : TileInventory,
  black i = black j -> gray i = gray j -> i = j.
Proof. intros [b g] [b' g']. simpl. intros -> ->. reflexivity. Qed.

Lemma to_index_exact : forall (t : NTuple) (s : GameState),
  num_cells t = length (cell_indices t) -> (num_cells t <= 17)%nat ->
  (forall c, In c (cell_indices t) -> 0 <= c < 25) ->
  inventory_in_range (inv_black s) -> inventory_in_range (inv_white s) ->
  NTupleOps.to_index t s 0 0
  = fold_left (fun i c => i * 9 + encode_cell (Board_at (board s) (c mod 5) (c / 5)))
              (cell_indices t) 0 * 64
    + (8 * (black (inv_black s) + 4 * gray (inv_black s))
       + (black (inv_white s) + 4 * gray (inv_white s)))
  /\ 0 <= fold_left (fun i c => i * 9 + encode_cell (Board_at (board s) (c mod 5) (c / 5)))
                    (cell_indices t) 0 < 9 ^ Z.of_nat (num_cells t).
Proof.
  intros t s Hn H17 Hc Hb Hw.
  unfold NTupleOps.to_index. rewrite Hn, firstn_all.
  destruct (fold_index_exact (board s) (cell_indices t) 0 0 Hc ltac:(simpl; lia)
                             ltac:(simpl; lia)) as [E Hbound].
  simpl Nat.add in Hbound. rewrite <- Hn in Hbound.
  rewrite E in Hbound |- *.
  pose proof (pow9_bound _ H17) as Hp.
  assert (H17' : 9 ^ 17 * 64 < 2 ^ 63) by (vm_compute; reflexivity).
  unfold inventory. rewrite !encode_tile_inventory_exact by assumption.
  destruct Hb as [Hb1 Hb2]. destruct Hw as [Hw1 Hw2].
  unfold i64_add, i64_mul, i32_add, i32_mul.
  rewrite (wrap_int32_small (_ * 8)) by lia.
  rewrite wrap_int32_small by lia.
  rewrite (wrap_int64_small (_ * 64)) by lia.
  rewrite wrap_int64_small by lia.
  split; [lia | rewrite <- Hn; exact Hbound].
Qed.

(** [NTuple::to_index] is a perfect index.  For a pattern of at most 17
    cells of the board and inventories within (0..3, 0..1), the index lies in
    [0, num_states()), [num_states()] is [9^n * 64], and two states get the
    same index exactly when they agree on every cell of the pattern and on
    both inventories: a weight is shared by no two different local
    configurations, and nothing outside the pattern influences it. *)
Theorem to_index_perfect : forall (t : NTuple) (s s' : GameState),
  num_cells t = length (cell_indices t) -> (num_cells t <= 17)%nat ->
  (forall c, In c (cell_indices t) -> 0 <= c < 25) ->
  inventory_in_range (inv_black s) -> inventory_in_range (inv_white s) ->
  inventory_in_range (inv_black s') -> inventory_in_range (inv_white s') ->
  0 <= NTupleOps.to_index t s 0 0 < NTupleOps.num_states t
  /\ NTupleOps.num_states t = 9 ^ Z.of_nat (num_cells t) * 64
  /\ (NTupleOps.to_index t s 0 0 = NTupleOps.to_index t s' 0 0
      <-> (forall c, In c (cell_indices t) ->
             Board_at (board s) (c mod 5) (c / 5) = Board_at (board s') (c mod 5) (c / 5))
          /\ inv_black s = inv_black s' /\ inv_white s = inv_white s').
Proof.
  intros t s s' Hn H17 Hc Hb Hw Hb' Hw'.
  destruct (to_index_exact t s Hn H17 Hc Hb Hw) as [E R].
  destruct (to_index_exact t s' Hn H17 Hc Hb' Hw') as [E' R'].
  rewrite (num_states_exact t H17), E, E'.
  destruct Hb as [Hb1 Hb2]. destruct Hw as [Hw1 Hw2].
  destruct Hb' as [Hb1' Hb2']. destruct Hw' as [Hw1' Hw2'].
  split; [lia | split; [reflexivity | split]].
  - intro H.
    assert (Hfold :
      fold_left (fun i c => i * 9 + encode_cell (Board_at (board s) (c mod 5) (c / 5)))
                (cell_indices t) 0
      = fold_left (fun i c => i * 9 + encode_cell (Board_at (board s') (c mod 5) (c / 5)))
                  (cell_indices t) 0) by lia.
    destruct (digits_injective
                (fun c => encode_cell (Board_at (board s) (c mod 5) (c / 5)))
                (fun c => encode_cell (Board_at (board s') (c mod 5) (c / 5)))
                (cell_indices t) 0 0
                (fun c => encode_cell_range _) (fun c => encode_cell_range _) Hfold)
      as [_ Hcells].
    rewrite Hfold in H.
    split; [intros c Hin; apply encode_cell_inj; apply Hcells; exact Hin|].
    split; apply inventory_eq; lia.
  - intros [Hcells [-> ->]]. f_equal. f_equal.
    apply fold_left_ext_in. intros x c Hin. rewrite (Hcells c Hin). reflexivity.
Qed.

Lemma to_index_perfect_witness :
  0 <= NTupleOps.to_index (pattern 0) reset 0 0 < NTupleOps.num_states (pattern 0)
  /\ NTupleOps.num_states (pattern 0) = 9 ^ 9 * 64
  /\ NTupleOps.to_index (pattern 0) reset 0 0
     <> NTupleOps.to_index (pattern 0) after_first_move 0 0.
Proof.
  assert (Hc : forall c, In c (cell_indices (pattern 0)) -> 0 <= c < 25)
    by (intros c Hin; simpl in Hin; lia).
  assert (Hr : inventory_in_range (mkInv 3 1)) by (unfold inventory_in_range; simpl; lia).
  destruct (to_index_perfect (pattern 0) reset after_first_move eq_refl
                             ltac:(simpl; lia) Hc Hr Hr Hr Hr) as [H1 [H2 H3]].
  split; [exact H1 | split; [exact H2|]].
  intro E. apply H3 in E. destruct E as [E _].
  specialize (E 0 ltac:(simpl; auto)). vm_compute in E. discriminate E.
Defined.

(** ** The value is seen from the side to move *)

Lemma sum_weights_to_move : forall (F : Type) (ops : FloatOps F)
    (ts : list NTuple) (ws : list (FloatVec F)) (s : GameState) (p : Player) (acc : F),
  sum_weights ts ws (canonical_state_of (set_to_move s p)) acc
  = sum_weights ts ws (canonical_state_of s) acc.
Proof.
  intros F ops. induction ts as [|t ts IH]; intros ws s p acc;
    cbn [sum_weights]; [reflexivity|].
  destruct ws as [|w ws]; [reflexivity|].
  assert (E : feature_index t (canonical_state_of (set_to_move s p))
              = feature_index t (canonical_state_of s)).
  { unfold feature_index, NTupleOps.to_index, canonical_state_of, set_board, set_to_move,
      inventory.
    cbn [board inv_black inv_white]. reflexivity. }
  rewrite E.
  destruct (vec_at w (feature_index t (canonical_state_of s))); [apply IH | reflexivity].
Qed.

(** [evaluate] is zero-sum in the side to move: the same position with White
    to move has the negated value of the position with Black to move, and is
    undefined for the one exactly when it is for the other. *)
Theorem evaluate_negamax : forall (F : Type) (ops : FloatOps F)
    (net : NTupleNetwork F) (s : GameState),
  evaluate net (set_to_move s Player_White)
  = match evaluate net (set_to_move s Player_Black) with
    | Some v => Some (f_neg v)
    | None => None
    end.
Proof.
  intros F ops net s. unfold evaluate. rewrite !sum_weights_to_move.
  destruct (sum_weights (tuples_ net) (weights_ net) (canonical_state_of s) f_zero);
    reflexivity.
Qed.

(** ** What an update touches *)

Lemma update_weights_frame : forall (F : Type) (ops : FloatOps F)
    (ts : list NTuple) (ws ws' : list (FloatVec F)) (cs : GameState) (delta : F),
  update_weights ts ws cs delta = Some ws' ->
  length ws' = length ws
  /\ forall i w w',
       nth_error ws i = Some w -> nth_error ws' i = Some w' ->
       fv_size w' = fv_size w
       /\ forall j, (forall t, nth_error ts i = Some t -> j <> feature_index t cs) ->
                    fv_get w' j = fv_get w j.
Proof.
  intros F ops. induction ts as [|t ts IH]; intros ws ws' cs delta H; simpl in H.
  - inversion H; subst ws'. split; [reflexivity|].
    intros i w w' Hw Hw'. rewrite Hw in Hw'. inversion Hw'; subst w'. auto.
  - destruct ws as [|w0 ws]; [discriminate H|].
    destruct (vec_at w0 (feature_index t cs)) as [x|]; [|discriminate H].
    destruct (update_weights ts ws cs delta) as [rest|] eqn:Er; [|discriminate H].
    inversion H; subst ws'. clear H.
    destruct (IH ws rest cs delta Er) as [Hl Hf]. split; [simpl; rewrite Hl; reflexivity|].
    intros [|i] w w' Hw Hw'; simpl in Hw, Hw'.
    + inversion Hw; inversion Hw'; subst. split; [reflexivity|].
      intros j Hj. simpl. specialize (Hj t eq_refl).
      destruct (Z.eqb_spec j (feature_index t cs)); [contradiction | reflexivity].
    + destruct (Hf i w w' Hw Hw') as [Hs Hg]. split; [exact Hs|].
      intros j Hj. apply Hg. intros t' Ht'. apply Hj. exact Ht'.
Qed.

(** [td_update] changes at most one weight per table.  The patterns stay,
    every table keeps its size, and in the table of pattern [i] every entry
    other than the one at the index of the (canonical) state is as before;
    a table without a pattern is not touched. *)
Theorem td_update_frame : forall (F : Type) (ops : FloatOps F)
    (net net' : NTupleNetwork F) (s : GameState) (target lr : F),
  td_update net s target lr = Some net' ->
  tuples_ net' = tuples_ net
  /\ length (weights_ net') = length (weights_ net)
  /\ forall i w w',
       nth_error (weights_ net) i = Some w -> nth_error (weights_ net') i = Some w' ->
       fv_size w' = fv_size w
       /\ forall j,
            (forall t, nth_error (tuples_ net) i = Some t ->
                       j <> feature_index t (canonical_state_of s)) ->
            fv_get w' j = fv_get w j.
Proof.
  intros F ops net net' s target lr H. unfold td_update in H.
  destruct (sum_weights _ _ _ _) as [raw|]; [|discriminate H].
  destruct (update_weights _ _ _ _) as [ws|] eqn:Eu; [|discriminate H].
  inversion H; subst net'. simpl.
  destruct (update_weights_frame _ _ _ _ _ _ _ Eu) as [Hl Hf].
  split; [reflexivity | split; [exact Hl | exact Hf]].
Qed.

(** An update of the fresh network on the initial position: the patterns
    stay and, in the first table, the entry 0 is as before. *)
Lemma td_update_frame_witness :
  match td_update (F := spec_float) NTupleNetwork_new reset b32_one b32_tenth with
  | Some net' =>
      tuples_ net' = init_tuples
      /\ length (weights_ net') = 12%nat
      /\ forall w', nth_error (weights_ net') 0 = Some w' ->
                    fv_size w' = 24794911296
                    /\ fv_get w' 0 = S754_finite false 11184811 (-28)
  | None => False
  end.
Proof.
  destruct (td_update (F := spec_float) NTupleNetwork_new reset b32_one b32_tenth)
    as [net'|] eqn:E.
  - destruct (td_update_frame _ _ _ _ _ _ _ E) as [H1 [H2 H3]].
    split; [exact H1 | split; [exact H2|]].
    intros w' Hw'.
    destruct (H3 0%nat (vec_fill 24794911296 (S754_finite false 11184811 (-28))) w'
                 eq_refl Hw') as [Hs Hg].
    split; [exact Hs|]. apply Hg. intros t Ht. inversion Ht; subst t.
    vm_compute. discriminate.
  - vm_compute in E. discriminate E.
Defined.

(** ** Training on a mirrored position *)

Lemma canonical_state_of_mirror : forall s : GameState,
  Board_wf (board s) ->
  canonical_state_of
    (set_board s (SymmetryOps.transform_board (board s) SymmetryOps.FlipH))
  = canonical_state_of s.
Proof.
  intros s H. unfold canonical_state_of, set_board. cbn [board to_move_ inv_black inv_white].
  change (SymmetryOps.transform_board
            (SymmetryOps.transform_board (board s) SymmetryOps.FlipH)
            (SymmetryOps.get_canonical_symmetry
               (SymmetryOps.transform_board (board s) SymmetryOps.FlipH)))
    with (SymmetryOps.canonical (SymmetryOps.transform_board (board s) SymmetryOps.FlipH)).
  rewrite (canonical_of_flipped (board s) H). reflexivity.
Qed.

(** [td_update] on the mirror image of a position is [td_update] on the
    position (with the canonical board as the specification describes it). *)
Lemma td_update_mirror : forall (F : Type) (ops : FloatOps F)
    (net : NTupleNetwork F) (s : GameState) (target lr : F),
  Board_wf (board s) ->
  td_update net
            (set_board s (SymmetryOps.transform_board (board s) SymmetryOps.FlipH))
            target lr
  = td_update net s target lr.
Proof.
  intros F ops net s target lr H. unfold td_update.
  rewrite (canonical_state_of_mirror s H). reflexivity.
Qed.

(** ** The fresh network *)

(** Before any training the network cannot tell positions apart: wherever
    [evaluate] is defined on the freshly constructed network its value is
    0.49999994 with Black to move and -0.49999994 with White to move (the
    twelve priors 0.5f/12, added up in binary32). *)
Theorem fresh_network_constant : forall (s : GameState) (v : spec_float),
  evaluate (F := spec_float) NTupleNetwork_new s = Some v ->
  v = if Player_eqb (current_player s) Player_White
      then S754_finite true 16777214 (-25)
      else S754_finite false 16777214 (-25).
Proof.
  intros s v H. rewrite evaluate_unfold in H.
  destruct fresh_network_tables as [Et Ew]. rewrite Et, Ew in H.
  destruct (sum_weights _ _ _ _) as [raw|] eqn:E; [|discriminate H].
  apply fresh_sum in E. subst raw.
  destruct (Player_eqb (current_player s) Player_White); inversion H; reflexivity.
Qed.

Lemma fresh_network_constant_witness :
  evaluate (F := spec_float) NTupleNetwork_new (set_to_move reset Player_White)
  = Some (S754_finite true 16777214 (-25)).
Proof.
  destruct (evaluate (F := spec_float) NTupleNetwork_new (set_to_move reset Player_White))
    as [v|] eqn:E.
  - rewrite (fresh_network_constant _ v E). reflexivity.
  - vm_compute in E. discriminate E.
Defined.

(** ** Saving and loading *)

Section SaveLoad.

Context {F : Type} {ops : FloatOps F}.
Variable max_size : Z.

Lemma vec_roundtrip : forall w : FloatVec F,
  0 <= fv_size w -> same_table w (vec_of_list (vec_to_list w)).
Proof.
  intros w H. unfold same_table, vec_of_list, vec_to_list.
  cbn [fv_size fv_get]. rewrite length_map, length_seq, Z2Nat.id by exact H.
  split; [reflexivity|]. intro i. unfold vec_at. cbn [fv_size fv_get].
  destruct ((0 <=? i) && (i <? fv_size w)) eqn:E; [|reflexivity].
  apply andb_true_iff in E. destruct E as [E1 E2].
  apply Z.leb_le in E1. apply Z.ltb_lt in E2. f_equal.
  rewrite (nth_indep _ f_zero (fv_get w (Z.of_nat 0)))
    by (rewrite length_map, length_seq; lia).
  rewrite (map_nth (fun k => fv_get w (Z.of_nat k))).
  rewrite seq_nth by lia. simpl. rewrite Z2Nat.id by lia. reflexivity.
Qed.

Lemma load_tables_saved : forall (tuples : list NTuple) (saved ws done : list (FloatVec F)),
  length ws = length saved ->
  Forall (fun w => 0 <= fv_size w <= max_size) saved ->
  load_tables max_size tuples done ws (map vec_to_list saved)
  = load_returned
      (mkNet tuples (rev done ++ map (fun w => vec_of_list (vec_to_list w)) saved)).
Proof.
  intros tuples. induction saved as [|w0 saved IH]; intros ws done Hl Hs.
  - destruct ws; [|discriminate Hl]. simpl. rewrite app_nil_r. reflexivity.
  - destruct ws as [|w ws]; [discriminate Hl|]. simpl in Hl.
    inversion Hs as [|? ? Hw0 Hrest]; subst. cbn [map load_tables].
    assert (E : (Z.of_nat (length (vec_to_list w0)) >? max_size) = false).
    { unfold vec_to_list. rewrite length_map, length_seq, Z2Nat.id by lia.
      rewrite Z.gtb_ltb. apply Z.ltb_ge. lia. }
    rewrite E. rewrite IH by (try lia; assumption).
    simpl. rewrite <- app_assoc. reflexivity.
Qed.

Lemma sum_weights_same_tables : forall (ts : list NTuple) (ws ws' : list (FloatVec F))
    (cs : GameState) (acc : F),
  Forall2 same_table ws ws' ->
  sum_weights ts ws' cs acc = sum_weights ts ws cs acc.
Proof.
  induction ts as [|t ts IH]; intros ws ws' cs acc H; simpl; [reflexivity|].
  destruct H as [|w w' ws ws' [_ Hw] Hrest]; [reflexivity|].
  rewrite Hw. destruct (vec_at w (feature_index t cs)); [apply IH; exact Hrest | reflexivity].
Qed.

(** Round trip through a weight file.  A network that has been saved can be
    loaded into any network with as many patterns and tables: the call
    returns normally, every table comes back with its size and its entries,
    and when the patterns are the same the loaded network evaluates every
    state as the saved one did. *)
Theorem save_load_roundtrip : forall net net0 : NTupleNetwork F,
  length (tuples_ net0) = length (tuples_ net) ->
  length (weights_ net0) = length (weights_ net) ->
  Forall (fun w => 0 <= fv_size w <= max_size) (weights_ net) ->
  exists net',
    load max_size (save net) net0 = load_returned net'
    /\ tuples_ net' = tuples_ net0
    /\ Forall2 same_table (weights_ net) (weights_ net')
    /\ (tuples_ net0 = tuples_ net -> forall s, evaluate net' s = evaluate net s).
Proof.
  intros net net0 Ht Hw Hs.
  exists (mkNet (tuples_ net0) (map (fun w => vec_of_list (vec_to_list w)) (weights_ net))).
  assert (Hsame : Forall2 same_table (weights_ net)
                          (map (fun w => vec_of_list (vec_to_list w)) (weights_ net))).
  { clear Hw. induction (weights_ net) as [|w ws IH]; simpl; constructor.
    - inversion Hs; subst. apply vec_roundtrip. lia.
    - apply IH. inversion Hs; assumption. }
  split; [| split; [reflexivity | split; [exact Hsame|]]].
  - unfold load, save. rewrite Ht, Z.eqb_refl. cbn [negb].
    rewrite (load_tables_saved (tuples_ net0) (weights_ net) (weights_ net0) [] Hw Hs).
    reflexivity.
  - intros E s. unfold evaluate. cbn [tuples_ weights_]. rewrite E.
    rewrite (sum_weights_same_tables _ _ _ _ _ Hsame). reflexivity.
Qed.

End SaveLoad.

(** A network of two small tables saved and loaded into a blank one. *)
Lemma save_load_roundtrip_witness :
  let net := mkNet [pattern 0; pattern 1]
                   [vec_of_list [b32_one; b32_tenth]; vec_of_list [b32_three]] in
  let blank := mkNet [pattern 0; pattern 1]
                     [vec_fill 0 (f_zero (F := spec_float)); vec_fill 0 f_zero] in
  exists net',
    load vector_float_max_size (save net) blank = load_returned net'
    /\ Forall2 same_table (weights_ net) (weights_ net').
Proof.
  intros net blank.
  assert (Hs : Forall (fun w : FloatVec spec_float => 0 <= fv_size w <= vector_float_max_size)
                      (weights_ net)).
  { repeat constructor; vm_compute; discriminate. }
  destruct (save_load_roundtrip vector_float_max_size net blank eq_refl eq_refl Hs)
    as [net' [H1 [_ [H3 _]]]].
  exists net'. split; [exact H1 | exact H3].
Defined.

(** ** From a state to its array and back *)

Section StateToArray.

Import GameSession.

Lemma cell_of_encode : forall c : Cell, cell_of_code (GameSession.encode_cell c) = c.
Proof. intros [[] []]; reflexivity. Qed.

Lemma session_code_range : forall c : Cell, 0 <= GameSession.encode_cell c <= 8.
Proof. intros [[] []]; vm_compute; split; discriminate. Qed.

Lemma board_to_array_cells : forall (s : GameState) (i : nat),
  (i < 25)%nat -> 0 <= nth i (board_to_array s) 0 <= 8.
Proof.
  intros s i Hi. unfold board_to_array.
  rewrite app_nth1 by (rewrite length_map; exact Hi).
  set (codes := map _ cells_xy).
  assert (Hin : In (nth i codes 0) codes)
    by (apply nth_In; unfold codes; rewrite length_map; exact Hi).
  unfold codes in Hin. apply in_map_iff in Hin. destruct Hin as [[x y] [E _]].
  fold codes in E. rewrite <- E. apply session_code_range.
Qed.

Lemma board_to_array_inventory : forall s : GameState,
  nth 25 (board_to_array s) 0 = black (inv_black s)
  /\ nth 26 (board_to_array s) 0 = gray (inv_black s)
  /\ nth 27 (board_to_array s) 0 = black (inv_white s)
  /\ nth 28 (board_to_array s) 0 = gray (inv_white s).
Proof.
  intro s. unfold board_to_array.
  rewrite !app_nth2 by (rewrite length_map; simpl; lia).
  rewrite length_map. repeat split.
Qed.

Lemma board_to_array_valid : forall s : GameState,
  valid_array (board_to_array s)
  <-> inventory_in_range (inv_black s) /\ inventory_in_range (inv_white s).
Proof.
  intro s. unfold valid_array, inventory_in_range.
  destruct (board_to_array_inventory s) as [E25 [E26 [E27 E28]]].
  rewrite E25, E26, E27, E28. split.
  - tauto.
  - intros [[H1 H2] [H3 H4]].
    split; [unfold board_to_array; rewrite length_app, length_map; reflexivity|].
    split; [intros i Hi; apply board_to_array_cells; exact Hi | tauto].
Qed.

Lemma array_to_board_valid : forall (a : list Z) (s : GameState),
  valid_array a -> Board_wf (board s) ->
  array_to_board a s
  = (decode_ok,
     mkState (map (fun i => cell_of_code (array_get a i)) (seq 0 25)) (to_move_ s)
             (mkInv (array_get a 25) (array_get a 26))
             (mkInv (array_get a 27) (array_get a 28))).
Proof.
  intros a s [Hl [Hc [H25 [H26 [H27 H28]]]]] Hwf. unfold array_to_board.
  rewrite Hl. simpl negb. cbv iota.
  assert (Ec : first_invalid_cell a 0 25 = None)
    by (apply first_invalid_cell_none; intros k Hk; apply Hc; lia).
  rewrite Ec.
  rewrite (proj2 (check_inventory_none a 25 3) H25).
  rewrite (proj2 (check_inventory_none a 26 1) H26).
  rewrite (proj2 (check_inventory_none a 27 3) H27).
  rewrite (proj2 (check_inventory_none a 28 1) H28).
  rewrite apply_cells_valid by (intros k Hk; apply Hc; simpl in Hk; lia).
  rewrite (written_board a (board s) Hwf). reflexivity.
Qed.

Lemma decoded_cells : forall (b : Board) (rest : list Z),
  Board_wf b ->
  map (fun i => cell_of_code
                  (array_get (map (fun xy : Z * Z =>
                                     let '(x, y) := xy in
                                     GameSession.encode_cell (Board_at b x y)) cells_xy
                              ++ rest) i))
      (seq 0 25)
  = b.
Proof.
  intros b rest H. explicit_board b H.
  cbv - [GameSession.encode_cell cell_of_code]. rewrite !cell_of_encode. reflexivity.
Qed.

(** The other round trip: the array of a state decodes to that state.  For a
    state [s] with 25 cells, the array [board_to_array s] has 29 elements;
    decoding it into any session state is accepted exactly when both
    inventories of [s] are within (0..3, 0..1), and then the session holds
    the board and the inventories of [s], with its own side to move. *)
Theorem state_to_array_and_back : forall s s0 : GameState,
  Board_wf (board s) -> Board_wf (board s0) ->
  length (board_to_array s) = 29%nat
  /\ (fst (array_to_board (board_to_array s) s0) = decode_ok
      <-> inventory_in_range (inv_black s) /\ inventory_in_range (inv_white s))
  /\ (inventory_in_range (inv_black s) -> inventory_in_range (inv_white s) ->
      snd (array_to_board (board_to_array s) s0)
      = mkState (board s) (to_move_ s0) (inv_black s) (inv_white s)).
Proof.
  intros s s0 Hwf Hwf0.
  split; [unfold board_to_array; rewrite length_app, length_map; reflexivity | split].
  - rewrite array_to_board_accepts. apply board_to_array_valid.
  - intros Hb Hw.
    rewrite (array_to_board_valid (board_to_array s) s0)
      by (try apply board_to_array_valid; auto).
    cbn [snd]. unfold array_get.
    destruct (board_to_array_inventory s) as [E25 [E26 [E27 E28]]].
    rewrite E25, E26, E27, E28.
    unfold board_to_array at 1.
    change (fun i : nat => cell_of_code (nth i (map (fun xy : Z * Z =>
                     let '(x, y) := xy in
                     GameSession.encode_cell (Board_at (board s) x y)) cells_xy
                   ++ [black (inventory s Player_Black); gray (inventory s Player_Black);
                       black (inventory s Player_White); gray (inventory s Player_White)]) 0))
      with (fun i : nat => cell_of_code (array_get (map (fun xy : Z * Z =>
                     let '(x, y) := xy in
                     GameSession.encode_cell (Board_at (board s) x y)) cells_xy
                   ++ [black (inventory s Player_Black); gray (inventory s Player_Black);
                       black (inventory s Player_White); gray (inventory s Player_White)]) i)).
    rewrite (decoded_cells (board s) _ Hwf).
    destruct (inv_black s), (inv_white s). reflexivity.
Qed.

End StateToArray.

(** The jump scenario sent into a session that holds the initial position. *)
Lemma state_to_array_and_back_witness :
  length (GameSession.board_to_array jump_state) = 29%nat
  /\ snd (GameSession.array_to_board (GameSession.board_to_array jump_state) reset)
     = jump_state.
Proof.
  destruct (state_to_array_and_back jump_state reset eq_refl eq_refl) as [H1 [_ H3]].
  split; [exact H1|]. apply H3; unfold inventory_in_range; simpl; lia.
Defined.

(** ** Text coordinates *)

Lemma wrap_char_small : forall z, -128 <= z < 128 -> wrap_char z = z.
Proof. intros z H. unfold wrap_char. rewrite Z.mod_small by lia. lia. Qed.

Lemma file_to_x_letter : forall f,
  (97 <= f <= 122 -> GameSessionText.file_to_x f = f - 97)
  /\ (65 <= f <= 90 -> GameSessionText.file_to_x f = f - 65)
  /\ (~ (97 <= f <= 122) -> ~ (65 <= f <= 90) -> GameSessionText.file_to_x f = -1).
Proof.
  intro f. unfold GameSessionText.file_to_x. repeat split.
  - intro H.
    replace ((f >=? 97) && (f <=? 122)) with true by (symmetry; apply andb_true_iff; lia).
    rewrite wrap_char_small by lia.
    replace ((f - 97 + 97 >=? 65) && (f - 97 + 97 <=? 90)) with false
      by (symmetry; apply andb_false_iff; lia).
    replace ((f - 97 + 97 <? 97) || (f - 97 + 97 >? 122)) with false
      by (symmetry; apply orb_false_iff; lia).
    lia.
  - intro H.
    replace ((f >=? 97) && (f <=? 122)) with false by (symmetry; apply andb_false_iff; lia).
    replace ((f >=? 65) && (f <=? 90)) with true by (symmetry; apply andb_true_iff; lia).
    rewrite wrap_char_small by lia.
    replace ((f - 65 + 97 <? 97) || (f - 65 + 97 >? 122)) with false
      by (symmetry; apply orb_false_iff; lia).
    lia.
  - intros H1 H2.
    replace ((f >=? 97) && (f <=? 122)) with false by (symmetry; apply andb_false_iff; lia).
    replace ((f >=? 65) && (f <=? 90)) with false by (symmetry; apply andb_false_iff; lia).
    replace ((f <? 97) || (f >? 122)) with true by (symmetry; apply orb_true_iff; lia).
    reflexivity.
Qed.

Lemma rank_to_y_digit : forall r,
  (49 <= r <= 53 -> GameSessionText.rank_to_y r = 53 - r)
  /\ (~ (49 <= r <= 53) -> GameSessionText.rank_to_y r = -1).
Proof.
  intro r. unfold GameSessionText.rank_to_y, BOARD_H. split.
  - intro H.
    replace ((r <? 49) || (r >? 57)) with false by (symmetry; apply orb_false_iff; lia).
    replace ((r - 48 <? 1) || (r - 48 >? 5)) with false
      by (symmetry; apply orb_false_iff; lia).
    lia.
  - intro H. destruct ((r <? 49) || (r >? 57)) eqn:E; [reflexivity|].
    apply orb_false_iff in E.
    replace ((r - 48 <? 1) || (r - 48 >? 5)) with true
      by (symmetry; apply orb_true_iff; lia).
    reflexivity.
Qed.

(** The text coordinates of the web session.  A rank character is accepted
    exactly when it is one of '1'..'5', and gives a row of the board; a file
    character is accepted exactly when it is a letter, upper case counting
    as lower case, and gives a column 0..25, so that the files 'f'..'z' pass
    the coordinate test although they are off the board; on the board the
    two functions invert the labels [board_text] prints. *)
Theorem text_coordinates :
  (forall r, 0 <= GameSessionText.rank_to_y r <-> 49 <= r <= 53)
  /\ (forall r, GameSessionText.rank_to_y r = -1
                \/ 0 <= GameSessionText.rank_to_y r < BOARD_H)
  /\ (forall f, 0 <= GameSessionText.file_to_x f <-> 97 <= f <= 122 \/ 65 <= f <= 90)
  /\ (forall f, GameSessionText.file_to_x f = -1
                \/ 0 <= GameSessionText.file_to_x f < 26)
  /\ (forall f, 97 <= f <= 122 ->
                GameSessionText.file_to_x (f - 32) = GameSessionText.file_to_x f)
  /\ (forall f, 102 <= f <= 122 -> BOARD_W <= GameSessionText.file_to_x f)
  /\ (forall x y, on_board x y ->
        GameSessionText.file_to_x (GameSessionText.file_label x) = x
        /\ GameSessionText.rank_to_y (GameSessionText.rank_label y) = y).
Proof.
  assert (R : forall r, (49 <= r <= 53 /\ GameSessionText.rank_to_y r = 53 - r)
                        \/ (~ (49 <= r <= 53) /\ GameSessionText.rank_to_y r = -1)).
  { intro r. destruct (rank_to_y_digit r) as [H1 H2].
    destruct (Z_le_dec 49 r), (Z_le_dec r 53);
      [left; split; [lia | apply H1; lia] | | |]; right; split; try lia; apply H2; lia. }
  assert (Fx : forall f, ((97 <= f <= 122 /\ GameSessionText.file_to_x f = f - 97)
                          \/ (65 <= f <= 90 /\ GameSessionText.file_to_x f = f - 65))
                         \/ (~ (97 <= f <= 122) /\ ~ (65 <= f <= 90)
                             /\ GameSessionText.file_to_x f = -1)).
  { intro f. destruct (file_to_x_letter f) as [H1 [H2 H3]].
    destruct (Z_le_dec 97 f), (Z_le_dec f 122);
      [left; left; split; [lia | apply H1; lia] | | |];
      (destruct (Z_le_dec 65 f), (Z_le_dec f 90);
       [left; right; split; [lia | apply H2; lia] | | |]);
      right; (split; [lia | split; [lia | apply H3; lia]]). }
  split; [| split; [| split; [| split; [| split; [| split]]]]].
  - intro r. destruct (R r) as [[H E] | [H E]]; rewrite E; lia.
  - intro r. unfold BOARD_H. destruct (R r) as [[H E] | [H E]]; rewrite E; lia.
  - intro f. destruct (Fx f) as [[[H E] | [H E]] | [H1 [H2 E]]]; rewrite E; lia.
  - intro f. destruct (Fx f) as [[[H E] | [H E]] | [H1 [H2 E]]]; rewrite E; lia.
  - intros f H. destruct (file_to_x_letter f) as [H1 _].
    destruct (file_to_x_letter (f - 32)) as [_ [H2 _]].
    rewrite H1, H2 by lia. lia.
  - intros f H. destruct (file_to_x_letter f) as [H1 _]. rewrite H1 by lia.
    unfold BOARD_W. lia.
  - intros x y [Hx Hy]. unfold BOARD_W, BOARD_H in *.
    unfold GameSessionText.file_label, GameSessionText.rank_label, BOARD_H.
    rewrite wrap_char_small by lia.
    destruct (file_to_x_letter (97 + x)) as [H1 _].
    destruct (rank_to_y_digit (48 + (5 - y))) as [H2 _].
    rewrite H1, H2 by lia. lia.
Qed.

(** ** Coordinates of the game server *)

(** The server's two conversions invert each other on the board (and
    wherever the characters fit a [char]); rank '1' is the last row of the
    board, as in the web session. *)
Theorem server_coordinates : forall x y : Z,
  -97 <= x <= 30 -> -73 <= y <= 53 ->
  Server.coord_to_xy (fst (Server.xy_to_coord x y)) (snd (Server.xy_to_coord x y))
  = (x, y)
  /\ (on_board x y ->
      GameSessionText.file_to_x (fst (Server.xy_to_coord x y)) = x
      /\ GameSessionText.rank_to_y (snd (Server.xy_to_coord x y)) = y).
Proof.
  intros x y Hx Hy. unfold Server.xy_to_coord, Server.coord_to_xy, BOARD_H. cbn [fst snd].
  rewrite !wrap_char_small by lia. split.
  - f_equal; lia.
  - intros [Hbx Hby]. unfold BOARD_W, BOARD_H in *.
    destruct (file_to_x_letter (97 + x)) as [H1 _].
    destruct (rank_to_y_digit (49 + (5 - 1 - y))) as [H2 _].
    rewrite H1, H2 by lia. lia.
Qed.

Lemma server_coordinates_witness :
  Server.coord_to_xy (fst (Server.xy_to_coord 4 0)) (snd (Server.xy_to_coord 4 0)) = (4, 0)
  /\ Server.xy_to_coord 4 0 = (101, 53).
Proof.
  split; [apply (server_coordinates 4 0); lia | reflexivity].
Defined.

(** ** The statistics of the updater *)

Section UpdaterStatistics.

Import Updater.

Lemma count_wins_app : forall l w,
  count_wins (l ++ [w]) = count_wins l + (if w then 1 else 0).
Proof.
  intros l w. unfold count_wins. rewrite filter_app, length_app.
  destruct w; simpl; lia.
Qed.

Lemma count_wins_bound : forall l, 0 <= count_wins l <= Z.of_nat (length l).
Proof.
  intro l. unfold count_wins. pose proof (filter_length_le (fun w : bool => w) l). lia.
Qed.

Lemma count_wins_tl : forall l,
  count_wins (tl l) = count_wins l - (if hd false l then 1 else 0).
Proof.
  intros [|w l]; [reflexivity|]. unfold count_wins.
  destruct w; cbn [tl hd filter length]; rewrite ?Nat2Z.inj_succ; lia.
Qed.

Lemma tl_skipn : forall (A : Type) (k : nat) (l : list A),
  tl (skipn k l) = skipn (S k) l.
Proof.
  intros A. induction k as [|k IH]; intros [|a l]; try reflexivity.
  simpl skipn at 1. rewrite IH. destruct l; reflexivity.
Qed.

Lemma learner_won_decided : forall r,
  learner_won r = true -> Player_eqb (winner r) Player_None = false.
Proof.
  intros r H. unfold learner_won in H. destruct (winner r); simpl in *; congruence.
Qed.

Lemma process_result_counters : forall config st r,
  games_processed (process_result config st r) = i32_add (games_processed st) 1
  /\ learner_wins (process_result config st r)
     = (if learner_won r then i32_add (learner_wins st) 1 else learner_wins st)
  /\ draws (process_result config st r)
     = (if learner_won r then draws st
        else if Player_eqb (winner r) Player_None then i32_add (draws st) 1
             else draws st)
  /\ opponent_wins (process_result config st r)
     = (if learner_won r then opponent_wins st
        else if Player_eqb (winner r) Player_None then opponent_wins st
             else i32_add (opponent_wins st) 1).
Proof.
  intros config st r. unfold process_result. cbv zeta.
  destruct (i32_add (games_processed st) 1 >? initial_training_games config);
    [destruct (_ && _ && SFleb _ _)|]; repeat split.
Qed.

Lemma process_result_window : forall config st r,
  let pushed := recent_wins st ++ [learner_won r] in
  let counted := if learner_won r then i32_add (recent_learner_wins st) 1
                 else recent_learner_wins st in
  let too_long := Z.of_nat (length pushed) >? size_of_int (evaluation_window config) in
  (recent_wins (process_result config st r) = []
   /\ recent_learner_wins (process_result config st r) = 0)
  \/ (recent_wins (process_result config st r) = (if too_long then tl pushed else pushed)
      /\ recent_learner_wins (process_result config st r)
         = (if too_long
            then (if hd false pushed then i32_add counted (-1) else counted)
            else counted)).
Proof.
  intros config st r. unfold process_result. cbv zeta.
  destruct (i32_add (games_processed st) 1 >? initial_training_games config);
    [destruct (_ && _ && SFleb _ _)|]; cbn [recent_wins recent_learner_wins];
    [left | right | right]; split; reflexivity.
Qed.

Lemma process_result_swap : forall config st r,
  let g := i32_add (games_processed st) 1 in
  let swap := (g >? initial_training_games config)
              && (i32_add g (- last_swap_game st) >=? swap_interval config) in
  last_swap_game (process_result config st r) = (if swap then g else last_swap_game st)
  /\ learner_is_black (process_result config st r)
     = (if swap then negb (learner_is_black st) else learner_is_black st).
Proof.
  intros config st r. unfold process_result. cbv zeta.
  destruct (i32_add (games_processed st) 1 >? initial_training_games config);
    cbn [andb];
    [destruct (i32_add (i32_add (games_processed st) 1) (- last_swap_game st)
               >=? swap_interval config);
     destruct (_ && _ && SFleb _ _)|]; split; reflexivity.
Qed.

Lemma statistics_step : forall config done st r,
  0 <= evaluation_window config < 2 ^ 31 ->
  Z.of_nat (length done) + 1 < 2 ^ 31 ->
  statistics_invariant config done st ->
  statistics_invariant config (done ++ [r]) (process_result config st r).
Proof.
  intros config done st r Hw Hn (Hg & Hlw & Hd & Hsum & How & Hrlw & Hlen & k & Hk & Hrec).
  destruct (process_result_counters config st r) as (C1 & C2 & C3 & C4).
  pose proof (count_wins_bound (map learner_won done)) as B1.
  pose proof (count_wins_bound
                (map (fun r => Player_eqb (winner r) Player_None) done)) as B2.
  pose proof (count_wins_bound (recent_wins st)) as B3.
  rewrite !length_map in *.
  assert (W : forall x, 0 <= x <= Z.of_nat (length done) -> i32_add x 1 = x + 1)
    by (intros x Hx; unfold i32_add; apply wrap_int32_small; lia).
  unfold statistics_invariant.
  rewrite C1, C2, C3, C4, !map_app, length_app, Hg.
  cbn [map length]. rewrite !count_wins_app.
  split; [rewrite W by lia; lia|].
  split; [destruct (learner_won r); [rewrite W by lia|]; lia|].
  split.
  { destruct (learner_won r) eqn:E.
    - rewrite (learner_won_decided r E). lia.
    - destruct (Player_eqb (winner r) Player_None); [rewrite W by lia|]; lia. }
  split.
  { destruct (learner_won r) eqn:E; [rewrite W by lia; lia|].
    destruct (Player_eqb (winner r) Player_None); rewrite W by lia; lia. }
  split.
  { destruct (learner_won r); [lia|].
    destruct (Player_eqb (winner r) Player_None); [lia | rewrite W by lia; lia]. }
  assert (Hsize : size_of_int (evaluation_window config) = evaluation_window config)
    by (unfold size_of_int; apply Z.mod_small; lia).
  assert (Hpushed : recent_wins st ++ [learner_won r]
                    = skipn k (map learner_won done ++ [learner_won r])).
  { rewrite skipn_app, length_map, Hrec.
    replace (k - length done)%nat with 0%nat by lia. reflexivity. }
  assert (Hcounted : (if learner_won r then i32_add (recent_learner_wins st) 1
                      else recent_learner_wins st)
                     = count_wins (recent_wins st ++ [learner_won r])).
  { rewrite count_wins_app, Hrlw.
    assert (Z.of_nat (length (recent_wins st)) <= Z.of_nat (length done)).
    { rewrite Hrec, length_skipn, length_map. lia. }
    destruct (learner_won r); [rewrite W by lia|]; lia. }
  destruct (process_result_window config st r) as [[E1 E2] | [E1 E2]];
    rewrite E1, E2; clear E1 E2.
  - split; [reflexivity | split; [simpl; lia|]].
    exists (length done + 1)%nat. split; [lia|].
    symmetry. apply skipn_all2. rewrite length_app, length_map. simpl. lia.
  - rewrite Hsize, Hcounted.
    destruct (Z.of_nat (length (recent_wins st ++ [learner_won r]))
              >? evaluation_window config) eqn:Et.
    + apply Z.gtb_lt in Et.
      assert (Hne : (1 <= length (recent_wins st ++ [learner_won r]))%nat)
        by (rewrite length_app; simpl; lia).
      split.
      { rewrite count_wins_tl.
        pose proof (count_wins_bound (recent_wins st ++ [learner_won r])) as B4.
        destruct (hd false (recent_wins st ++ [learner_won r])); [|lia].
        unfold i32_add. rewrite wrap_int32_small; [lia|].
        rewrite length_app in B4. simpl in B4.
        assert (Z.of_nat (length (recent_wins st)) <= Z.of_nat (length done))
          by (rewrite Hrec, length_skipn, length_map; lia).
        lia. }
      split.
      { destruct (recent_wins st ++ [learner_won r]) as [|w l] eqn:El;
          [simpl in Hne; lia|].
        rewrite <- El in Et. rewrite length_app in Et. simpl in Et.
        assert (length (recent_wins st ++ [learner_won r]) = S (length l))
          by (rewrite El; reflexivity).
        rewrite length_app in H. simpl in H. simpl tl. lia. }
      exists (S k). split.
      { rewrite Hpushed, length_skipn, length_app, length_map in Hne. simpl in Hne. lia. }
      rewrite Hpushed. apply tl_skipn.
    + split; [reflexivity|].
      split; [destruct (Z.gtb_spec (Z.of_nat (length (recent_wins st ++ [learner_won r])))
                                   (evaluation_window config)); [discriminate | lia]|].
      exists k. split; [lia | exact Hpushed].
Qed.

Lemma statistics_fold : forall config rs done st,
  0 <= evaluation_window config < 2 ^ 31 ->
  Z.of_nat (length done + length rs) < 2 ^ 31 ->
  statistics_invariant config done st ->
  statistics_invariant config (done ++ rs) (fold_left (process_result config) rs st).
Proof.
  intros config. induction rs as [|r rs IH]; intros done st Hw Hn H.
  - rewrite app_nil_r. exact H.
  - simpl in Hn. cbn [fold_left].
    replace (done ++ r :: rs) with ((done ++ [r]) ++ rs) by (rewrite <- app_assoc; reflexivity).
    apply IH; [exact Hw | rewrite length_app; simpl; lia|].
    apply statistics_step; [exact Hw | lia | exact H].
Qed.

(** The statistics the updater keeps are consistent, whatever the results
    and whenever the opponent is promoted: after any sequence of results the
    three counters count the games the learner won, the draws and the rest,
    and add up to the number of games processed; the window holds the most
    recent outcomes (a suffix of the history), never more than
    [evaluation_window] of them, and [recent_learner_wins] is the number of
    wins in the window, so that the reported recent rate is a proportion. *)
Theorem updater_statistics : forall (config : TrainingConfig) (results : list GameResult),
  0 <= evaluation_window config < 2 ^ 31 ->
  Z.of_nat (length results) < 2 ^ 31 ->
  let st := process_all config results in
  games_processed st = Z.of_nat (length results)
  /\ learner_wins st = count_wins (map learner_won results)
  /\ draws st = count_wins (map (fun r => Player_eqb (winner r) Player_None) results)
  /\ learner_wins st + opponent_wins st + draws st = Z.of_nat (length results)
  /\ 0 <= opponent_wins st
  /\ recent_learner_wins st = count_wins (recent_wins st)
  /\ 0 <= recent_learner_wins st <= Z.of_nat (length (recent_wins st))
  /\ Z.of_nat (length (recent_wins st)) <= evaluation_window config
  /\ exists k, recent_wins st = skipn k (map learner_won results).
Proof.
  intros config results Hw Hn st.
  assert (H0 : statistics_invariant config [] updater_init).
  { unfold statistics_invariant, updater_init. simpl.
    repeat split; try lia. exists 0%nat. split; [lia | reflexivity]. }
  pose proof (statistics_fold config results [] updater_init Hw Hn H0) as H.
  simpl app in H. fold (process_all config results) in H. fold st in H.
  destruct H as (Hg & Hlw & Hd & Hsum & How & Hrlw & Hlen & k & Hk & Hrec).
  pose proof (count_wins_bound (recent_wins st)) as B.
  repeat (split; [assumption || lia|]). exists k. exact Hrec.
Qed.

(** ** The role swap *)

Lemma div_succ : forall a b,
  0 <= a -> 0 < b ->
  (a + 1) / b = a / b + (if a mod b =? b - 1 then 1 else 0).
Proof.
  intros a b Ha Hb.
  pose proof (Z.div_mod a b ltac:(lia)) as E.
  pose proof (Z.mod_pos_bound a b Hb) as M.
  destruct (Z.eqb_spec (a mod b) (b - 1)) as [Em | Em].
  - symmetry. apply (Z.div_unique (a + 1) b (a / b + 1) 0); lia.
  - symmetry. apply (Z.div_unique (a + 1) b (a / b + 0) (a mod b + 1)); lia.
Qed.

Lemma swap_step : forall config n st r,
  0 <= initial_training_games config -> 0 < swap_interval config ->
  0 <= n -> n + 1 < 2 ^ 31 ->
  swap_invariant config n st ->
  swap_invariant config (n + 1) (process_result config st r).
Proof.
  intros config n st r Hi Hs Hn0 Hn (Hg & Hl & Hb).
  destruct (process_result_counters config st r) as (C1 & _).
  destruct (process_result_swap config st r) as (S1 & S2).
  cbv zeta in S1, S2.
  assert (G : i32_add (games_processed st) 1 = n + 1)
    by (rewrite Hg; unfold i32_add; apply wrap_int32_small; lia).
  rewrite G in S1, S2.
  unfold swap_invariant. rewrite C1, G, S1, S2, Hl, Hb. clear C1 S1 S2.
  split; [reflexivity|].
  unfold last_swap_after, swaps_after, first_swap_game in *.
  set (F := Z.max (initial_training_games config + 1) (swap_interval config)) in *.
  set (I := swap_interval config) in *.
  assert (HF : initial_training_games config + 1 <= F /\ I <= F
               /\ (F = initial_training_games config + 1 \/ F = I))
    by (unfold F, I; lia).
  destruct (Z.ltb_spec (n + 1) F) as [Hlt | Hge].
  - (* before the first swap *)
    replace (n <? F) with true by (symmetry; apply Z.ltb_lt; lia).
    assert (W : i32_add (n + 1) (- 0) = n + 1)
      by (unfold i32_add; rewrite wrap_int32_small by lia; lia).
    rewrite W.
    replace ((n + 1 >? initial_training_games config) && (n + 1 >=? I)) with false.
    + split; reflexivity.
    + symmetry. apply andb_false_iff.
      destruct (Z.gtb_spec (n + 1) (initial_training_games config)); [right | left; reflexivity].
      rewrite Z.geb_leb. apply Z.leb_gt. lia.
  - replace (n + 1 >? initial_training_games config) with true
      by (symmetry; apply Z.gtb_lt; lia).
    cbn [andb].
    destruct (Z.ltb_spec n F) as [Hn1 | Hn1].
    + (* the first swap *)
      assert (En : n + 1 = F) by lia.
      assert (W : i32_add (n + 1) (- 0) = n + 1)
        by (unfold i32_add; rewrite wrap_int32_small by lia; lia).
      rewrite W.
      replace (n + 1 >=? I) with true by (symmetry; rewrite Z.geb_leb; apply Z.leb_le; lia).
      rewrite En, Z.sub_diag, Z.div_0_l by lia. split; [lia | reflexivity].
    + (* later games *)
      pose proof (div_succ (n - F) I ltac:(lia) Hs) as D.
      replace (n - F + 1) with (n + 1 - F) in D by lia.
      pose proof (Z.div_mod (n - F) I ltac:(lia)) as E.
      pose proof (Z.mod_pos_bound (n - F) I Hs) as M.
      assert (Q : 0 <= (n - F) / I) by (apply Z.div_pos; lia).
      assert (W : i32_add (n + 1) (- (F + (n - F) / I * I)) = (n - F) mod I + 1).
      { unfold i32_add. rewrite wrap_int32_small; nia. }
      rewrite W, D.
      destruct (Z.eqb_spec ((n - F) mod I) (I - 1)) as [Em | Em].
      * replace ((n - F) mod I + 1 >=? I) with true
          by (symmetry; rewrite Z.geb_leb; apply Z.leb_le; lia).
        split; [nia|].
        replace ((n - F) / I + 1 + 1) with (((n - F) / I + 1) + 1) by lia.
        rewrite (Z.even_add ((n - F) / I + 1) 1).
        destruct (Z.even ((n - F) / I + 1)); reflexivity.
      * replace ((n - F) mod I + 1 >=? I) with false
          by (symmetry; rewrite Z.geb_leb; apply Z.leb_gt; lia).
        rewrite Z.add_0_r. split; reflexivity.
Qed.

Lemma swap_fold : forall config rs n st,
  0 <= initial_training_games config -> 0 < swap_interval config ->
  0 <= n -> n + Z.of_nat (length rs) < 2 ^ 31 ->
  swap_invariant config n st ->
  swap_invariant config (n + Z.of_nat (length rs)) (fold_left (process_result config) rs st).
Proof.
  intros config. induction rs as [|r rs IH]; intros n st Hi Hs Hn0 Hn H.
  - simpl. rewrite Z.add_0_r. exact H.
  - cbn [fold_left]. change (length (r :: rs)) with (S (length rs)) in *.
    replace (n + Z.of_nat (S (length rs))) with ((n + 1) + Z.of_nat (length rs)) in * by lia.
    apply IH; try assumption; try lia.
    apply swap_step; try assumption; lia.
Qed.

(** The schedule of the role swap.  With a swap interval [I > 0] and
    [initial_training_games >= 0], the updater flips [learner_is_black] for
    the first time at game [first = max(initial_training_games + 1, I)] and
    from then on at every [I]-th game: after [n] games the number of flips
    is [0] for [n < first] and [(n - first) / I + 1] otherwise, the learner
    is Black exactly when that number is even, and [last_swap_game] is the
    game of the last flip.  With the defaults the flips are at the games
    10000, 20000, 30000, ... *)
Theorem role_swap_schedule : forall (config : TrainingConfig) (results : list GameResult),
  0 <= initial_training_games config -> 0 < swap_interval config ->
  Z.of_nat (length results) < 2 ^ 31 ->
  let n := Z.of_nat (length results) in
  learner_is_black (process_all config results) = Z.even (swaps_after config n)
  /\ last_swap_game (process_all config results) = last_swap_after config n
  /\ first_swap_game default_config = 10000
  /\ forall m, 0 <= m -> swaps_after default_config m = m / 10000.
Proof.
  intros config results Hi Hs Hn n.
  assert (H0 : swap_invariant config 0 updater_init).
  { unfold swap_invariant, updater_init, last_swap_after, swaps_after, first_swap_game.
    cbn [games_processed last_swap_game learner_is_black].
    replace (0 <? Z.max (initial_training_games config + 1) (swap_interval config))
      with true by (symmetry; apply Z.ltb_lt; lia).
    repeat split. }
  pose proof (swap_fold config results 0 updater_init Hi Hs ltac:(lia) ltac:(lia) H0)
    as (_ & Hl & Hb).
  rewrite Z.add_0_l in Hl, Hb.
  split; [exact Hb | split; [exact Hl | split; [reflexivity|]]].
  intros m Hm. unfold swaps_after.
  change (first_swap_game default_config) with 10000.
  change (swap_interval default_config) with 10000.
  destruct (Z.ltb_spec m 10000) as [Hlt | Hge].
  - symmetry. apply Z.div_small. lia.
  - replace m with ((m - 10000) + 1 * 10000) at 2 by lia.
    rewrite Z.div_add by lia. reflexivity.
Qed.

End UpdaterStatistics.

(** Three results under the defaults: one win, one draw, one loss. *)
Lemma updater_statistics_witness :
  let results := [Updater.mkResult [] [] Player_Black 10 true;
                  Updater.mkResult [] [] Player_None 500 true;
                  Updater.mkResult [] [] Player_White 12 true] in
  let st := Updater.process_all Updater.default_config results in
  Updater.learner_wins st = 1 /\ Updater.draws st = 1 /\ Updater.opponent_wins st = 1
  /\ Updater.recent_learner_wins st = count_wins (Updater.recent_wins st).
Proof.
  intros results st.
  destruct (updater_statistics Updater.default_config results
              ltac:(simpl; lia) ltac:(simpl; lia))
    as (_ & H1 & H2 & _ & _ & H5 & _).
  split; [exact H1 | split; [exact H2 | split; [reflexivity | exact H5]]].
Defined.

(** Two results with a swap interval of 2 and no initial phase: the learner
    has changed to White after the second game. *)
Lemma role_swap_schedule_witness :
  let config := Updater.mkConfig 0 2 1000 (S754_finite false 9227469 (-24)) in
  let results := [Updater.mkResult [] [] Player_Black 10 true;
                  Updater.mkResult [] [] Player_None 500 true] in
  Updater.learner_is_black (Updater.process_all config results) = false
  /\ Updater.last_swap_game (Updater.process_all config results) = 2.
Proof.
  intros config results.
  destruct (role_swap_schedule config results ltac:(simpl; lia) ltac:(simpl; lia)
                               ltac:(simpl; lia)) as (H1 & H2 & _).
  split; [exact H1 | exact H2].
Defined.

(** ** The learning signal of a game *)

(** Every TD update of a game is on a state at which the learner was to
    move, and all of them have the same target: +1 when the statistics count
    the game as won by the learner, 0 for a draw and -1 otherwise.  (The
    recorded players are Black and White.) *)
Theorem td_targets_match_outcome : forall (result : Updater.GameResult)
    (state : GameState) (target : spec_float),
  (forall p, In p (Updater.players result) -> p = Player_Black \/ p = Player_White) ->
  In (state, target) (Updater.td_samples result) ->
  target = outcome_target result
  /\ exists player,
       In (state, player) (combine (Updater.states result) (Updater.players result))
       /\ player = (if Updater.learner_was_black result then Player_Black else Player_White).
Proof.
  intros result state target Hp Hin. unfold Updater.td_samples in Hin.
  apply in_flat_map in Hin. destruct Hin as [[st player] [Hc Hin]].
  pose proof (Hp player (in_combine_r _ _ _ _ Hc)) as Hpl.
  destruct (negb (Bool.eqb (Player_eqb player Player_Black)
                           (Updater.learner_was_black result))) eqn:E;
    [contradiction|].
  destruct Hin as [Hin | []]. inversion Hin; subst st target. clear Hin.
  apply negb_false_iff in E. apply Bool.eqb_prop in E.
  unfold outcome_target, Updater.learner_won, Updater.td_target.
  split.
  - destruct Hpl as [-> | ->]; simpl in E; rewrite <- E;
      destruct (Updater.winner result); reflexivity.
  - exists player. split; [exact Hc|].
    destruct Hpl as [-> | ->]; simpl in E; rewrite <- E; reflexivity.
Qed.

Lemma td_targets_match_outcome_witness :
  let result := Updater.mkResult [reset; after_first_move] [Player_Black; Player_White]
                                 Player_White 2 true in
  In (reset, b32_minus_one) (Updater.td_samples result)
  /\ b32_minus_one = outcome_target result.
Proof.
  intro result.
  assert (Hin : In (reset, b32_minus_one) (Updater.td_samples result))
    by (left; reflexivity).
  split; [exact Hin|].
  apply (td_targets_match_outcome result reset b32_minus_one); [|exact Hin].
  intros p [<- | [<- | []]]; auto.
Defined.

(** ** The threads of the trainer *)

Section PipelineProofs.

Import SelfPlay Pipeline.

Variables (target_games : Z) (workers : nat).
Hypothesis target_nonneg : 0 <= target_games.
Hypothesis counter_fits : target_games + Z.of_nat workers < 2 ^ 31.

Lemma worker_claim_cases : forall sh sh',
  claims_invariant target_games workers sh ->
  worker_claim target_games sh = Some sh' ->
  games_completed sh' = games_completed sh + 1
  /\ ((started sh' = started sh /\ S (running sh') = running sh)
      \/ (exists g, started sh' = started sh ++ [g] /\ running sh' = running sh)).
Proof.
  intros sh sh' (H0 & Hb & Hl & _) H. unfold worker_claim in H.
  destruct (running sh) as [|others] eqn:Er; [discriminate H|].
  assert (Hw : i32_add (games_completed sh) 1 = games_completed sh + 1)
    by (unfold i32_add; apply wrap_int32_small; lia).
  rewrite Hw in H.
  destruct (games_completed sh >=? target_games); inversion H; subst sh'; simpl.
  - split; [reflexivity | left; split; reflexivity].
  - split; [reflexivity | right]. eexists. split; reflexivity.
Qed.

Lemma worker_claim_enabled : forall sh,
  running sh <> 0%nat -> worker_claim target_games sh <> None.
Proof.
  intros sh Hr. unfold worker_claim. destruct (running sh); [contradiction|].
  destruct (games_completed sh >=? target_games); discriminate.
Qed.

Lemma remove_first_perm : forall g l rest,
  remove_first g l = Some rest ->
  Permutation l (g :: rest) /\ length l = S (length rest).
Proof.
  intros g. induction l as [|h l IH]; intros rest H; simpl in H; [discriminate H|].
  destruct (Z.eqb_spec h g) as [-> | Hne].
  - inversion H; subst. split; [apply Permutation_refl | reflexivity].
  - destruct (remove_first g l) as [r'|]; [|discriminate H].
    inversion H; subst rest. destruct (IH r' eq_refl) as [Hp Hlen]. split.
    + apply perm_trans with (h :: g :: r'); [apply perm_skip; exact Hp | apply perm_swap].
    + simpl. rewrite Hlen. reflexivity.
Qed.

Lemma pipeline_invariant_init :
  pipeline_invariant target_games workers (system_init workers).
Proof.
  unfold pipeline_invariant, system_init. simpl.
  split; [apply claims_invariant_init; assumption|].
  split; [lia | split; [apply perm_nil | split; discriminate]].
Qed.

Lemma pipeline_action : forall a sys sys',
  pipeline_invariant target_games workers sys ->
  do_action target_games a sys = Some sys' ->
  pipeline_invariant target_games workers sys'
  /\ pipeline_measure target_games workers sys' + 1
     = pipeline_measure target_games workers sys.
Proof.
  intros a sys sys' (Hc & Hp & Hperm & Hd & Hf) H.
  unfold pipeline_invariant, pipeline_measure.
  destruct a as [|g| |]; simpl in H.
  - (* Claim *)
    destruct (length (playing sys) <? running (shared sys))%nat eqn:Ei; [|discriminate H].
    apply Nat.ltb_lt in Ei.
    destruct (worker_claim target_games (shared sys)) as [sh|] eqn:Ew; [|discriminate H].
    inversion H; subst sys'; clear H. cbn [shared playing queue_ done_ processed updater_finished].
    pose proof (claims_invariant_step target_games workers counter_fits _ _ Hc Ew)
      as Hc'.
    destruct (worker_claim_cases _ _ Hc Ew) as [Eg [[Es Er] | [game [Es Er]]]].
    + assert (En : newly_started (shared sys) sh = [])
        by (unfold newly_started; rewrite Es, skipn_all; reflexivity).
      rewrite En, app_nil_r, Es. split; [|lia].
      split; [exact Hc' | split; [lia | split; [exact Hperm | split]]].
      * intro D. specialize (Hd D). lia.
      * exact Hf.
    + assert (En : newly_started (shared sys) sh = [game_no game]).
      { unfold newly_started. rewrite Es, skipn_app, skipn_all, Nat.sub_diag. reflexivity. }
      rewrite En, Es, Er, map_app, !length_app. cbn [map length]. split; [|lia].
      split; [exact Hc' | split; [lia | split; [| split]]].
      * rewrite <- app_assoc. cbn [app].
        apply perm_trans with (game_no game :: map game_no (started (shared sys))).
        -- apply Permutation_sym. apply Permutation_cons_append.
        -- apply Permutation_cons_app. exact Hperm.
      * intro D. specialize (Hd D). lia.
      * exact Hf.
  - (* Push *)
    destruct (remove_first g (playing sys)) as [rest|] eqn:Er; [|discriminate H].
    inversion H; subst sys'; clear H. cbn [shared playing queue_ done_ processed updater_finished].
    destruct (remove_first_perm _ _ _ Er) as [Pp Pl].
    rewrite length_app. cbn [length]. split; [|lia].
    split; [exact Hc | split; [lia | split; [| split; [exact Hd|]]]].
    + apply perm_trans with (playing sys ++ queue_ sys ++ processed sys); [exact Hperm|].
      apply perm_trans with ((g :: rest) ++ queue_ sys ++ processed sys);
        [apply Permutation_app_tail; exact Pp|].
      cbn [app]. rewrite <- (app_assoc (queue_ sys) [g] (processed sys)). cbn [app].
      rewrite (app_assoc rest (queue_ sys) (g :: processed sys)).
      rewrite (app_assoc rest (queue_ sys) (processed sys)).
      apply Permutation_middle.
    + intro Fin. destruct (Hf Fin) as [D Q]. specialize (Hd D).
      rewrite Hd in Hp. destruct (playing sys); [discriminate Er | simpl in Hp; lia].
  - (* SetDone *)
    destruct (running (shared sys)) eqn:Er; [|discriminate H].
    destruct (done_ sys) eqn:Ed; [discriminate H|].
    inversion H; subst sys'; clear H. cbn [shared playing queue_ done_ processed updater_finished].
    rewrite Er. split; [|lia].
    split; [exact Hc | split; [exact Hp | split; [exact Hperm | split]]].
    + intros _. reflexivity.
    + intro Fin. destruct (Hf Fin) as [D _]. discriminate D.
  - (* Pop *)
    destruct (updater_finished sys) eqn:Ef; [discriminate H|].
    destruct (queue_ sys) as [|g rest] eqn:Eq.
    + destruct (done_ sys) eqn:Ed; [|discriminate H].
      inversion H; subst sys'; clear H.
      cbn [shared playing queue_ done_ processed updater_finished length].
      split; [|lia].
      split; [exact Hc | split; [exact Hp | split; [exact Hperm | split]]].
      * intros _. apply Hd. reflexivity.
      * intros _. split; reflexivity.
    + inversion H; subst sys'; clear H.
      cbn [shared playing queue_ done_ processed updater_finished length].
      split; [|lia].
      split; [exact Hc | split; [exact Hp | split; [| split; [exact Hd | discriminate]]]].
      apply perm_trans with (playing sys ++ (g :: rest) ++ processed sys); [exact Hperm|].
      apply Permutation_app_head. cbn [app]. rewrite app_assoc.
      apply Permutation_cons_append.
Qed.

Lemma pipeline_run : forall schedule sys sys',
  pipeline_invariant target_games workers sys ->
  run target_games schedule sys = Some sys' ->
  pipeline_invariant target_games workers sys'
  /\ Z.of_nat (length schedule) + pipeline_measure target_games workers sys'
     = pipeline_measure target_games workers sys.
Proof.
  induction schedule as [|a schedule IH]; intros sys sys' Hinv H; simpl in H.
  - inversion H; subst. split; [exact Hinv | simpl; lia].
  - destruct (do_action target_games a sys) as [sys1|] eqn:Ea; [|discriminate H].
    destruct (pipeline_action _ _ _ Hinv Ea) as [Hinv1 Hm1].
    destruct (IH _ _ Hinv1 H) as [Hinv' Hm']. split; [exact Hinv'|].
    change (length (a :: schedule)) with (S (length schedule)). lia.
Qed.

Lemma pipeline_progress : forall sys,
  pipeline_invariant target_games workers sys ->
  updater_finished sys = false ->
  exists a sys', do_action target_games a sys = Some sys'.
Proof.
  intros sys (Hc & Hp & Hperm & Hd & Hf) Hfin.
  destruct (length (playing sys) <? running (shared sys))%nat eqn:Ei.
  - pose proof (proj1 (Nat.ltb_lt _ _) Ei) as Ei'.
    destruct (worker_claim target_games (shared sys)) as [sh|] eqn:Ew.
    + exists Claim. eexists. simpl. rewrite Ei, Ew. reflexivity.
    + exfalso. apply (worker_claim_enabled (shared sys)); [lia | exact Ew].
  - apply Nat.ltb_ge in Ei.
    destruct (playing sys) as [|g rest] eqn:Epl.
    + simpl in Ei. assert (Er : running (shared sys) = 0%nat) by lia.
      destruct (done_ sys) eqn:Ed.
      * exists Pop. simpl. rewrite Hfin, Ed.
        destruct (queue_ sys); eexists; reflexivity.
      * exists SetDone. eexists. simpl. rewrite Er, Ed. reflexivity.
    + exists (Push g). eexists. simpl. rewrite Epl. simpl. rewrite Z.eqb_refl. reflexivity.
Qed.

Lemma pipeline_measure_nonneg : forall sys,
  pipeline_invariant target_games workers sys ->
  0 <= pipeline_measure target_games workers sys.
Proof.
  intros sys ((H0 & Hb & Hl & _) & _). unfold pipeline_measure.
  destruct (done_ sys), (updater_finished sys); lia.
Qed.

Lemma pipeline_finished : forall sys,
  (0 < workers)%nat ->
  pipeline_invariant target_games workers sys ->
  updater_finished sys = true ->
  Permutation (processed sys) (game_numbers target_games).
Proof.
  intros sys Hw ((H0 & Hb & Hl & Hn & _) & Hp & Hperm & Hd & Hf) Hfin.
  destruct (Hf Hfin) as [D Q]. specialize (Hd D).
  assert (Epl : playing sys = [])
    by (destruct (playing sys); [reflexivity | rewrite Hd in Hp; simpl in Hp; lia]).
  rewrite Epl, Q in Hperm. simpl in Hperm. apply Permutation_sym.
  rewrite Hn in Hperm. unfold game_numbers.
  replace (Z.to_nat target_games) with (length (started (shared sys))) by lia.
  exact Hperm.
Qed.

End PipelineProofs.

(** The threads of the trainer, under every schedule of their atomic steps
    (the claims on the game counter, the pushes, [set_done] after the joins,
    the pops).  With at least one worker and a game counter that fits an
    [int]: the games being played, queued and processed are at every moment
    the games started so far, each once; when the updater has left its loop
    it has processed the games 1..target_games, each exactly once; as long
    as it has not, some thread can take a step (no deadlock); and every
    step uses up one unit of a measure that starts at
    [3 * target_games + workers + 2], so that the run ends. *)
Theorem pipeline_processes_every_game : forall (target_games : Z) (workers : nat)
    (schedule : list Pipeline.Action) (sys : Pipeline.System),
  0 <= target_games -> (0 < workers)%nat ->
  target_games + Z.of_nat workers < 2 ^ 31 ->
  Pipeline.run target_games schedule (Pipeline.system_init workers) = Some sys ->
  Permutation (Pipeline.playing sys ++ Pipeline.queue_ sys ++ Pipeline.processed sys)
              (game_numbers (Z.of_nat (length (SelfPlay.started (Pipeline.shared sys)))))
  /\ (Pipeline.updater_finished sys = true ->
      Permutation (Pipeline.processed sys) (game_numbers target_games))
  /\ (Pipeline.updater_finished sys = false ->
      exists a sys', Pipeline.do_action target_games a sys = Some sys')
  /\ Z.of_nat (length schedule) + pipeline_measure target_games workers sys
     = 3 * target_games + Z.of_nat workers + 2
  /\ 0 <= pipeline_measure target_games workers sys.
Proof.
  intros target_games workers schedule sys Ht Hw Hc Hrun.
  assert (Hinit : pipeline_invariant target_games workers (Pipeline.system_init workers))
    by (apply pipeline_invariant_init; assumption).
  assert (Hinv : pipeline_invariant target_games workers sys
                 /\ Z.of_nat (length schedule) + pipeline_measure target_games workers sys
                    = pipeline_measure target_games workers (Pipeline.system_init workers))
    by (eapply pipeline_run; eassumption).
  destruct Hinv as [Hinv Hm].
  split; [| split; [| split; [| split]]].
  - destruct Hinv as ((_ & _ & _ & Hn & _) & _ & Hperm & _).
    apply Permutation_sym. unfold game_numbers. rewrite Nat2Z.id, <- Hn. exact Hperm.
  - eapply pipeline_finished; eassumption.
  - eapply pipeline_progress; eassumption.
  - rewrite Hm. unfold pipeline_measure, Pipeline.system_init, SelfPlay.shared_init.
    cbn [Pipeline.shared Pipeline.playing Pipeline.queue_ Pipeline.done_
         Pipeline.updater_finished SelfPlay.started SelfPlay.running length].
    lia.
  - eapply pipeline_measure_nonneg; eassumption.
Qed.

(** Two games and one worker: claim, push, claim, pop, push, claim (the
    worker leaves), set_done, pop, pop (the updater leaves). *)
Lemma pipeline_processes_every_game_witness :
  let schedule := [Pipeline.Claim; Pipeline.Push 1; Pipeline.Claim; Pipeline.Pop;
                   Pipeline.Push 2; Pipeline.Claim; Pipeline.SetDone; Pipeline.Pop;
                   Pipeline.Pop] in
  exists sys,
    Pipeline.run 2 schedule (Pipeline.system_init 1) = Some sys
    /\ Pipeline.updater_finished sys = true
    /\ Pipeline.processed sys = [1; 2]
    /\ Permutation (Pipeline.processed sys) (game_numbers 2).
Proof.
  intro schedule. eexists. split; [vm_compute; reflexivity|].
  split; [reflexivity | split; [reflexivity|]].
  refine (proj1 (proj2 (pipeline_processes_every_game 2 1 schedule _ _ _ _ _)) _);
    try reflexivity; lia.
Defined.

(** ** Terminal positions in the search and in the trainer *)

Lemma td_target_of_winner : forall cur,
  Updater.td_target Player_Black cur
  = (if Player_eqb cur Player_Black then b32_one else b32_minus_one)
  /\ Updater.td_target Player_White cur
     = (if Player_eqb cur Player_White then b32_one else b32_minus_one).
Proof. intros []; split; reflexivity. Qed.

(** The search and the trainer stop at the same positions, and agree on
    their value when a goal row is reached and the side to move still has a
    move: the value [MCTS::simulation] gives is the TD target of the winner
    the trainer records.  They differ on a side without moves: the trainer
    gives the game to the opponent (target -1 for the side to move),
    whereas the search, when nobody stands on a goal row, scores the
    position 0.  Where the position is not terminal the search takes the
    network's value. *)
Theorem terminal_values : forall (net : NTupleNetwork spec_float) (s : GameState),
  (MCTS.is_terminal s = true <-> Updater.game_over s <> None)
  /\ (forall w, Rules.legal_moves s <> [] -> Updater.game_over s = Some w ->
        MCTS.simulation net s = Some (Updater.td_target w (current_player s)))
  /\ (Rules.legal_moves s = [] ->
      Rules.is_win s Player_Black = false -> Rules.is_win s Player_White = false ->
      current_player s <> Player_None ->
      MCTS.simulation net s = Some (S754_zero false)
      /\ exists w, Updater.game_over s = Some w
                   /\ Updater.td_target w (current_player s) = b32_minus_one)
  /\ (MCTS.is_terminal s = false -> MCTS.simulation net s = evaluate net s).
Proof.
  intros net s. unfold MCTS.simulation, MCTS.is_terminal, Updater.game_over.
  destruct (td_target_of_winner (current_player s)) as [Tb Tw].
  destruct (Rules.legal_moves s) as [|m ms] eqn:El.
  - split; [split; [discriminate | reflexivity]|].
    split; [intros w H; contradiction H; reflexivity|].
    split; [|discriminate].
    intros _ Hb Hw Hcur. rewrite Hb, Hw. split; [reflexivity|].
    eexists. split; [reflexivity|].
    destruct (current_player s); [contradiction Hcur; reflexivity | reflexivity | reflexivity].
  - destruct (Rules.is_win s Player_Black) eqn:Hb; cbn [orb].
    + split; [split; [discriminate | reflexivity]|].
      split; [intros w _ H; inversion H; subst w; rewrite Tb; reflexivity|].
      split; [discriminate | discriminate].
    + destruct (Rules.is_win s Player_White) eqn:Hw.
      * split; [split; [discriminate | reflexivity]|].
        split; [intros w _ H; inversion H; subst w; rewrite Tw; reflexivity|].
        split; [discriminate | discriminate].
      * split; [split; [discriminate | intro H; contradiction H; reflexivity]|].
        split; [intros w _ H; discriminate H|].
        split; [discriminate | reflexivity].
Qed.

(** Black, to move, boxed in on (0,2): a draw for the search, a loss in the
    trainer. *)
Lemma terminal_values_witness :
  MCTS.simulation NTupleNetwork_new boxed_in_state = Some (S754_zero false)
  /\ Updater.game_over boxed_in_state = Some Player_White.
Proof.
  split; [|reflexivity].
  apply (proj1 (proj2 (proj2 (terminal_values NTupleNetwork_new boxed_in_state))));
    try reflexivity.
  discriminate.
Defined.

(** ** Backpropagation *)

Lemma SFopp_involutive : forall x : spec_float, SFopp (SFopp x) = x.
Proof. intros [[]|[]| |[] m e]; reflexivity. Qed.

(** [MCTS::backpropagation] is negamax: along the path from a node to the
    root every node is visited once more, and the value is added to the
    node [k] steps up with its sign kept for even [k] and flipped for odd
    [k]; the path keeps its length. *)
Theorem backpropagation_alternates : forall (path : list MCTS.Node) (value : spec_float)
    (k : nat) (node : MCTS.Node),
  nth_error path k = Some node ->
  - 2 ^ 31 <= MCTS.visits node < 2 ^ 31 - 1 ->
  nth_error (MCTS.backpropagation path value) k
  = Some (MCTS.mkNode (MCTS.visits node + 1)
                      (f_add (MCTS.total_value node)
                             (if Nat.even k then value else f_neg value)))
  /\ length (MCTS.backpropagation path value) = length path.
Proof.
  induction path as [|n path IH]; intros value k node Hk Hv.
  - destruct k; discriminate Hk.
  - destruct k as [|k]; cbn [MCTS.backpropagation nth_error length].
    + inversion Hk; subst n. unfold i32_add. rewrite wrap_int32_small by lia.
      split; [reflexivity|]. f_equal.
      clear. revert value. induction path as [|n path IH]; intro value; simpl;
        [reflexivity | rewrite IH; reflexivity].
    + destruct (IH (f_neg value) k node Hk Hv) as [E L]. rewrite E, L.
      split; [|reflexivity]. rewrite Nat.even_succ, <- Nat.negb_even.
      destruct (Nat.even k); cbn [negb]; [reflexivity|].
      change (f_neg (f_neg value)) with (SFopp (SFopp value)).
      rewrite SFopp_involutive. reflexivity.
Qed.

Lemma backpropagation_alternates_witness :
  nth_error (MCTS.backpropagation [MCTS.mkNode 0 f_zero; MCTS.mkNode 3 f_zero;
                                   MCTS.mkNode 7 f_zero] b32_one) 1
  = Some (MCTS.mkNode 4 (f_add f_zero b32_minus_one)).
Proof.
  apply (backpropagation_alternates
           [MCTS.mkNode 0 f_zero; MCTS.mkNode 3 f_zero; MCTS.mkNode 7 f_zero]
           b32_one 1 (MCTS.mkNode 3 f_zero)); [reflexivity | simpl; lia].
Defined.

